(** * morph: the rollout driver of [morph.go]

    A shallow embedding of the command driver ([main], [doDeploy],
    [doHealthCheck] and their helpers) and the properties of the rollout loop:
    the activation plan, the health gate, the Vault session, the dynamic
    credential, and the handling of the failures of the collaborators.

    The driver is sequential Go code that talks to packages outside this file
    ([nix], [ssh], [secrets], [vault], [healthchecks], [filter], [assets]) and
    to the operating system.  Every such function is a field of [World].  A
    function that acts on the outside is answered as a function of the history
    of the run so far, so that it may answer differently from one call to the
    next, and the call is recorded in the history together with its answer.
    What the driver itself does is translated statement by statement:
    - the four package-level flags, the files written under the temporary
      directory and the history make up the [State];
    - a Go function is a computation in [M], which either returns, panics or
      exits the process ([Ctl]);
    - the loop variable [vc] of [doDeploy], a [*Client] that may be nil, is an
      [option Client] threaded through the iterations;
    - a [range] over the map of the secrets of a host yields its entries in
      an order that the world chooses;
    - the two package-level initialisers that call out and [init], which run
      before [main], are recorded apart ([Startup], [program]).

    The file has two parts: the definitions (the program, sample worlds, and
    the vocabulary of the statements), then the proofs. *)

From stdpp Require Import gmap strings list fin_maps pretty.

Local Open Scope Z_scope.
Local Open Scope string_scope.
Local Open Scope list_scope.

(** ** Data of the collaborating packages *)

(** Go's [error] values, seen through their message. *)
Definition error : Type := string.

Inductive result (A : Type) : Type :=
| Ok (a : A)
| Err (e : error).
Arguments Ok {A} a.
Arguments Err {A} e.

(** [nix.Secret]. *)
Record Secret : Type := mkSecret {
  Source : string;
  Destination : string;
  Owner : string;
  Permissions : string }.

(** [host.Vault.DestinationFile]: the fields [vaultReKey] reads. *)
Record VaultDestinationFile : Type := mkVaultDestinationFile {
  Path : string;
  DestinationOwner : string;
  DestinationPermissions : string }.

Record VaultOptions : Type := mkVaultOptions {
  Enable : bool;
  DestinationFile : VaultDestinationFile }.

(** [host.HealthChecks]: the driver only takes the length of both lists. *)
Record HealthChecksSpec : Type := mkHealthChecksSpec {
  Cmd : list string;
  Http : list string }.

(** [nix.Host].  [Secrets] is a Go map: the list holds its entries, and the
    order of the list means nothing.  A [range] over the map yields every
    entry once, in an order that Go does not specify and that changes from
    one run to the next; the order is asked of the world
    ([ask_range_Secrets]). *)
Record Host : Type := mkHost {
  TargetHost : string;
  Secrets : list (string * Secret);
  HealthChecks : HealthChecksSpec;
  Vault : VaultOptions }.

(** What [vault.CreateOrReKeyHostToken] returns. *)
Record Credentials : Type := mkCredentials {
  Accessor : string;
  Token : string }.

(** A non-nil [*hashicorpvault.Client]. *)
Definition Client : Type := nat.

(** ** The history of a run *)

Inductive Event : Type :=
| EvStdout (text : string)
| EvStderr (text : string)
| EvGetMachines (evalMachinesPath deploymentPath : string) (r : result (list Host))
| EvBuildMachines (evalMachinesPath deploymentPath : string) (hosts : list Host)
    (r : result string)
| EvReadPassword (r : result string)
| EvGetPathsToPush (host : Host) (resultPath : string) (r : result (list string))
| EvPush (host : Host) (paths : list string) (r : option error)
| EvVaultAuth (addr rootToken : string) (r : result Client)
| EvVaultConfigure (vc : Client) (r : option error)
| EvCreateOrReKeyHostToken (vc : Client) (host : Host) (r : result Credentials)
| EvOpenFile (name : string) (r : option error)
| EvWrite (name : string) (text : string)
| EvRemove (name : string) (r : option error)
| EvGetSecretSize (secret : Secret) (dir : string) (r : result Z)
| EvUploadSecret (host : Host) (sudoPasswd : string) (secret : Secret) (dir : string)
    (r : option error)
| EvGetNixSystemPath (host : Host) (resultPath : string) (r : result string)
| EvActivateConfiguration (host : Host) (configuration action sudoPasswd : string)
    (r : option error)
| EvHealthChecksPerform (host : Host) (timeout : Z) (r : option error)
| EvTeardown (assetRoot : string).

Definition History : Type := list Event.

(** ** The collaborators

    Functions that only compute ([filepath.Join], [nix.GetHostname], ...) take
    their arguments; functions that act on the outside (the fields [ask_...])
    also take the history.  A Go function returning [(T, error)] returns a
    [result T] here, one returning [error] an [option error].  For [nix.Push]
    the driver never reads a result; it is given the one of the design's
    interface list, [push(host, paths) -> () | TransferError]. *)
Record World : Type := mkWorld {
  os_Getenv : string -> string;
  filepath_Join : string -> string -> string;
  filepath_Abs : string -> result string;
  filepath_Dir : string -> string;
  nix_GetHostname : Host -> string;
  filter_MatchHosts : list Host -> string -> result (list Host);
  filter_FilterHosts : list Host -> Z -> Z -> Z -> list Host;
  ask_nix_GetMachines : History -> string -> string -> result (list Host);
  ask_nix_BuildMachines : History -> string -> string -> list Host -> result string;
  ask_terminal_ReadPassword : History -> result string;
  ask_nix_GetPathsToPush : History -> Host -> string -> result (list string);
  ask_nix_Push : History -> Host -> list string -> option error;
  ask_vault_Auth : History -> string -> string -> result Client;
  ask_vault_Configure : History -> Client -> option error;
  ask_vault_CreateOrReKeyHostToken : History -> Client -> Host -> result Credentials;
  ask_os_OpenFile : History -> string -> option error;
  ask_os_Remove : History -> string -> option error;
  ask_secrets_GetSecretSize : History -> Secret -> string -> result Z;
  ask_secrets_UploadSecret : History -> Host -> string -> Secret -> string -> option error;
  ask_nix_GetNixSystemPath : History -> Host -> string -> result string;
  ask_ssh_ActivateConfiguration :
    History -> Host -> string -> string -> string -> option error;
  ask_healthchecks_Perform : History -> Host -> Z -> option error;
  ask_range_Secrets : History -> list (string * Secret) -> list (string * Secret);
  range_Secrets_perm : forall t entries, ask_range_Secrets t entries ≡ₚ entries }.

(** ** The command line and the package-level values *)

Record Config : Type := mkConfig {
  dryRun : bool;
  selectGlob : string;
  selectEvery : Z;
  selectSkip : Z;
  selectLimit : Z;
  deployDeployment : string;
  switchAction : string;
  deployAskForSudoPasswd : bool;
  deploySkipHealthChecks : bool;
  deployHealthCheckTimeout : Z;
  healthCheckDeployment : string;
  healthCheckTimeout : Z;
  tempDir : string;
  assetRoot : string }.

(** The mutable part: the four package-level flags, the files this process
    has written, and the history. *)
Record State : Type := mkState {
  doPush : bool;
  doAskPass : bool;
  doUploadSecrets : bool;
  doActivate : bool;
  files : gmap string string;
  trace : History }.

Definition initial : State :=
  {| doPush := false; doAskPass := false; doUploadSecrets := false;
     doActivate := false; files := ∅; trace := [] |}.

(** ** Control: normal return, [panic], [os.Exit] *)

Inductive Ctl (A : Type) : Type :=
| Normal (a : A)
| Panic (e : error)
| Exit (code : Z).
Arguments Normal {A} a.
Arguments Panic {A} e.
Arguments Exit {A} code.

Definition M (A : Type) : Type := State -> Ctl A * State.

Definition ret {A} (a : A) : M A := fun s => (Normal a, s).

Definition bind {A B} (m : M A) (k : A -> M B) : M B :=
  fun s =>
    match m s with
    | (Normal a, s') => k a s'
    | (Panic e, s') => (Panic e, s')
    | (Exit c, s') => (Exit c, s')
    end.

Definition panic {A} (e : error) : M A := fun s => (Panic e, s).
Definition os_Exit {A} (code : Z) : M A := fun s => (Exit code, s).

Declare Scope go_scope.
Delimit Scope go_scope with go.
Notation "x <- m ;; k" := (bind m (fun x => k))
  (at level 100, m at next level, right associativity) : go_scope.
Notation "m ;; k" := (bind m (fun _ => k))
  (at level 100, right associativity) : go_scope.
Local Open Scope go_scope.

Definition when (b : bool) (m : M unit) : M unit := if b then m else ret tt.

(** [for _, x := range xs { body }], where [v] stands for the local
    variables that the body assigns and that outlive one iteration. *)
Fixpoint for_range {A V} (xs : list A) (body : A -> V -> M V) (v : V) : M V :=
  match xs with
  | [] => ret v
  | x :: xs' => v' <- body x v ;; for_range xs' body v'
  end.

(** The same loop when the body assigns no such variable. *)
Definition for_each {A} (xs : list A) (body : A -> M unit) : M unit :=
  for_range xs (fun x _ => body x) tt.

(** [for index, x := range xs]. *)
Definition enumerate {A} (xs : list A) : list (Z * A) :=
  imap (fun i x => (Z.of_nat i, x)) xs.

(** *** State primitives *)

Definition log (e : Event) (s : State) : State :=
  {| doPush := doPush s; doAskPass := doAskPass s;
     doUploadSecrets := doUploadSecrets s; doActivate := doActivate s;
     files := files s; trace := trace s ++ [e] |}.

Definition emit (e : Event) : M unit := fun s => (Normal tt, log e s).

(** A call to the outside: ask the world, record the call and its answer. *)
Definition call {R} (ask : History -> R) (ev : R -> Event) : M R :=
  fun s => let r := ask (trace s) in (Normal r, log (ev r) s).

Definition set_files (f : gmap string string) (s : State) : State :=
  {| doPush := doPush s; doAskPass := doAskPass s;
     doUploadSecrets := doUploadSecrets s; doActivate := doActivate s;
     files := f; trace := trace s |}.

Definition set_doPush (b : bool) : M unit := fun s =>
  (Normal tt, {| doPush := b; doAskPass := doAskPass s;
     doUploadSecrets := doUploadSecrets s; doActivate := doActivate s;
     files := files s; trace := trace s |}).
Definition set_doAskPass (b : bool) : M unit := fun s =>
  (Normal tt, {| doPush := doPush s; doAskPass := b;
     doUploadSecrets := doUploadSecrets s; doActivate := doActivate s;
     files := files s; trace := trace s |}).
Definition set_doUploadSecrets (b : bool) : M unit := fun s =>
  (Normal tt, {| doPush := doPush s; doAskPass := doAskPass s;
     doUploadSecrets := b; doActivate := doActivate s;
     files := files s; trace := trace s |}).
Definition set_doActivate (b : bool) : M unit := fun s =>
  (Normal tt, {| doPush := doPush s; doAskPass := doAskPass s;
     doUploadSecrets := doUploadSecrets s; doActivate := b;
     files := files s; trace := trace s |}).

Definition get {A} (f : State -> A) : M A := fun s => (Normal (f s), s).

(** *** Output *)

Definition nl : string := String (Ascii.ascii_of_nat 10) "".
Definition tab : string := String (Ascii.ascii_of_nat 9) "".

Definition Print (text : string) : M unit := emit (EvStdout text).
Definition Println (text : string) : M unit := emit (EvStdout (text +:+ nl)).
Definition Eprint (text : string) : M unit := emit (EvStderr text).
Definition Eprintln (text : string) : M unit := emit (EvStderr (text +:+ nl)).

(** [%d] and [%3d] of [fmt.Printf]. *)
Definition fmt_d (n : Z) : string := pretty n.

Fixpoint spaces (n : nat) : string :=
  match n with
  | O => ""
  | S n' => " " +:+ spaces n'
  end.

Definition fmt_3d (n : Z) : string :=
  let d := fmt_d n in spaces (3 - String.length d)%nat +:+ d.

Definition len {A} (l : list A) : Z := Z.of_nat (length l).

Definition dquote : string := String (Ascii.ascii_of_nat 34) "".

(** Go's [len] of a string counts its bytes. *)
Definition slen (x : string) : Z := Z.of_nat (String.length x).

(** ** The driver *)

Section Driver.

Variable W : World.
Variable cfg : Config.

(** *** Calls to the collaborating packages *)

Definition nix_GetMachines (evalMachinesPath deploymentPath : string) :=
  call (fun t => ask_nix_GetMachines W t evalMachinesPath deploymentPath)
       (EvGetMachines evalMachinesPath deploymentPath).

Definition nix_BuildMachines (evalMachinesPath deploymentPath : string)
    (hosts : list Host) :=
  call (fun t => ask_nix_BuildMachines W t evalMachinesPath deploymentPath hosts)
       (EvBuildMachines evalMachinesPath deploymentPath hosts).

Definition terminal_ReadPassword :=
  call (ask_terminal_ReadPassword W) EvReadPassword.

Definition nix_GetPathsToPush (host : Host) (resultPath : string) :=
  call (fun t => ask_nix_GetPathsToPush W t host resultPath)
       (EvGetPathsToPush host resultPath).

Definition nix_Push (host : Host) (paths : list string) :=
  call (fun t => ask_nix_Push W t host paths) (EvPush host paths).

Definition vault_Auth (addr rootToken : string) :=
  call (fun t => ask_vault_Auth W t addr rootToken) (EvVaultAuth addr rootToken).

Definition vault_Configure (vc : Client) :=
  call (fun t => ask_vault_Configure W t vc) (EvVaultConfigure vc).

Definition vault_CreateOrReKeyHostToken (vc : Client) (host : Host) :=
  call (fun t => ask_vault_CreateOrReKeyHostToken W t vc host)
       (EvCreateOrReKeyHostToken vc host).

Definition secrets_GetSecretSize (secret : Secret) (dir : string) :=
  call (fun t => ask_secrets_GetSecretSize W t secret dir)
       (EvGetSecretSize secret dir).

Definition secrets_UploadSecret (host : Host) (sudoPasswd : string)
    (secret : Secret) (dir : string) :=
  call (fun t => ask_secrets_UploadSecret W t host sudoPasswd secret dir)
       (EvUploadSecret host sudoPasswd secret dir).

Definition nix_GetNixSystemPath (host : Host) (resultPath : string) :=
  call (fun t => ask_nix_GetNixSystemPath W t host resultPath)
       (EvGetNixSystemPath host resultPath).

Definition ssh_ActivateConfiguration (host : Host)
    (configuration action sudoPasswd : string) :=
  call (fun t => ask_ssh_ActivateConfiguration W t host configuration action sudoPasswd)
       (EvActivateConfiguration host configuration action sudoPasswd).

Definition healthchecks_Perform (host : Host) (timeout : Z) :=
  call (fun t => ask_healthchecks_Perform W t host timeout)
       (EvHealthChecksPerform host timeout).

Definition assets_Teardown (root : string) : M unit := emit (EvTeardown root).

(** [os.OpenFile(name, O_WRONLY|O_CREATE|O_TRUNC, 0400)]: when it succeeds
    the file exists and is empty. *)
Definition os_OpenFile (name : string) : M (option error) :=
  fun s =>
    let r := ask_os_OpenFile W (trace s) name in
    (Normal r,
     log (EvOpenFile name r)
         (match r with
          | None => set_files (<[name := ""]> (files s)) s
          | Some _ => s
          end)).

(** The writes to the buffered writer of an open file, [Flush] and [Sync]:
    the driver looks at none of their results.  The file is given the text
    that the driver writes to it. *)
Definition write_file (name text : string) : M unit :=
  fun s => (Normal tt, log (EvWrite name text) (set_files (<[name := text]> (files s)) s)).

(** [os.Remove(name)]: when it succeeds the file is gone, when it fails the
    file is as it was.  The driver does not look at its result. *)
Definition os_Remove (name : string) : M unit :=
  fun s =>
    let r := ask_os_Remove W (trace s) name in
    (Normal tt,
     log (EvRemove name r)
         (match r with
          | None => set_files (delete name (files s)) s
          | Some _ => s
          end)).

(** [for name, secret := range secrets]: the entries, in the order in which
    the world yields them this time. *)
Definition range_Secrets (entries : list (string * Secret))
    : M (list (string * Secret)) :=
  get (fun s => ask_range_Secrets W (trace s) entries).

(** *** [printVaultWarning] *)

Definition printVaultWarning (err : error) : M unit :=
  Eprintln "! ! ! ! ! ! ! ! ! ! ! !" ;;
  Eprintln "Interaction with Vault failed, this means that we won't be able to rekey host tokens" ;;
  Eprint tab ;;
  Eprintln err ;;
  Eprintln "" ;;
  Eprintln "! ! ! ! ! ! ! ! ! ! ! !" ;;
  Eprintln "".

(** *** [vaultInit]: [None] is the nil client *)

Definition vaultInit : M (option Client) :=
  let addr := os_Getenv W "VAULT_ADDR" in
  let rootToken := os_Getenv W "VAULT_TOKEN" in
  if (1 <? slen addr)%Z && (1 <? slen rootToken)%Z then
    r <- vault_Auth addr rootToken ;;
    match r with
    | Err err => printVaultWarning err ;; ret None
    | Ok vc =>
        err <- vault_Configure vc ;;
        match err with
        | Some err => printVaultWarning err ;; ret None
        | None => ret (Some vc)
        end
    end
  else
    Eprintln "Vault: Please set VAULT_ADDR and VAULT_TOKEN in environment." ;;
    Eprintln "" ;;
    ret None.

(** *** [vaultReKey]: [None] is the nil secret *)

Definition tempFile : string := tempDir cfg +:+ "/vault.env".

Definition vaultReKey (vc : Client) (hosts : list Host) : M (option Secret) :=
  match hosts with
  | [] => panic "runtime error: index out of range"
  | host :: _ =>
      r <- vault_CreateOrReKeyHostToken vc host ;;
      match r with
      | Err err => printVaultWarning err ;; ret None
      | Ok creds =>
          err <- os_OpenFile tempFile ;;
          match err with
          | Some err => printVaultWarning err ;; ret None
          | None =>
              write_file tempFile
                ("VAULT_ACCESSOR=" +:+ Accessor creds +:+ nl +:+
                 "VAULT_TOKEN=" +:+ Token creds +:+ nl) ;;
              Print ("Vault: Secret token for host " +:+ dquote +:+ TargetHost host
                     +:+ dquote +:+ " got rekeyed") ;;
              Println "" ;;
              ret (Some {| Source := tempFile;
                           Destination := Path (DestinationFile (Vault host));
                           Owner := DestinationOwner (DestinationFile (Vault host));
                           Permissions :=
                             DestinationPermissions (DestinationFile (Vault host)) |})
          end
      end
  end.

(** *** [getHosts] *)

Definition getHosts (deployment : string) : M (result (list Host)) :=
  let evalMachinesPath := filepath_Join W (assetRoot cfg) "eval-machines.nix" in
  match filepath_Abs W deployment with
  | Err err => ret (Err err)
  | Ok deploymentPath =>
      r <- nix_GetMachines evalMachinesPath deploymentPath ;;
      match r with
      | Err err => ret (Err err)
      | Ok allHosts =>
          match filter_MatchHosts W allHosts (selectGlob cfg) with
          | Err err => ret (Err err)
          | Ok matchingHosts =>
              let filteredHosts :=
                filter_FilterHosts W matchingHosts (selectSkip cfg) (selectEvery cfg)
                  (selectLimit cfg) in
              Print ("Selected " +:+ fmt_d (len filteredHosts) +:+ "/" +:+
                     fmt_d (len allHosts) +:+ " hosts (name filter:-" +:+
                     fmt_d (len allHosts - len matchingHosts) +:+ ", limits:-" +:+
                     fmt_d (len matchingHosts - len filteredHosts) +:+ "):" +:+ nl) ;;
              for_each (enumerate filteredHosts) (fun '(index, host) =>
                Print (tab +:+ fmt_3d index +:+ ": " +:+ nix_GetHostname W host +:+
                       " (secrets: " +:+ fmt_d (len (Secrets host)) +:+
                       ", health checks: " +:+
                       fmt_d (len (Cmd (HealthChecks host)) + len (Http (HealthChecks host)))
                       +:+ ")" +:+ nl)) ;;
              Println "" ;;
              ret (Ok filteredHosts)
          end
      end
  end.

(** *** [build] *)

Definition build : M (list Host * string) :=
  let evalMachinesPath := filepath_Join W (assetRoot cfg) "eval-machines.nix" in
  match filepath_Abs W (deployDeployment cfg) with
  | Err err => panic err
  | Ok deploymentPath =>
      r <- getHosts (deployDeployment cfg) ;;
      match r with
      | Err err => panic err
      | Ok hosts =>
          r <- nix_BuildMachines evalMachinesPath deploymentPath hosts ;;
          match r with
          | Err err => panic err
          | Ok resultPath =>
              Println ("nix result path: " +:+ resultPath) ;;
              ret (hosts, resultPath)
          end
      end
  end.

(** *** [askForSudoPassword] *)

Definition askForSudoPassword : M string :=
  Print "Please enter remote sudo password: " ;;
  r <- terminal_ReadPassword ;;
  match r with
  | Err err => panic err
  | Ok bytePassword => ret bytePassword
  end.

(** *** [pushPaths]: the value of [nix.Push] is dropped *)

Definition pushPaths (filteredHosts : list Host) (resultPath : string) : M unit :=
  for_each filteredHosts (fun host =>
    r <- nix_GetPathsToPush host resultPath ;;
    match r with
    | Err err => panic err
    | Ok paths =>
        Print ("Pushing paths to " +:+ TargetHost host +:+ ":" +:+ nl) ;;
        for_each paths (fun path => Print (tab +:+ "* " +:+ path +:+ nl)) ;;
        _ <- nix_Push host paths ;;
        ret tt
    end).

(** *** [uploadSecrets] *)

Definition uploadSecrets (filteredHosts : list Host) (sudoPasswd : string) : M unit :=
  let deploymentDir := filepath_Dir W (deployDeployment cfg) in
  for_each filteredHosts (fun host =>
    Print ("Uploading secrets to " +:+ nix_GetHostname W host +:+ ":" +:+ nl) ;;
    entries <- range_Secrets (Secrets host) ;;
    for_each entries (fun '(secretName, secret) =>
      r <- secrets_GetSecretSize secret deploymentDir ;;
      match r with
      | Err err => panic err
      | Ok secretSize =>
          Print (tab +:+ "* " +:+ secretName +:+ " (" +:+ fmt_d secretSize +:+
                 " bytes).. ") ;;
          err <- secrets_UploadSecret host sudoPasswd secret deploymentDir ;;
          match err with
          | Some err => Println "Failed" ;; panic err
          | None => Println "OK"
          end
      end)).

(** *** [activateConfiguration] *)

Definition activateConfiguration (filteredHosts : list Host)
    (resultPath sudoPasswd : string) : M unit :=
  Println ("Executing '" +:+ switchAction cfg +:+ "' on matched hosts:") ;;
  Println "" ;;
  for_each filteredHosts (fun host =>
    Println ("** " +:+ TargetHost host) ;;
    r <- nix_GetNixSystemPath host resultPath ;;
    match r with
    | Err err => panic err
    | Ok configuration =>
        err <- ssh_ActivateConfiguration host configuration (switchAction cfg)
                 sudoPasswd ;;
        match err with
        | Some err => panic err
        | None => Println ""
        end
    end).

(** *** [doDeploy] *)

(** The [switch] on the requested action, run only when [--dry-run] is off. *)
Definition resolvePlan : M unit :=
  when (negb (dryRun cfg))
    (if String.eqb (switchAction cfg) "push" then
       set_doPush true
     else if String.eqb (switchAction cfg) "dry-activate" then
       set_doPush true ;;
       when (deployAskForSudoPasswd cfg) (set_doAskPass true) ;;
       set_doActivate true
     else if String.eqb (switchAction cfg) "test"
             || String.eqb (switchAction cfg) "switch"
             || String.eqb (switchAction cfg) "boot" then
       set_doPush true ;;
       when (deployAskForSudoPasswd cfg) (set_doAskPass true) ;;
       set_doUploadSecrets true ;;
       set_doActivate true
     else ret tt).

(** The [if vc != nil] block: rekey, upload the credential, remove the file. *)
Definition rekeyStep (host : Host) (sudoPasswd : string) (vc : Client) : M unit :=
  let singleHostInList := [host] in
  secret <- vaultReKey vc singleHostInList ;;
  match secret with
  | Some secret =>
      _ <- secrets_UploadSecret host sudoPasswd secret "./" ;;
      os_Remove (Source secret)
  | None => ret tt
  end.

(** The [if host.Vault.Enable] block; [vc] is the loop's Vault client. *)
Definition vaultStep (host : Host) (sudoPasswd : string) (vc : option Client)
    : M (option Client) :=
  if Enable (Vault host) then
    vc <- match vc with
          | None => vaultInit
          | Some _ => ret vc
          end ;;
    match vc with
    | Some c => rekeyStep host sudoPasswd c
    | None => ret tt
    end ;;
    ret vc
  else ret vc.

(** The [if !*deploySkipHealthChecks] block. *)
Definition healthGate (host : Host) : M unit :=
  when (negb (deploySkipHealthChecks cfg))
    (err <- healthchecks_Perform host (deployHealthCheckTimeout cfg) ;;
     match err with
     | Some _ =>
         Println "" ;;
         Println "Not deploying to additional hosts, since a host health check failed." ;;
         os_Exit 1
     | None => ret tt
     end).

(** One iteration of the loop over [hosts]. *)
Definition deployHost (resultPath sudoPasswd : string) (host : Host)
    (vc : option Client) : M (option Client) :=
  let singleHostInList := [host] in
  push <- get doPush ;;
  when push (pushPaths singleHostInList resultPath) ;;
  Println "" ;;
  vc <- vaultStep host sudoPasswd vc ;;
  upload <- get doUploadSecrets ;;
  when upload (uploadSecrets singleHostInList sudoPasswd) ;;
  activate <- get doActivate ;;
  when activate (activateConfiguration singleHostInList resultPath sudoPasswd) ;;
  healthGate host ;;
  Println ("Done: " +:+ nix_GetHostname W host) ;;
  ret vc.

Definition deployHosts (hosts : list Host) (resultPath sudoPasswd : string)
    (vc : option Client) : M (option Client) :=
  for_range hosts (deployHost resultPath sudoPasswd) vc.

Definition doDeploy : M unit :=
  resolvePlan ;;
  built <- build ;;
  let '(hosts, resultPath) := built in
  Println "" ;;
  askPass <- get doAskPass ;;
  sudoPasswd <- (if askPass then
                   passwd <- askForSudoPassword ;;
                   Println "" ;;
                   Println "" ;;
                   ret passwd
                 else ret "") ;;
  _ <- deployHosts hosts resultPath sudoPasswd None ;;
  ret tt.

(** *** [doHealthCheck] *)

Definition doHealthCheck : M unit :=
  r <- getHosts (healthCheckDeployment cfg) ;;
  match r with
  | Err err => panic err
  | Ok hosts =>
      for_each hosts (fun host =>
        _ <- healthchecks_Perform host (healthCheckTimeout cfg) ;;
        ret tt)
  end.

(** *** [main]; [command] is what [kingpin.MustParse] returned *)

Definition main (command : string) : M unit :=
  (if String.eqb command "deploy" then doDeploy
   else if String.eqb command "check-health" then doHealthCheck
   else ret tt) ;;
  assets_Teardown (assetRoot cfg).

End Driver.

Arguments tempFile cfg /.

(** ** Sample worlds and hosts, for concrete runs *)

Module Sample.

Definition plainHost (name : string) : Host :=
  {| TargetHost := name;
     Secrets := [];
     HealthChecks := {| Cmd := []; Http := [] |};
     Vault := {| Enable := false;
                 DestinationFile :=
                   {| Path := ""; DestinationOwner := ""; DestinationPermissions := "" |} |} |}.

Definition vaultHost (name : string) : Host :=
  {| TargetHost := name;
     Secrets := [];
     HealthChecks := {| Cmd := []; Http := [] |};
     Vault := {| Enable := true;
                 DestinationFile :=
                   {| Path := "/run/vault.env"; DestinationOwner := "root";
                      DestinationPermissions := "0400" |} |} |}.

Definition secretHost (name : string) : Host :=
  {| TargetHost := name;
     Secrets := [("db", {| Source := "db.key"; Destination := "/run/db.key";
                           Owner := "root"; Permissions := "0400" |})];
     HealthChecks := {| Cmd := ["true"]; Http := [] |};
     Vault := {| Enable := false;
                 DestinationFile :=
                   {| Path := ""; DestinationOwner := ""; DestinationPermissions := "" |} |} |}.

Definition fails (bad : list string) (host : Host) : option error :=
  if bool_decide (TargetHost host ∈ bad) then Some "failed" else None.

(** A world over a fixed inventory: [env] is the process environment, and
    each list names the hosts on which that collaborator fails. *)
Definition world (inventory : list Host) (env : string -> string)
    (authOk configureOk : bool)
    (badPush badUpload badActivate badHealth : list string) : World :=
  {| os_Getenv := env;
     filepath_Join := fun dir name => dir +:+ "/" +:+ name;
     filepath_Abs := fun name => Ok ("/work/" +:+ name);
     filepath_Dir := fun _ => ".";
     nix_GetHostname := TargetHost;
     filter_MatchHosts := fun hosts _ => Ok hosts;
     filter_FilterHosts := fun hosts _ _ _ => hosts;
     ask_nix_GetMachines := fun _ _ _ => Ok inventory;
     ask_nix_BuildMachines := fun _ _ _ _ => Ok "/nix/store/result";
     ask_terminal_ReadPassword := fun _ => Ok "hunter2";
     ask_nix_GetPathsToPush := fun _ host _ => Ok ["/nix/store/" +:+ TargetHost host];
     ask_nix_Push := fun _ host _ => fails badPush host;
     ask_vault_Auth := fun _ _ _ => if authOk then Ok 7%nat else Err "denied";
     ask_vault_Configure := fun _ _ => if configureOk then None else Some "sealed";
     ask_vault_CreateOrReKeyHostToken := fun _ _ host =>
       Ok {| Accessor := "acc-" +:+ TargetHost host; Token := "tok-" +:+ TargetHost host |};
     ask_os_OpenFile := fun _ _ => None;
     ask_os_Remove := fun _ _ => None;
     ask_secrets_GetSecretSize := fun _ _ _ => Ok 32;
     ask_secrets_UploadSecret := fun _ host _ _ _ => fails badUpload host;
     ask_nix_GetNixSystemPath := fun _ host _ => Ok ("/nix/store/system-" +:+ TargetHost host);
     ask_ssh_ActivateConfiguration := fun _ host _ _ _ => fails badActivate host;
     ask_healthchecks_Perform := fun _ host _ => fails badHealth host;
     ask_range_Secrets := fun _ entries => entries;
     range_Secrets_perm := fun _ entries => Permutation_refl entries |}.

Definition noEnv : string -> string := fun _ => "".

Definition vaultEnv : string -> string := fun name =>
  if String.eqb name "VAULT_ADDR" then "http://vault:8200"
  else if String.eqb name "VAULT_TOKEN" then "s.root"
  else "".

Definition config (dry : bool) (action : string) : Config :=
  {| dryRun := dry;
     selectGlob := "*";
     selectEvery := 1;
     selectSkip := 0;
     selectLimit := 0;
     deployDeployment := "net.nix";
     switchAction := action;
     deployAskForSudoPasswd := false;
     deploySkipHealthChecks := false;
     deployHealthCheckTimeout := 0;
     healthCheckDeployment := "net.nix";
     healthCheckTimeout := 0;
     tempDir := "/tmp/morph-1";
     assetRoot := "/tmp/assets" |}.

End Sample.

(** ** Runs and what they add to the history *)

(** The four flags of the activation plan, as the state holds them. *)
Definition plan (s : State) : bool * bool * bool * bool :=
  (doPush s, doAskPass s, doUploadSecrets s, doActivate s).

(** What a computation adds to the history when run from [s]. *)
Definition emitted {A} (m : M A) (s : State) : History :=
  drop (length (trace s)) (trace (snd (m s))).

(** How a computation ended, without the value it returned. *)
Definition Outcome : Type := Ctl unit.

Definition outcome {A} (c : Ctl A) : Outcome :=
  match c with
  | Normal _ => Normal tt
  | Panic e => Panic e
  | Exit code => Exit code
  end.

(** A relation between the state before a run, how the run ended, and the
    state after it. *)
Definition Step : Type := State -> Outcome -> State -> Prop.

(** [s'] is [s] after more events, each in [P]. *)
Definition grows (P : Event -> Prop) : Step :=
  fun s _ s' => exists d, trace s' = trace s ++ d /\ Forall P d.

(** The flags of the plan are the same in [s'] as in [s]. *)
Definition same_plan : Step := fun s _ s' => plan s' = plan s.

(** So are the files. *)
Definition same_files : Step := fun s _ s' => files s' = files s.

(** The run did not end in [os.Exit]. *)
Definition no_exit : Step := fun _ o _ => forall code, o <> Exit code.

(** All of the above. *)
Definition grows_quietly (P : Event -> Prop) : Step :=
  fun s o s' => same_plan s o s' /\ same_files s o s' /\ no_exit s o s' /\ grows P s o s'.

(** A computation respects a step relation when every run of it is in it. *)
Definition respects (R : Step) {A} (m : M A) : Prop :=
  forall s, R s (outcome (fst (m s))) (snd (m s)).

(** Step relations that hold of [return] and [panic] and compose along a
    sequence of statements. *)
Class Sequential (R : Step) : Prop := {
  seq_ret : forall s, R s (Normal tt) s;
  seq_panic : forall s e, R s (Panic e) s;
  seq_bind : forall s1 s2 s3 o, R s1 (Normal tt) s2 -> R s2 o s3 -> R s1 o s3 }.

(** [emits P m]: [m] only adds events in [P].  [keeps_plan m]: [m] does not
    assign the flags.  [keeps_files m]: [m] writes and removes no file.
    [quiet P m]: all three, and [m] never calls [os.Exit]. *)
Definition emits {A} (P : Event -> Prop) (m : M A) : Prop := respects (grows P) m.
Definition keeps_plan {A} (m : M A) : Prop := respects same_plan m.
Definition keeps_files {A} (m : M A) : Prop := respects same_files m.
Definition quiet {A} (P : Event -> Prop) (m : M A) : Prop := respects (grows_quietly P) m.

(** A triple: from a state in [Pre], the run ends in [Post]. *)
Definition hoare {A} (Pre : State -> Prop) (m : M A) (Post : Ctl A -> State -> Prop)
    : Prop :=
  forall s, Pre s -> Post (fst (m s)) (snd (m s)).

(** ** What each function of the driver may add to the history *)

Definition printVaultWarning_event (e : Event) : Prop :=
  match e with
  | EvStderr _ => True
  | _ => False
  end.

Definition vaultInit_event (e : Event) : Prop :=
  match e with
  | EvStderr _ | EvVaultAuth _ _ _ | EvVaultConfigure _ _ => True
  | _ => False
  end.

Definition getHosts_event (e : Event) : Prop :=
  match e with
  | EvStdout _ | EvGetMachines _ _ _ => True
  | _ => False
  end.

Definition build_event (e : Event) : Prop :=
  match e with
  | EvStdout _ | EvGetMachines _ _ _ | EvBuildMachines _ _ _ _ => True
  | _ => False
  end.

Definition askForSudoPassword_event (e : Event) : Prop :=
  match e with
  | EvStdout _ | EvReadPassword _ => True
  | _ => False
  end.

Definition pushPaths_event (hosts : list Host) (e : Event) : Prop :=
  match e with
  | EvStdout _ => True
  | EvGetPathsToPush h _ _ | EvPush h _ _ => h ∈ hosts
  | _ => False
  end.

Definition uploadSecrets_event (hosts : list Host) (e : Event) : Prop :=
  match e with
  | EvStdout _ | EvGetSecretSize _ _ _ => True
  | EvUploadSecret h _ secret _ _ => h ∈ hosts /\ secret ∈ (Secrets h).*2
  | _ => False
  end.

Definition activateConfiguration_event (hosts : list Host) (e : Event) : Prop :=
  match e with
  | EvStdout _ => True
  | EvGetNixSystemPath h _ _ | EvActivateConfiguration h _ _ _ _ => h ∈ hosts
  | _ => False
  end.

Definition healthGate_event (host : Host) (e : Event) : Prop :=
  match e with
  | EvStdout _ => True
  | EvHealthChecksPerform h _ _ => h = host
  | _ => False
  end.

Definition vaultReKey_event (cfg : Config) (vc : Client) (hosts : list Host)
    (e : Event) : Prop :=
  match e with
  | EvStdout _ | EvStderr _ => True
  | EvCreateOrReKeyHostToken c h _ => c = vc /\ h ∈ hosts
  | EvOpenFile name _ | EvWrite name _ => name = tempFile cfg
  | _ => False
  end.

Definition vaultStep_event (cfg : Config) (host : Host) (e : Event) : Prop :=
  match e with
  | EvStdout _ | EvStderr _ | EvVaultAuth _ _ _ | EvVaultConfigure _ _ => True
  | EvCreateOrReKeyHostToken _ h _ => h = host
  | EvOpenFile name _ | EvWrite name _ => name = tempFile cfg
  | EvRemove _ _ => True
  | EvUploadSecret h _ _ dir _ => h = host /\ dir = "./"
  | _ => False
  end.

Definition deployHost_event (cfg : Config) (host : Host) (e : Event) : Prop :=
  pushPaths_event [host] e \/ vaultStep_event cfg host e \/
  uploadSecrets_event [host] e \/ activateConfiguration_event [host] e \/
  healthGate_event host e.

Definition deployHosts_event (cfg : Config) (hosts : list Host) (e : Event) : Prop :=
  exists host, host ∈ hosts /\ deployHost_event cfg host e.

Definition doDeploy_event (cfg : Config) (e : Event) : Prop :=
  build_event e \/ askForSudoPassword_event e \/
  exists host, deployHost_event cfg host e.

Definition doHealthCheck_event (e : Event) : Prop :=
  match e with
  | EvStdout _ | EvGetMachines _ _ _ | EvHealthChecksPerform _ _ _ => True
  | _ => False
  end.

(** *** Classes of events the properties speak about *)

(** A push, a secret upload or an activation: the calls that change a host. *)
Definition remote_call (e : Event) : option Host :=
  match e with
  | EvPush h _ _ | EvUploadSecret h _ _ _ _ | EvActivateConfiguration h _ _ _ _ => Some h
  | _ => None
  end.

(** The authenticate/configure pair of the Vault session. *)
Definition session_setup (e : Event) : bool :=
  match e with
  | EvVaultAuth _ _ _ | EvVaultConfigure _ _ => true
  | _ => false
  end.

Definition is_teardown (e : Event) : bool :=
  match e with
  | EvTeardown _ => true
  | _ => false
  end.

Definition health_check (e : Event) : bool :=
  match e with
  | EvHealthChecksPerform _ _ _ => true
  | _ => false
  end.

Definition failed_health_check (e : Event) : bool :=
  match e with
  | EvHealthChecksPerform _ _ (Some _) => true
  | _ => false
  end.

Definition written_to_stderr (e : Event) : bool :=
  match e with
  | EvStderr _ => true
  | _ => false
  end.

(** The state after the events [d] have been added to the history. *)
Definition log_all (d : History) (s : State) : State :=
  {| doPush := doPush s; doAskPass := doAskPass s;
     doUploadSecrets := doUploadSecrets s; doActivate := doActivate s;
     files := files s; trace := trace s ++ d |}.

(** What [healthchecks.Perform] answers when it is called for the hosts of
    the list one after the other, the history being [t] before the first
    call: each call is asked of the world with the history that the calls
    before it have left. *)
Fixpoint health_answers (W : World) (timeout : Z) (hosts : list Host) (t : History)
    : list (option error) :=
  match hosts with
  | [] => []
  | host :: hosts' =>
      let r := ask_healthchecks_Perform W t host timeout in
      r :: health_answers W timeout hosts' (t ++ [EvHealthChecksPerform host timeout r])
  end.

(** ** The activation plan, as the table of the design states it

    Columns: push, ask for the sudo password, upload secrets, activate.  The
    table has a row for each of the six modes the command line accepts. *)
Definition modes : list string :=
  ["build"; "push"; "dry-activate"; "test"; "switch"; "boot"].

Definition planTable (dry : bool) (mode : string) (sudo : bool)
    : bool * bool * bool * bool :=
  if dry then (false, false, false, false)
  else if String.eqb mode "build" then (false, false, false, false)
  else if String.eqb mode "push" then (true, false, false, false)
  else if String.eqb mode "dry-activate" then (true, sudo, false, true)
  else (true, sudo, true, true).

(** *** The dynamic credential of a host *)

(** The secret that [vaultReKey] returns for [host]. *)
Definition credentialSecret (cfg : Config) (host : Host) : Secret :=
  {| Source := tempFile cfg;
     Destination := Path (DestinationFile (Vault host));
     Owner := DestinationOwner (DestinationFile (Vault host));
     Permissions := DestinationPermissions (DestinationFile (Vault host)) |}.

(** Events of a Vault step that come before the upload of the credential:
    nothing on standard error, no upload, no removal. *)
Definition before_upload (e : Event) : Prop :=
  match e with
  | EvStderr _ | EvUploadSecret _ _ _ _ _ | EvRemove _ _ => False
  | _ => True
  end.

(** Events of a Vault step in which no credential file is made. *)
Definition without_credential (e : Event) : Prop :=
  match e with
  | EvUploadSecret _ _ _ _ _ | EvRemove _ _ | EvWrite _ _ | EvOpenFile _ None => False
  | _ => True
  end.

(** *** The health gate *)

(** What [doDeploy] prints before it exits on a failed health check. *)
Definition halt_notice : History :=
  [EvStdout ("" +:+ nl);
   EvStdout ("Not deploying to additional hosts, since a host health check failed." +:+ nl)].

(** Since the history was [t0], no event that [f] marks has happened. *)
Definition unmarked_since (f : Event -> bool) (t0 t : History) : Prop :=
  exists d, t = t0 ++ d /\ Forall (fun e => f e = false) d.

(** Since the history was [t0], the first event that [f] marks was [e], and
    only [tail] followed. *)
Definition stopped_since (f : Event -> bool) (t0 : History) (e : Event)
    (tail t : History) : Prop :=
  exists d, t = t0 ++ d ++ e :: tail /\ Forall (fun e => f e = false) d.

(** Since the history was [t0], no health check has failed. *)
Definition calm_since (t0 t : History) : Prop :=
  unmarked_since failed_health_check t0 t.

(** Since the history was [t0], the first health check to fail was that of
    [host], and only the notice followed. *)
Definition halted_since (cfg : Config) (t0 : History) (host : Host) (t : History) : Prop :=
  exists err,
    stopped_since failed_health_check t0
      (EvHealthChecksPerform host (deployHealthCheckTimeout cfg) (Some err)) halt_notice t.

(** How one iteration of the loop of [doDeploy] can end. *)
Definition gate_post (cfg : Config) (t0 : History) (host : Host) {A}
    (r : Ctl A) (s : State) : Prop :=
  match r with
  | Exit code => code = 1 /\ halted_since cfg t0 host (trace s)
  | _ => calm_since t0 (trace s)
  end.

(** *** The Vault session *)

Definition is_auth (e : Event) : bool :=
  match e with
  | EvVaultAuth _ _ _ => true
  | _ => false
  end.

(** How often [vault.Auth] was called. *)
Definition authentications (d : History) : nat := length (List.filter is_auth d).

(** An event of a run that holds the session [c]: no authentication, no
    configuration, and a rekey only through [c]. *)
Definition uses_client (c : Client) (e : Event) : Prop :=
  session_setup e = false /\
  match e with
  | EvCreateOrReKeyHostToken c' _ _ => c' = c
  | _ => True
  end.

(** An event of a run that holds no session: no rekey, and no configuration
    that succeeds. *)
Definition without_session (e : Event) : Prop :=
  match e with
  | EvCreateOrReKeyHostToken _ _ _ | EvVaultConfigure _ None => False
  | _ => True
  end.

(** An event that has nothing to do with Vault. *)
Definition no_vault (e : Event) : Prop :=
  match e with
  | EvVaultAuth _ _ _ | EvVaultConfigure _ _ | EvCreateOrReKeyHostToken _ _ _ => False
  | _ => True
  end.

(** The session after an event: a configuration that succeeds establishes it. *)
Definition session_after (st : option Client) (e : Event) : option Client :=
  match e with
  | EvVaultConfigure c None => Some c
  | _ => st
  end.

(** A history that keeps the discipline of the session, read from the state
    [st]: with a session every event uses it, without one no rekey happens. *)
Fixpoint disciplined (st : option Client) (d : History) : Prop :=
  match d with
  | [] => True
  | e :: d' =>
      match st with
      | Some c => uses_client c e
      | None => match e with
                | EvCreateOrReKeyHostToken _ _ _ => False
                | _ => True
                end
      end /\ disciplined (session_after st e) d'
  end.

(** Since the history was [t0] the discipline was kept, and the session is
    now [st]. *)
Definition session_since (t0 : History) (st : option Client) (t : History) : Prop :=
  exists d, t = t0 ++ d /\ disciplined None d /\ foldl session_after None d = st.

(** How a computation that returns the session may end. *)
Definition session_post (t0 : History) (r : Ctl (option Client)) (s : State) : Prop :=
  match r with
  | Normal vc => session_since t0 vc (trace s)
  | _ => exists st, session_since t0 st (trace s)
  end.

(** A call of [os.Remove] that failed. *)
Definition failed_removal (e : Event) : bool :=
  match e with
  | EvRemove _ (Some _) => true
  | _ => false
  end.

(** Since the history was [t0], the temporary credential file does not exist
    unless a call of [os.Remove] has failed. *)
Definition credential_file_absent (cfg : Config) (t0 : History) (s : State) : Prop :=
  exists d, trace s = t0 ++ d /\
            (Forall (fun e => failed_removal e = false) d -> files s !! tempFile cfg = None).

(** If a rekey succeeded among [d], the credential file could not be opened. *)
Definition rekeyed_but_not_opened (cfg : Config) (d : History) : Prop :=
  forall c host creds,
    EvCreateOrReKeyHostToken c host (Ok creds) ∈ d ->
    exists err, EvOpenFile (tempFile cfg) (Some err) ∈ d.

(** What [vaultReKey] writes to the credential file. *)
Definition credentialText (creds : Credentials) : string :=
  "VAULT_ACCESSOR=" +:+ Accessor creds +:+ nl +:+
  "VAULT_TOKEN=" +:+ Token creds +:+ nl.

(** What [vaultReKey] adds to the history when it returns a secret. *)
Definition rekeyed_events (cfg : Config) (c : Client) (host : Host)
    (creds : Credentials) : History :=
  [EvCreateOrReKeyHostToken c host (Ok creds);
   EvOpenFile (tempFile cfg) None;
   EvWrite (tempFile cfg) (credentialText creds);
   EvStdout ("Vault: Secret token for host " +:+ dquote +:+ TargetHost host
             +:+ dquote +:+ " got rekeyed");
   EvStdout ("" +:+ nl)].

(** The world [W] with another [secrets.UploadSecret]. *)
Definition with_UploadSecret (W : World)
    (upload : History -> Host -> string -> Secret -> string -> option error) : World :=
  {| os_Getenv := os_Getenv W;
     filepath_Join := filepath_Join W;
     filepath_Abs := filepath_Abs W;
     filepath_Dir := filepath_Dir W;
     nix_GetHostname := nix_GetHostname W;
     filter_MatchHosts := filter_MatchHosts W;
     filter_FilterHosts := filter_FilterHosts W;
     ask_nix_GetMachines := ask_nix_GetMachines W;
     ask_nix_BuildMachines := ask_nix_BuildMachines W;
     ask_terminal_ReadPassword := ask_terminal_ReadPassword W;
     ask_nix_GetPathsToPush := ask_nix_GetPathsToPush W;
     ask_nix_Push := ask_nix_Push W;
     ask_vault_Auth := ask_vault_Auth W;
     ask_vault_Configure := ask_vault_Configure W;
     ask_vault_CreateOrReKeyHostToken := ask_vault_CreateOrReKeyHostToken W;
     ask_os_OpenFile := ask_os_OpenFile W;
     ask_os_Remove := ask_os_Remove W;
     ask_secrets_GetSecretSize := ask_secrets_GetSecretSize W;
     ask_secrets_UploadSecret := upload;
     ask_nix_GetNixSystemPath := ask_nix_GetNixSystemPath W;
     ask_ssh_ActivateConfiguration := ask_ssh_ActivateConfiguration W;
     ask_healthchecks_Perform := ask_healthchecks_Perform W;
     ask_range_Secrets := ask_range_Secrets W;
     range_Secrets_perm := range_Secrets_perm W |}.

(** The files after [os.Remove] of the credential file answered [removed]:
    without the file when it succeeded, with the credential in it when it
    failed. *)
Definition files_after_removal (cfg : Config) (creds : Credentials)
    (removed : option error) (before : gmap string string) : gmap string string :=
  match removed with
  | None => delete (tempFile cfg) before
  | Some _ => <[tempFile cfg := credentialText creds]> before
  end.

(** The world [W] with another [os.Remove]. *)
Definition with_Remove (W : World) (remove : History -> string -> option error) : World :=
  {| os_Getenv := os_Getenv W;
     filepath_Join := filepath_Join W;
     filepath_Abs := filepath_Abs W;
     filepath_Dir := filepath_Dir W;
     nix_GetHostname := nix_GetHostname W;
     filter_MatchHosts := filter_MatchHosts W;
     filter_FilterHosts := filter_FilterHosts W;
     ask_nix_GetMachines := ask_nix_GetMachines W;
     ask_nix_BuildMachines := ask_nix_BuildMachines W;
     ask_terminal_ReadPassword := ask_terminal_ReadPassword W;
     ask_nix_GetPathsToPush := ask_nix_GetPathsToPush W;
     ask_nix_Push := ask_nix_Push W;
     ask_vault_Auth := ask_vault_Auth W;
     ask_vault_Configure := ask_vault_Configure W;
     ask_vault_CreateOrReKeyHostToken := ask_vault_CreateOrReKeyHostToken W;
     ask_os_OpenFile := ask_os_OpenFile W;
     ask_os_Remove := remove;
     ask_secrets_GetSecretSize := ask_secrets_GetSecretSize W;
     ask_secrets_UploadSecret := ask_secrets_UploadSecret W;
     ask_nix_GetNixSystemPath := ask_nix_GetNixSystemPath W;
     ask_ssh_ActivateConfiguration := ask_ssh_ActivateConfiguration W;
     ask_healthchecks_Perform := ask_healthchecks_Perform W;
     ask_range_Secrets := ask_range_Secrets W;
     range_Secrets_perm := range_Secrets_perm W |}.

(** *** The upload of the credential, set apart from the other uploads

    The driver calls [secrets.UploadSecret] in two places: for the credential
    of a host, with the directory "./", and for the declared secrets, with
    [filepath.Dir] of the deployment. *)

(** The event [e], with the answer of success when it is an upload of a
    credential. *)
Definition credential_upload_succeeds (e : Event) : Event :=
  match e with
  | EvUploadSecret host sudoPasswd secret dir r =>
      if String.eqb dir "./" then EvUploadSecret host sudoPasswd secret dir None else e
  | _ => e
  end.

(** The world [W] in which every upload of a credential succeeds, and every
    other call answers as in [W]. *)
Definition credential_uploads_succeed (W : World) : World :=
  with_UploadSecret W
    (fun t host sudoPasswd secret dir =>
       if String.eqb dir "./" then None
       else ask_secrets_UploadSecret W t host sudoPasswd secret dir).

(** An upload of a credential that failed. *)
Definition failed_credential_upload (e : Event) : bool :=
  match e with
  | EvUploadSecret _ _ _ dir (Some _) => String.eqb dir "./"
  | _ => false
  end.

(** In [d], every upload of a credential that failed is followed at once by
    the call of [os.Remove] on the credential file. *)
Definition removal_follows (cfg : Config) (d : History) : Prop :=
  forall d1 e d2,
    d = d1 ++ e :: d2 -> failed_credential_upload e = true ->
    exists removed rest, d2 = EvRemove (tempFile cfg) removed :: rest.

Definition removal_follows_since (cfg : Config) (t0 t : History) : Prop :=
  exists d, t = t0 ++ d /\ removal_follows cfg d.

(** In a steady world no answer depends on what the uploads of credentials
    have answered before: each collaborator answers the same after a history
    and after that history with those uploads succeeding.  Nothing is asked
    of the answers to the uploads of credentials themselves. *)
Record steady (W : World) : Prop := mkSteady {
  steady_GetMachines : forall t evalMachinesPath deploymentPath,
    ask_nix_GetMachines W (credential_upload_succeeds <$> t) evalMachinesPath deploymentPath =
    ask_nix_GetMachines W t evalMachinesPath deploymentPath;
  steady_BuildMachines : forall t evalMachinesPath deploymentPath hosts,
    ask_nix_BuildMachines W (credential_upload_succeeds <$> t) evalMachinesPath
      deploymentPath hosts =
    ask_nix_BuildMachines W t evalMachinesPath deploymentPath hosts;
  steady_ReadPassword : forall t,
    ask_terminal_ReadPassword W (credential_upload_succeeds <$> t) =
    ask_terminal_ReadPassword W t;
  steady_GetPathsToPush : forall t host resultPath,
    ask_nix_GetPathsToPush W (credential_upload_succeeds <$> t) host resultPath =
    ask_nix_GetPathsToPush W t host resultPath;
  steady_Push : forall t host paths,
    ask_nix_Push W (credential_upload_succeeds <$> t) host paths =
    ask_nix_Push W t host paths;
  steady_Auth : forall t addr rootToken,
    ask_vault_Auth W (credential_upload_succeeds <$> t) addr rootToken =
    ask_vault_Auth W t addr rootToken;
  steady_Configure : forall t vc,
    ask_vault_Configure W (credential_upload_succeeds <$> t) vc =
    ask_vault_Configure W t vc;
  steady_CreateOrReKeyHostToken : forall t vc host,
    ask_vault_CreateOrReKeyHostToken W (credential_upload_succeeds <$> t) vc host =
    ask_vault_CreateOrReKeyHostToken W t vc host;
  steady_OpenFile : forall t name,
    ask_os_OpenFile W (credential_upload_succeeds <$> t) name = ask_os_OpenFile W t name;
  steady_Remove : forall t name,
    ask_os_Remove W (credential_upload_succeeds <$> t) name = ask_os_Remove W t name;
  steady_GetSecretSize : forall t secret dir,
    ask_secrets_GetSecretSize W (credential_upload_succeeds <$> t) secret dir =
    ask_secrets_GetSecretSize W t secret dir;
  steady_UploadSecret : forall t host sudoPasswd secret dir,
    String.eqb dir "./" = false ->
    ask_secrets_UploadSecret W (credential_upload_succeeds <$> t) host sudoPasswd secret dir =
    ask_secrets_UploadSecret W t host sudoPasswd secret dir;
  steady_GetNixSystemPath : forall t host resultPath,
    ask_nix_GetNixSystemPath W (credential_upload_succeeds <$> t) host resultPath =
    ask_nix_GetNixSystemPath W t host resultPath;
  steady_ActivateConfiguration : forall t host configuration action sudoPasswd,
    ask_ssh_ActivateConfiguration W (credential_upload_succeeds <$> t) host configuration
      action sudoPasswd =
    ask_ssh_ActivateConfiguration W t host configuration action sudoPasswd;
  steady_Perform : forall t host timeout,
    ask_healthchecks_Perform W (credential_upload_succeeds <$> t) host timeout =
    ask_healthchecks_Perform W t host timeout;
  steady_range_Secrets : forall t entries,
    ask_range_Secrets W (credential_upload_succeeds <$> t) entries =
    ask_range_Secrets W t entries }.

(** Two states of two runs that started with the history [t0]: the same
    plan, the same files, and the same events since, but that in the second
    every upload of a credential has succeeded. *)
Definition twin (t0 : History) (s s' : State) : Prop :=
  plan s' = plan s /\ files s' = files s /\
  exists d, trace s = t0 ++ d /\ trace s' = t0 ++ (credential_upload_succeeds <$> d).

(** From twin states, [m] and [m'] end in the same way, in twin states. *)
Definition twins (t0 : History) {A} (m m' : M A) : Prop :=
  forall s s', twin t0 s s' ->
    fst (m' s') = fst (m s) /\ twin t0 (snd (m s)) (snd (m' s')).

(** How the loop of [doDeploy], [doDeploy] and [main] can end: an exit has
    status 1 and follows the failed health check of some host. *)
Definition halt_post (cfg : Config) (t0 : History) {A} (r : Ctl A) (s : State) : Prop :=
  match r with
  | Exit code => code = 1 /\ exists host, halted_since cfg t0 host (trace s)
  | _ => calm_since t0 (trace s)
  end.

(** *** Runs without a plan *)

(** Events of a run in which no flag of the plan is set: nothing is pushed,
    no static secret is sized or uploaded, nothing is activated, no password
    is asked for; an upload is that of a dynamic credential. *)
Definition planless (e : Event) : Prop :=
  match e with
  | EvGetPathsToPush _ _ _ | EvPush _ _ _ | EvGetSecretSize _ _ _
  | EvGetNixSystemPath _ _ _ | EvActivateConfiguration _ _ _ _ _
  | EvReadPassword _ => False
  | EvUploadSecret _ _ _ dir _ => dir = "./"
  | _ => True
  end.

(** No flag is set, and since the history was [t0] every event is [planless]. *)
Definition planless_since (t0 : History) (s : State) : Prop :=
  plan s = (false, false, false, false) /\
  exists d, trace s = t0 ++ d /\ Forall planless d.

(** *** Failures that stop the run *)

Definition failed_upload (e : Event) : bool :=
  match e with
  | EvUploadSecret _ _ _ _ (Some _) => true
  | _ => false
  end.

Definition failed_activation (e : Event) : bool :=
  match e with
  | EvActivateConfiguration _ _ _ _ (Some _) => true
  | _ => false
  end.

(** [e] is an upload that failed with [err]. *)
Definition upload_failed_with (err : error) (e : Event) : Prop :=
  exists host sudoPasswd secret dir, e = EvUploadSecret host sudoPasswd secret dir (Some err).

(** [e] is an activation that failed with [err]. *)
Definition activation_failed_with (err : error) (e : Event) : Prop :=
  exists host configuration action sudoPasswd,
    e = EvActivateConfiguration host configuration action sudoPasswd (Some err).

(** How a computation ends in which a marked event is fatal: it does not
    exit; when it returns no marked event has happened; when it panics, either
    none has happened, or the first one, [e], failed with the value of the
    panic and only [tail] followed. *)
Definition fatal_post (f : Event -> bool) (failed_with : error -> Event -> Prop)
    (tail t0 : History) {A} (r : Ctl A) (s : State) : Prop :=
  match r with
  | Normal _ => unmarked_since f t0 (trace s)
  | Panic err =>
      unmarked_since f t0 (trace s) \/
      exists e, failed_with err e /\ stopped_since f t0 e tail (trace s)
  | Exit _ => False
  end.

(** ** Start-up: the package-level initialisers, [init] and [validateEnvironment]

    Go initialises the package-level variables in the order of their
    declaration, then runs [init], then [main].  Two of the variables are
    initialised by a call: [tempDir, tempDirErr = ioutil.TempDir("", "morph-")]
    and, after it, [assetRoot, assetsErr = assets.Setup()].  Both return a
    string and an error.  [exec.LookPath] only reads the search path. *)
Record Startup : Type := mkStartup {
  exec_LookPath : string -> result string;
  ioutil_TempDir : string -> string -> string * option error;
  assets_Setup : string * option error }.

(** The calls made before [init], with what they returned. *)
Inductive StartupEvent : Type :=
| EvTempDir (dir pattern : string) (r : string * option error)
| EvSetup (r : string * option error).

(** The command line of [cfg] with the package-level values [tempDir] and
    [assetRoot]. *)
Definition with_package (cfg : Config) (tempDir assetRoot : string) : Config :=
  {| dryRun := dryRun cfg;
     selectGlob := selectGlob cfg;
     selectEvery := selectEvery cfg;
     selectSkip := selectSkip cfg;
     selectLimit := selectLimit cfg;
     deployDeployment := deployDeployment cfg;
     switchAction := switchAction cfg;
     deployAskForSudoPasswd := deployAskForSudoPasswd cfg;
     deploySkipHealthChecks := deploySkipHealthChecks cfg;
     deployHealthCheckTimeout := deployHealthCheckTimeout cfg;
     healthCheckDeployment := healthCheckDeployment cfg;
     healthCheckTimeout := healthCheckTimeout cfg;
     tempDir := tempDir;
     assetRoot := assetRoot |}.

Section Start.

Variable env : Startup.

Definition dependencies : list string := ["nix"; "scp"; "ssh"].

(** The loop of [validateEnvironment], which appends what it does not find. *)
Definition missingDepencies : list string :=
  foldl (fun missing dependency =>
           match exec_LookPath env dependency with
           | Err _ => missing ++ [dependency]
           | Ok _ => missing
           end) [] dependencies.

Definition validateEnvironment : option error :=
  if (0 <? len missingDepencies)%Z then
    Some ("Missing dependencies: " +:+ String.concat ", " missingDepencies)
  else None.

(** [init]; [assetsErr] and [tempDirErr] are the package-level variables. *)
Definition init (assetsErr tempDirErr : option error) : M unit :=
  match validateEnvironment with
  | Some err => panic err
  | None =>
      match assetsErr with
      | Some err => Println "Error unpacking assets:" ;; panic err
      | None =>
          match tempDirErr with
          | Some err => panic err
          | None => ret tt
          end
      end
  end.

(** The process: the two initialisers, then [init], then [main] with the
    values of the initialisers.  The calls of the initialisers come first in
    the result; [cfg] gives the command line. *)
Definition program (W : World) (cfg : Config) (command : string) (s : State)
    : list StartupEvent * (Ctl unit * State) :=
  let '(tempDir, tempDirErr) := ioutil_TempDir env "" "morph-" in
  let '(assetRoot, assetsErr) := assets_Setup env in
  ([EvTempDir "" "morph-" (tempDir, tempDirErr); EvSetup (assetRoot, assetsErr)],
   (init assetsErr tempDirErr ;; main W (with_package cfg tempDir assetRoot) command) s).

End Start.

(** [dependency] is on the search path. *)
Definition found (env : Startup) (dependency : string) : Prop :=
  exists path, exec_LookPath env dependency = Ok path.

Definition foundb (env : Startup) (dependency : string) : bool :=
  match exec_LookPath env dependency with
  | Ok _ => true
  | Err _ => false
  end.

(** A start-up environment in which the programs of [installed] are found. *)
Definition startup (installed : list string) (tempDirErr assetsErr : option error) : Startup :=
  {| exec_LookPath := fun name =>
       if bool_decide (name ∈ installed) then Ok ("/usr/bin/" +:+ name)
       else Err "executable file not found in $PATH";
     ioutil_TempDir := fun dir pattern =>
       match tempDirErr with
       | None => ("/tmp/" +:+ pattern +:+ "1", None)
       | Some err => ("", Some err)
       end;
     assets_Setup :=
       match assetsErr with
       | None => ("/tmp/assets", None)
       | Some err => ("", Some err)
       end |}.

(** ** Vocabulary of the statements on host selection *)

(** The lines that [getHosts] prints for the selected hosts, numbered from 0. *)
Definition listing (W : World) (hosts : list Host) : History :=
  imap (fun index host =>
          EvStdout (tab +:+ fmt_3d (Z.of_nat index) +:+ ": " +:+ nix_GetHostname W host +:+
                    " (secrets: " +:+ fmt_d (len (Secrets host)) +:+
                    ", health checks: " +:+
                    fmt_d (len (Cmd (HealthChecks host)) + len (Http (HealthChecks host)))
                    +:+ ")" +:+ nl)) hosts.

Definition is_stdout (e : Event) : bool :=
  match e with EvStdout _ => true | _ => false end.

(** ** Vocabulary of the statements on the deployment as a whole *)

(** An event of a deployment to [hosts] of the build result [resultPath] with
    the password [sudoPasswd]: every call is about one of the hosts; the paths
    to push and the system path are asked for [resultPath]; static secrets
    are read from the directory of the deployment file, the one other upload
    is from the working directory; uploads and activations carry
    [sudoPasswd]; the activation is the requested action; the health check
    has the timeout of [deploy]; Vault is addressed as the environment says;
    the one file opened or written is the temporary credential file. *)
Definition deploys (W : World) (cfg : Config) (hosts : list Host)
    (resultPath sudoPasswd : string) (e : Event) : Prop :=
  match e with
  | EvStdout _ | EvStderr _ => True
  | EvGetPathsToPush h rp _ => h ∈ hosts /\ rp = resultPath
  | EvPush h _ _ => h ∈ hosts
  | EvVaultAuth addr rootToken _ =>
      addr = os_Getenv W "VAULT_ADDR" /\ rootToken = os_Getenv W "VAULT_TOKEN"
  | EvVaultConfigure _ _ => True
  | EvCreateOrReKeyHostToken _ h _ => h ∈ hosts /\ Enable (Vault h) = true
  | EvOpenFile name _ | EvWrite name _ => name = tempFile cfg
  | EvRemove _ _ => True
  | EvGetSecretSize _ dir _ => dir = filepath_Dir W (deployDeployment cfg)
  | EvUploadSecret h pw secret dir _ =>
      h ∈ hosts /\ pw = sudoPasswd /\
      ((Enable (Vault h) = true /\ dir = "./") \/
       (secret ∈ (Secrets h).*2 /\ dir = filepath_Dir W (deployDeployment cfg)))
  | EvGetNixSystemPath h rp _ => h ∈ hosts /\ rp = resultPath
  | EvActivateConfiguration h _ action pw _ =>
      h ∈ hosts /\ action = switchAction cfg /\ pw = sudoPasswd
  | EvHealthChecksPerform h timeout _ =>
      h ∈ hosts /\ timeout = deployHealthCheckTimeout cfg
  | _ => False
  end.

(** A call of [nix.BuildMachines] that succeeded. *)
Definition build_succeeded (e : Event) : bool :=
  match e with
  | EvBuildMachines _ _ _ (Ok _) => true
  | _ => false
  end.

Definition reads_password (e : Event) : bool :=
  match e with
  | EvReadPassword _ => true
  | _ => false
  end.

(** What the plan [(push, ask, upload, activate)] allows: a call of a phase
    needs the flag of the phase; the one upload that needs none is that of a
    dynamic credential, from the working directory. *)
Definition allowed_by (p : bool * bool * bool * bool) (e : Event) : Prop :=
  let '(push, ask, upload, activate) := p in
  match e with
  | EvGetPathsToPush _ _ _ | EvPush _ _ _ => push = true
  | EvReadPassword _ => ask = true
  | EvGetSecretSize _ _ _ => upload = true
  | EvUploadSecret _ _ _ dir _ => upload = true \/ dir = "./"
  | EvGetNixSystemPath _ _ _ | EvActivateConfiguration _ _ _ _ _ => activate = true
  | _ => True
  end.

(** No flag changed, and since the history was [t0] every event is allowed by
    the plan [p]. *)
Definition allowed_since (p : bool * bool * bool * bool) (t0 : History) (s : State) : Prop :=
  plan s = p /\ exists d, trace s = t0 ++ d /\ Forall (allowed_by p) d.

(** ** Histories that go through phases *)

(** [d] is a sequence of segments, one for each of [Ps] in order, the events of
    a segment being in its [P]; a segment may be empty. *)
Fixpoint phased (Ps : list (Event -> Prop)) (d : History) : Prop :=
  match Ps with
  | [] => d = []
  | P :: Ps' => exists d1 d2, d = d1 ++ d2 /\ Forall P d1 /\ phased Ps' d2
  end.

(** What happened since the history was [t0] went through the phases [Ps]. *)
Definition phased_since (Ps : list (Event -> Prop)) (t0 : History) (s : State) : Prop :=
  exists d, trace s = t0 ++ d /\ phased Ps d.

(** The phases of one host, in the order of the loop of [doDeploy]. *)
Definition hostPhases (cfg : Config) (host : Host) : list (Event -> Prop) :=
  [pushPaths_event [host]; vaultStep_event cfg host; uploadSecrets_event [host];
   activateConfiguration_event [host]; healthGate_event host].

(** ** Runs that do without Vault *)

(** An event of a run that does without Vault: no call of Vault, no file
    opened, written or removed, and an upload is that of a static secret of
    its host, read from the directory of the deployment file. *)
Definition vaultless (W : World) (cfg : Config) (e : Event) : Prop :=
  match e with
  | EvVaultAuth _ _ _ | EvVaultConfigure _ _ | EvCreateOrReKeyHostToken _ _ _
  | EvOpenFile _ _ | EvWrite _ _ | EvRemove _ _ => False
  | EvUploadSecret h _ secret dir _ =>
      secret ∈ (Secrets h).*2 /\ dir = filepath_Dir W (deployDeployment cfg)
  | _ => True
  end.

(** Since the history was [t0] every event is [vaultless]. *)
Definition vaultless_since (W : World) (cfg : Config) (t0 : History) (s : State) : Prop :=
  exists d, trace s = t0 ++ d /\ Forall (vaultless W cfg) d.

(** Both credentials of Vault are set: each is longer than one character. *)
Definition vault_credentials_set (W : World) : bool :=
  (1 <? slen (os_Getenv W "VAULT_ADDR"))%Z && (1 <? slen (os_Getenv W "VAULT_TOKEN"))%Z.

(** ** Errors that no function of the driver survives *)

(** The error of a call that failed and whose failure the driver answers with
    a panic.  For an upload this depends on what is uploaded: the upload of a
    dynamic credential, which is the one from the working directory, may
    fail; that of a static secret may not. *)
Definition fatal_error (e : Event) : option error :=
  match e with
  | EvGetMachines _ _ (Err err) | EvBuildMachines _ _ _ (Err err)
  | EvReadPassword (Err err) | EvGetPathsToPush _ _ (Err err)
  | EvGetSecretSize _ _ (Err err) | EvGetNixSystemPath _ _ (Err err)
  | EvActivateConfiguration _ _ _ _ (Some err) => Some err
  | EvUploadSecret _ _ _ dir (Some err) => if String.eqb dir "./" then None else Some err
  | _ => None
  end.

Definition fatal (e : Event) : bool :=
  match fatal_error e with
  | Some _ => true
  | None => false
  end.

(** What is still printed after such a failure. *)
Definition last_words (e : Event) : History :=
  match e with
  | EvUploadSecret _ _ _ _ _ => [EvStdout ("Failed" +:+ nl)]
  | _ => []
  end.

(** How a computation ends in which such a failure is fatal: unless it
    panics no call has failed; when it panics, either none has, or the first
    one that did failed with the value of the panic, and nothing but its last
    words followed. *)
Definition failfast_post (t0 : History) {A} (r : Ctl A) (s : State) : Prop :=
  match r with
  | Panic err =>
      unmarked_since fatal t0 (trace s) \/
      exists e, fatal_error e = Some err /\ stopped_since fatal t0 e (last_words e) (trace s)
  | _ => unmarked_since fatal t0 (trace s)
  end.

(** The same for a function that returns its error instead. *)
Definition returned_post (t0 : History) {A} (r : Ctl (result A)) (s : State) : Prop :=
  match r with
  | Normal (Err err) =>
      unmarked_since fatal t0 (trace s) \/
      exists e, fatal_error e = Some err /\ stopped_since fatal t0 e (last_words e) (trace s)
  | _ => unmarked_since fatal t0 (trace s)
  end.

(** ** What a phase has done when it returns *)

(** An upload that succeeded: the host and the secret. *)
Definition uploaded (e : Event) : option (Host * Secret) :=
  match e with
  | EvUploadSecret host _ secret _ None => Some (host, secret)
  | _ => None
  end.

(** A system path that was found, and an activation that succeeded: the host
    and the configuration. *)
Definition system_path_found (e : Event) : option (Host * string) :=
  match e with
  | EvGetNixSystemPath host _ (Ok configuration) => Some (host, configuration)
  | _ => None
  end.

Definition activated (e : Event) : option (Host * string) :=
  match e with
  | EvActivateConfiguration host configuration _ _ None => Some (host, configuration)
  | _ => None
  end.

(** The paths that were found for a host, and the paths that were pushed to
    it, whatever the push answered. *)
Definition paths_found (e : Event) : option (Host * list string) :=
  match e with
  | EvGetPathsToPush host _ (Ok paths) => Some (host, paths)
  | _ => None
  end.

Definition pushed (e : Event) : option (Host * list string) :=
  match e with
  | EvPush host paths _ => Some (host, paths)
  | _ => None
  end.

(** ** Failures of Vault *)

(** The error of a call of Vault, or of the opening of the credential file,
    that failed. *)
Definition vault_failure (e : Event) : option error :=
  match e with
  | EvVaultAuth _ _ (Err err) | EvCreateOrReKeyHostToken _ _ (Err err)
  | EvVaultConfigure _ (Some err) | EvOpenFile _ (Some err) => Some err
  | _ => None
  end.

Definition vault_failed (e : Event) : bool :=
  match vault_failure e with
  | Some _ => true
  | None => false
  end.

(** What [printVaultWarning] writes for [err]. *)
Definition vaultWarning (err : error) : History :=
  [EvStderr ("! ! ! ! ! ! ! ! ! ! ! !" +:+ nl);
   EvStderr ("Interaction with Vault failed, this means that we won't be able to rekey host tokens" +:+ nl);
   EvStderr tab;
   EvStderr (err +:+ nl);
   EvStderr ("" +:+ nl);
   EvStderr ("! ! ! ! ! ! ! ! ! ! ! !" +:+ nl);
   EvStderr ("" +:+ nl)].

(** How a part of the Vault step ends: it returns, and either nothing of
    Vault has failed, or the first failure was reported and nothing else
    followed. *)
Definition reported_post (t0 : History) {A} (r : Ctl A) (s : State) : Prop :=
  match r with
  | Normal _ =>
      unmarked_since vault_failed t0 (trace s) \/
      exists e err, vault_failure e = Some err /\
                    stopped_since vault_failed t0 e (vaultWarning err) (trace s)
  | _ => False
  end.

(** ** How often the session is attempted *)

(** A configuration of the session that succeeded: the session is
    established. *)
Definition established (e : Event) : bool :=
  match e with
  | EvVaultConfigure _ None => true
  | _ => false
  end.

(** The hosts of the list that take a dynamic credential. *)
Definition vault_hosts (hosts : list Host) : list Host :=
  List.filter (fun host => Enable (Vault host)) hosts.

(** How often [vault.Auth] is called in the Vault step of [host] when there
    is no session: once when the host takes a dynamic credential and the
    credentials of Vault are set, else not at all. *)
Definition attempts_of (W : World) (host : Host) : nat :=
  if Enable (Vault host) && vault_credentials_set W then 1%nat else 0%nat.

(** Since the history was [t0] nothing of Vault has been called. *)
Definition no_vault_since (t0 t : History) : Prop :=
  exists d, t = t0 ++ d /\ Forall no_vault d.

(** Since the history was [t0], the Vault step of [host] was entered with the
    session [vc] and left with the session [vc1]: a session in hand is kept
    and nothing is attempted; without one, [vault.Auth] is called as often as
    [attempts_of] says, and a session comes out only of a configuration that
    succeeds. *)
Definition stepped_since (W : World) (host : Host) (vc vc1 : option Client)
    (t0 t : History) : Prop :=
  exists d, t = t0 ++ d /\
    match vc with
    | Some c => vc1 = Some c /\ authentications d = 0%nat
    | None =>
        authentications d = attempts_of W host /\
        match vc1 with
        | Some c' => EvVaultConfigure c' None ∈ d
        | None => True
        end
    end.

(** How one turn of the loop of [doDeploy], entered with the session [vc],
    can end. *)
Definition turn_post (W : World) (host : Host) (vc : option Client) (t0 : History)
    (r : Ctl (option Client)) (s : State) : Prop :=
  match r with
  | Normal vc1 => stepped_since W host vc vc1 t0 (trace s)
  | _ =>
      exists d, trace s = t0 ++ d /\
        (authentications d <= match vc with
                              | Some _ => 0
                              | None => attempts_of W host
                              end)%nat
  end.

(** The world [W] with another order of [range] over the secrets. *)
Definition with_range (W : World)
    (range : list (string * Secret) -> list (string * Secret))
    (range_perm : forall entries, range entries ≡ₚ entries) : World :=
  {| os_Getenv := os_Getenv W;
     filepath_Join := filepath_Join W;
     filepath_Abs := filepath_Abs W;
     filepath_Dir := filepath_Dir W;
     nix_GetHostname := nix_GetHostname W;
     filter_MatchHosts := filter_MatchHosts W;
     filter_FilterHosts := filter_FilterHosts W;
     ask_nix_GetMachines := ask_nix_GetMachines W;
     ask_nix_BuildMachines := ask_nix_BuildMachines W;
     ask_terminal_ReadPassword := ask_terminal_ReadPassword W;
     ask_nix_GetPathsToPush := ask_nix_GetPathsToPush W;
     ask_nix_Push := ask_nix_Push W;
     ask_vault_Auth := ask_vault_Auth W;
     ask_vault_Configure := ask_vault_Configure W;
     ask_vault_CreateOrReKeyHostToken := ask_vault_CreateOrReKeyHostToken W;
     ask_os_OpenFile := ask_os_OpenFile W;
     ask_os_Remove := ask_os_Remove W;
     ask_secrets_GetSecretSize := ask_secrets_GetSecretSize W;
     ask_secrets_UploadSecret := ask_secrets_UploadSecret W;
     ask_nix_GetNixSystemPath := ask_nix_GetNixSystemPath W;
     ask_ssh_ActivateConfiguration := ask_ssh_ActivateConfiguration W;
     ask_healthchecks_Perform := ask_healthchecks_Perform W;
     ask_range_Secrets := fun _ entries => range entries;
     range_Secrets_perm := fun _ entries => range_perm entries |}.

(** ** More sample configurations and worlds, for concrete runs *)

Module Scenario.

(** [Sample.config] with [--passwd] and [--skip-health-checks]. *)
Definition config (dry : bool) (action : string) (passwd skip : bool) : Config :=
  {| dryRun := dry;
     selectGlob := "*";
     selectEvery := 1;
     selectSkip := 0;
     selectLimit := 0;
     deployDeployment := "net.nix";
     switchAction := action;
     deployAskForSudoPasswd := passwd;
     deploySkipHealthChecks := skip;
     deployHealthCheckTimeout := 0;
     healthCheckDeployment := "net.nix";
     healthCheckTimeout := 0;
     tempDir := "/tmp/morph-1";
     assetRoot := "/tmp/assets" |}.

(** A world in which the build fails. *)
Definition brokenBuild (inventory : list Host) : World :=
  {| os_Getenv := Sample.noEnv;
     filepath_Join := fun dir name => dir +:+ "/" +:+ name;
     filepath_Abs := fun name => Ok ("/work/" +:+ name);
     filepath_Dir := fun _ => ".";
     nix_GetHostname := TargetHost;
     filter_MatchHosts := fun hosts _ => Ok hosts;
     filter_FilterHosts := fun hosts _ _ _ => hosts;
     ask_nix_GetMachines := fun _ _ _ => Ok inventory;
     ask_nix_BuildMachines := fun _ _ _ _ => Err "build failed";
     ask_terminal_ReadPassword := fun _ => Ok "hunter2";
     ask_nix_GetPathsToPush := fun _ host _ => Ok ["/nix/store/" +:+ TargetHost host];
     ask_nix_Push := fun _ _ _ => None;
     ask_vault_Auth := fun _ _ _ => Err "denied";
     ask_vault_Configure := fun _ _ => None;
     ask_vault_CreateOrReKeyHostToken := fun _ _ _ => Err "denied";
     ask_os_OpenFile := fun _ _ => None;
     ask_os_Remove := fun _ _ => None;
     ask_secrets_GetSecretSize := fun _ _ _ => Ok 32;
     ask_secrets_UploadSecret := fun _ _ _ _ _ => None;
     ask_nix_GetNixSystemPath := fun _ host _ => Ok ("/nix/store/system-" +:+ TargetHost host);
     ask_ssh_ActivateConfiguration := fun _ _ _ _ _ => None;
     ask_healthchecks_Perform := fun _ _ _ => None;
     ask_range_Secrets := fun _ entries => entries;
     range_Secrets_perm := fun _ entries => Permutation_refl entries |}.

(** A host with two declared secrets. *)
Definition twoSecrets (name : string) : Host :=
  {| TargetHost := name;
     Secrets := [("db", {| Source := "db.key"; Destination := "/run/db.key";
                           Owner := "root"; Permissions := "0400" |});
                 ("tls", {| Source := "tls.key"; Destination := "/run/tls.key";
                            Owner := "root"; Permissions := "0400" |})];
     HealthChecks := {| Cmd := []; Http := [] |};
     Vault := {| Enable := false;
                 DestinationFile :=
                   {| Path := ""; DestinationOwner := ""; DestinationPermissions := "" |} |} |}.

End Scenario.

(** ** Reasoning about runs *)

Lemma grows_refl P s o : grows P s o s.
Proof. exists []. by rewrite app_nil_r. Qed.

Lemma grows_trans P s1 s2 s3 o1 o2 o3 :
  grows P s1 o1 s2 -> grows P s2 o2 s3 -> grows P s1 o3 s3.
Proof.
  intros (d1 & Ht1 & Hd1) (d2 & Ht2 & Hd2).
  exists (d1 ++ d2). split.
  - by rewrite Ht2, Ht1, app_assoc.
  - by apply Forall_app.
Qed.

Lemma grows_weaken (P Q : Event -> Prop) s o s' :
  (forall e, P e -> Q e) -> grows P s o s' -> grows Q s o s'.
Proof.
  intros HPQ (d & Ht & Hd). exists d. split; [done|].
  eapply Forall_impl; eauto.
Qed.

#[export] Instance grows_sequential P : Sequential (grows P).
Proof.
  split.
  - intros s. apply grows_refl.
  - intros s e. apply grows_refl.
  - intros s1 s2 s3 o. apply grows_trans.
Qed.

#[export] Instance same_plan_sequential : Sequential same_plan.
Proof. unfold same_plan. split; [done | done | intros s1 s2 s3 _; congruence]. Qed.

#[export] Instance same_files_sequential : Sequential same_files.
Proof. unfold same_files. split; [done | done | intros s1 s2 s3 _; congruence]. Qed.

#[export] Instance no_exit_sequential : Sequential no_exit.
Proof. unfold no_exit. split; [done | done | by intros s1 s2 s3 o _ H]. Qed.

#[export] Instance grows_quietly_sequential P : Sequential (grows_quietly P).
Proof.
  split.
  - intros s. repeat split; [done | apply grows_refl].
  - intros s e. repeat split; [done | apply grows_refl].
  - intros s1 s2 s3 o (Hp1 & Hf1 & _ & H1) (Hp2 & Hf2 & He2 & H2).
    unfold same_plan, same_files in *.
    repeat split; [congruence | congruence | done | by eapply grows_trans].
Qed.

Lemma grows_log (P : Event -> Prop) e s o : P e -> grows P s o (log e s).
Proof. intros He. exists [e]. split; [done | by constructor]. Qed.

Lemma grows_quietly_log (P : Event -> Prop) e s :
  P e -> grows_quietly P s (Normal tt) (log e s).
Proof. intros He. repeat split; [done | by apply grows_log]. Qed.

(** The history after a run is the history before it, then what was emitted. *)
Lemma grows_emitted {A} P (m : M A) s :
  emits P m -> trace (snd (m s)) = trace s ++ emitted m s /\ Forall P (emitted m s).
Proof.
  intros H. destruct (H s) as (d & Ht & Hd).
  unfold emitted. rewrite Ht, drop_app_length. done.
Qed.

(** *** Computations that respect a step relation *)

Section Respects.

Context (R : Step) `{!Sequential R}.

Lemma respects_ret {A} (a : A) : respects R (ret a).
Proof. intros s. simpl. apply seq_ret. Qed.

Lemma respects_panic {A} e : respects R (@panic A e).
Proof. intros s. simpl. apply seq_panic. Qed.

Lemma respects_get {A} (f : State -> A) : respects R (get f).
Proof. intros s. simpl. apply seq_ret. Qed.

Lemma respects_bind {A B} (m : M A) (k : A -> M B) :
  respects R m -> (forall a, respects R (k a)) -> respects R (bind m k).
Proof.
  intros Hm Hk s. unfold bind. specialize (Hm s).
  destruct (m s) as [[a|e|c] s1]; simpl in *; [|done|done].
  eapply seq_bind; [exact Hm | apply Hk].
Qed.

Lemma respects_when b (m : M unit) : respects R m -> respects R (when b m).
Proof. intros Hm. destruct b; [done | apply respects_ret]. Qed.

Lemma respects_for_range {A V} (xs : list A) (body : A -> V -> M V) v :
  (forall x v, x ∈ xs -> respects R (body x v)) -> respects R (for_range xs body v).
Proof.
  revert v. induction xs as [|x xs IH]; intros v Hbody; simpl.
  - apply respects_ret.
  - apply respects_bind.
    + apply Hbody. by left.
    + intros v'. apply IH. intros y w Hy. apply Hbody. by right.
Qed.

Lemma respects_for_each {A} (xs : list A) (body : A -> M unit) :
  (forall x, x ∈ xs -> respects R (body x)) -> respects R (for_each xs body).
Proof. intros Hbody. apply respects_for_range. intros x _. apply Hbody. Qed.

End Respects.

Lemma quiet_emits {A} P (m : M A) : quiet P m -> emits P m.
Proof. intros H s. apply H. Qed.

Lemma quiet_keeps_plan {A} P (m : M A) : quiet P m -> keeps_plan m.
Proof. intros H s. apply H. Qed.

Lemma quiet_keeps_files {A} P (m : M A) : quiet P m -> keeps_files m.
Proof. intros H s. apply H. Qed.

Lemma quiet_no_exit {A} P (m : M A) : quiet P m -> respects no_exit m.
Proof. intros H s. apply H. Qed.

Lemma quiet_weaken {A} (P Q : Event -> Prop) (m : M A) :
  (forall e, P e -> Q e) -> quiet P m -> quiet Q m.
Proof.
  intros HPQ H s. destruct (H s) as (Hp & Hf & He & Hg).
  repeat split; [done | done | done | by eapply grows_weaken].
Qed.

Lemma emits_weaken {A} (P Q : Event -> Prop) (m : M A) :
  (forall e, P e -> Q e) -> emits P m -> emits Q m.
Proof. intros HPQ H s. by eapply grows_weaken. Qed.

Lemma quiet_emit (P : Event -> Prop) e : P e -> quiet P (emit e).
Proof. intros He s. by apply grows_quietly_log. Qed.

Lemma quiet_call {R} (P : Event -> Prop) (ask : History -> R) ev :
  (forall r, P (ev r)) -> quiet P (call ask ev).
Proof. intros He s. by apply grows_quietly_log. Qed.

Lemma emits_emit (P : Event -> Prop) e : P e -> emits P (emit e).
Proof. intros He. by apply quiet_emits, quiet_emit. Qed.

Lemma emits_call {R} (P : Event -> Prop) (ask : History -> R) ev :
  (forall r, P (ev r)) -> emits P (call ask ev).
Proof. intros He. by apply quiet_emits, quiet_call. Qed.

Lemma emits_exit {A} P code : emits P (@os_Exit A code).
Proof. intros s. apply grows_refl. Qed.

Lemma keeps_plan_emit e : keeps_plan (emit e).
Proof. by intros s. Qed.

Lemma keeps_plan_call {R} (ask : History -> R) ev : keeps_plan (call ask ev).
Proof. by intros s. Qed.

Lemma keeps_plan_exit {A} code : keeps_plan (@os_Exit A code).
Proof. by intros s. Qed.

Lemma keeps_files_emit e : keeps_files (emit e).
Proof. by intros s. Qed.

Lemma keeps_files_call {R} (ask : History -> R) ev : keeps_files (call ask ev).
Proof. by intros s. Qed.

Lemma keeps_files_exit {A} code : keeps_files (@os_Exit A code).
Proof. by intros s. Qed.

Lemma emits_os_OpenFile W (P : Event -> Prop) name :
  (forall r, P (EvOpenFile name r)) -> emits P (os_OpenFile W name).
Proof.
  intros He s. unfold os_OpenFile. simpl.
  destruct (ask_os_OpenFile W (trace s) name) as [err|] eqn:E;
    (eexists [_]; split; [done | by constructor]).
Qed.

Lemma emits_write_file (P : Event -> Prop) name text :
  P (EvWrite name text) -> emits P (write_file name text).
Proof. intros He s. exists [EvWrite name text]. split; [done | by constructor]. Qed.

Lemma emits_os_Remove W (P : Event -> Prop) name :
  (forall r, P (EvRemove name r)) -> emits P (os_Remove W name).
Proof.
  intros He s. unfold os_Remove. simpl.
  destruct (ask_os_Remove W (trace s) name) as [err|] eqn:E;
    (eexists [_]; split; [done | by constructor]).
Qed.

Lemma keeps_plan_os_OpenFile W name : keeps_plan (os_OpenFile W name).
Proof. intros s. unfold os_OpenFile. simpl. by destruct (ask_os_OpenFile W (trace s) name). Qed.

Lemma keeps_plan_write_file name text : keeps_plan (write_file name text).
Proof. by intros s. Qed.

Lemma keeps_plan_os_Remove W name : keeps_plan (os_Remove W name).
Proof. intros s. unfold os_Remove. simpl. by destruct (ask_os_Remove W (trace s) name). Qed.

Lemma no_exit_emit e : respects no_exit (emit e).
Proof. by intros s c. Qed.

Lemma no_exit_call {R} (ask : History -> R) ev : respects no_exit (call ask ev).
Proof. by intros s c. Qed.

Lemma no_exit_os_OpenFile W name : respects no_exit (os_OpenFile W name).
Proof. by intros s c. Qed.

Lemma no_exit_write_file name text : respects no_exit (write_file name text).
Proof. by intros s c. Qed.

Lemma no_exit_os_Remove W name : respects no_exit (os_Remove W name).
Proof. by intros s c. Qed.

(** A [range] over a map: the rest runs with some arrangement of the entries. *)
Lemma respects_range {A} (R : Step) W entries (k : list (string * Secret) -> M A) :
  (forall arranged, arranged ≡ₚ entries -> respects R (k arranged)) ->
  respects R (bind (range_Secrets W entries) k).
Proof. intros Hk s. apply (Hk _ (range_Secrets_perm W (trace s) entries) s). Qed.

Lemma arranged_secret (arranged entries : list (string * Secret)) name secret :
  arranged ≡ₚ entries -> (name, secret) ∈ arranged -> secret ∈ entries.*2.
Proof.
  intros Hp Hin. apply list_elem_of_fmap. exists (name, secret). split; [done|].
  by rewrite <- Hp.
Qed.

(** Breaks a computation down to its calls, without looking inside the
    functions it calls; what is left are those functions and the events. *)
Ltac run_step :=
  lazymatch goal with
  | |- respects _ (ret _) => apply respects_ret; apply _
  | |- respects _ (panic _) => apply respects_panic; apply _
  | |- respects _ (os_Exit _) =>
      first [apply emits_exit | apply keeps_plan_exit | apply keeps_files_exit]
  | |- respects _ (get _) => apply respects_get; apply _
  | |- respects _ (when _ _) => apply respects_when; [apply _|]
  | |- respects _ (for_each _ _) => apply respects_for_each; [apply _ | intros ? ?]
  | |- respects _ (bind (range_Secrets _ _) _) =>
      apply respects_range; intros ? ?
  | |- respects _ (bind _ _) => apply respects_bind; [apply _ | | intros ?]
  | |- respects _ (emit _) =>
      first [apply quiet_emit | apply emits_emit | apply keeps_plan_emit
            | apply keeps_files_emit | apply no_exit_emit]
  | |- respects _ (call _ _) =>
      first [apply quiet_call; intros ? | apply emits_call; intros ?
            | apply keeps_plan_call | apply keeps_files_call | apply no_exit_call]
  | |- respects _ (os_OpenFile _ _) =>
      first [apply emits_os_OpenFile; intros ? | apply keeps_plan_os_OpenFile
            | apply no_exit_os_OpenFile]
  | |- respects _ (write_file _ _) =>
      first [apply emits_write_file | apply keeps_plan_write_file
            | apply no_exit_write_file]
  | |- respects _ (os_Remove _ _) =>
      first [apply emits_os_Remove; intros ? | apply keeps_plan_os_Remove
            | apply no_exit_os_Remove]
  | |- respects _ (match ?x with _ => _ end) => destruct x
  end.

Ltac run_down := repeat run_step.

Ltac unfold_prints :=
  unfold quiet, emits, keeps_plan, keeps_files, Print, Println, Eprint, Eprintln,
    nix_GetMachines, nix_BuildMachines, terminal_ReadPassword, nix_GetPathsToPush,
    nix_Push, vault_Auth, vault_Configure, vault_CreateOrReKeyHostToken,
    secrets_GetSecretSize, secrets_UploadSecret, nix_GetNixSystemPath,
    ssh_ActivateConfiguration, healthchecks_Perform, assets_Teardown.

(** *** Triples *)

Lemma hoare_ret {A} (Pre : State -> Prop) (a : A) (Post : Ctl A -> State -> Prop) :
  (forall s, Pre s -> Post (Normal a) s) -> hoare Pre (ret a) Post.
Proof. intros H s Hs. by apply H. Qed.

Lemma hoare_bind {A B} (Pre : State -> Prop) (m : M A) (k : A -> M B)
    (Mid : Ctl A -> State -> Prop) (Post : Ctl B -> State -> Prop) :
  hoare Pre m Mid ->
  (forall a, hoare (Mid (Normal a)) (k a) Post) ->
  (forall e s, Mid (Panic e) s -> Post (Panic e) s) ->
  (forall code s, Mid (Exit code) s -> Post (Exit code) s) ->
  hoare Pre (bind m k) Post.
Proof.
  intros Hm Hk Hpanic Hexit s Hs. specialize (Hm s Hs). unfold bind.
  destruct (m s) as [[a|e|code] s1]; simpl in *.
  - by apply Hk.
  - by apply Hpanic.
  - by apply Hexit.
Qed.

(** A statement that keeps an invariant, then the rest. *)
Lemma hoare_seq {A B} (Inv : State -> Prop) (m : M A) (k : A -> M B)
    (Post : Ctl B -> State -> Prop) :
  hoare Inv m (fun _ s => Inv s) ->
  (forall a, hoare Inv (k a) Post) ->
  (forall e s, Inv s -> Post (Panic e) s) ->
  (forall code s, Inv s -> Post (Exit code) s) ->
  hoare Inv (bind m k) Post.
Proof. intros Hm Hk Hpanic Hexit. by eapply hoare_bind. Qed.

(** A statement that keeps an invariant and never exits, then the rest. *)
Lemma hoare_then {A B} (Inv : State -> Prop) (m : M A) (k : A -> M B)
    (Post : Ctl B -> State -> Prop) :
  respects no_exit m ->
  hoare Inv m (fun _ s => Inv s) ->
  (forall a, hoare Inv (k a) Post) ->
  (forall e s, Inv s -> Post (Panic e) s) ->
  hoare Inv (bind m k) Post.
Proof.
  intros Hne Hm Hk Hpanic s Hs. specialize (Hm s Hs). specialize (Hne s). unfold bind.
  destruct (m s) as [[a|e|code] s1]; simpl in *.
  - by apply Hk.
  - by apply Hpanic.
  - by destruct (Hne code).
Qed.

(** An invariant of the history that more events of [P] do not break. *)
Lemma hoare_emits {A} (P : Event -> Prop) (Inv : History -> Prop) (m : M A) :
  emits P m ->
  (forall t d, Inv t -> Forall P d -> Inv (t ++ d)) ->
  hoare (fun s => Inv (trace s)) m (fun _ s => Inv (trace s)).
Proof.
  intros Hm Hinv s Hs. destruct (Hm s) as (d & Ht & Hd). rewrite Ht. by apply Hinv.
Qed.

Lemma hoare_get {A} (Inv : State -> Prop) (f : State -> A) :
  hoare Inv (get f) (fun _ s => Inv s).
Proof. by intros s Hs. Qed.

Lemma hoare_when (Inv : State -> Prop) b (m : M unit) :
  hoare Inv m (fun _ s => Inv s) -> hoare Inv (when b m) (fun _ s => Inv s).
Proof. intros Hm. destruct b; [done | by intros s Hs]. Qed.

Lemma no_exit_get {A} (f : State -> A) : respects no_exit (get f).
Proof. by intros s c. Qed.

Lemma no_exit_when b (m : M unit) : respects no_exit m -> respects no_exit (when b m).
Proof. intros Hm. destruct b; [done | by intros s c]. Qed.

(** One statement that keeps the invariant of the goal, then the rest. *)
Ltac inv_seq_as x :=
  eapply hoare_seq;
    [ | intros x
      | intros ? ? ?; first [assumption | by eexists]
      | intros ? ? ?; first [assumption | by eexists] ].

Ltac inv_seq := let x := fresh "x" in inv_seq_as x.

(** ** What the helpers add to the history *)

Section Signatures.

Variable W : World.
Variable cfg : Config.

Lemma printVaultWarning_quiet err : quiet printVaultWarning_event (printVaultWarning err).
Proof. unfold printVaultWarning. unfold_prints. run_down; exact I. Qed.

Lemma vaultInit_quiet : quiet vaultInit_event (vaultInit W).
Proof.
  unfold vaultInit, printVaultWarning. unfold_prints.
  destruct (_ && _); run_down; exact I.
Qed.

Lemma getHosts_quiet deployment : quiet getHosts_event (getHosts W cfg deployment).
Proof. unfold getHosts. unfold_prints. run_down; exact I. Qed.

Lemma build_quiet : quiet build_event (build W cfg).
Proof.
  unfold build. unfold_prints. run_down; try exact I.
  eapply quiet_weaken; [|apply getHosts_quiet]. by intros [].
Qed.

Lemma askForSudoPassword_quiet : quiet askForSudoPassword_event (askForSudoPassword W).
Proof. unfold askForSudoPassword. unfold_prints. run_down; exact I. Qed.

Lemma pushPaths_quiet hosts resultPath :
  quiet (pushPaths_event hosts) (pushPaths W hosts resultPath).
Proof. unfold pushPaths. unfold_prints. run_down; simpl; done. Qed.

Lemma uploadSecrets_quiet hosts sudoPasswd :
  quiet (uploadSecrets_event hosts) (uploadSecrets W cfg hosts sudoPasswd).
Proof.
  unfold uploadSecrets. unfold_prints. run_down; simpl; try done.
  split; [done|]. by eapply arranged_secret.
Qed.

Lemma activateConfiguration_quiet hosts resultPath sudoPasswd :
  quiet (activateConfiguration_event hosts)
        (activateConfiguration W cfg hosts resultPath sudoPasswd).
Proof. unfold activateConfiguration. unfold_prints. run_down; simpl; done. Qed.

Lemma healthGate_emits host : emits (healthGate_event host) (healthGate W cfg host).
Proof. unfold healthGate. unfold_prints. run_down; simpl; done. Qed.

Lemma healthGate_keeps_plan host : keeps_plan (healthGate W cfg host).
Proof. unfold healthGate. unfold_prints. run_down. Qed.

Lemma healthGate_keeps_files host : keeps_files (healthGate W cfg host).
Proof. unfold healthGate. unfold_prints. run_down. Qed.

End Signatures.

(** A helper that is already known to be quiet, inside a larger computation. *)
Ltac by_quiet L :=
  first
    [ refine (quiet_keeps_plan _ _ L)
    | refine (quiet_keeps_files _ _ L)
    | refine (quiet_no_exit _ _ L)
    | apply quiet_emits; eapply quiet_weaken; [|apply L];
      let e := fresh "e" in intros e; destruct e; simpl; tauto
    | eapply quiet_weaken; [|apply L];
      let e := fresh "e" in intros e; destruct e; simpl; tauto ].

Section Signatures_of_the_loop.

Variable W : World.
Variable cfg : Config.

Lemma vaultReKey_emits vc hosts :
  emits (vaultReKey_event cfg vc hosts) (vaultReKey W cfg vc hosts).
Proof.
  unfold vaultReKey. unfold_prints. destruct hosts as [|host hosts].
  - run_down.
  - run_down; try (simpl; done); try by_quiet (printVaultWarning_quiet e).
    simpl. split; [done | by left].
Qed.

Lemma vaultReKey_keeps_plan vc hosts : keeps_plan (vaultReKey W cfg vc hosts).
Proof.
  unfold vaultReKey. unfold_prints. destruct hosts as [|host hosts].
  - run_down.
  - run_down; by_quiet (printVaultWarning_quiet e).
Qed.

Lemma rekeyStep_emits host sudoPasswd vc :
  emits (vaultStep_event cfg host) (rekeyStep W cfg host sudoPasswd vc).
Proof.
  unfold rekeyStep. unfold_prints. run_down; try (simpl; done).
  eapply emits_weaken; [|apply vaultReKey_emits].
  intros []; simpl; try done. intros [_ ->%list_elem_of_singleton]. done.
Qed.

Lemma rekeyStep_keeps_plan host sudoPasswd vc :
  keeps_plan (rekeyStep W cfg host sudoPasswd vc).
Proof. unfold rekeyStep. unfold_prints. run_down. apply vaultReKey_keeps_plan. Qed.

Lemma vaultReKey_no_exit vc hosts : respects no_exit (vaultReKey W cfg vc hosts).
Proof.
  unfold vaultReKey. unfold_prints. destruct hosts as [|host hosts].
  - run_down.
  - run_down; by_quiet (printVaultWarning_quiet e).
Qed.

Lemma rekeyStep_no_exit host sudoPasswd vc :
  respects no_exit (rekeyStep W cfg host sudoPasswd vc).
Proof. unfold rekeyStep. unfold_prints. run_down. apply vaultReKey_no_exit. Qed.

Lemma vaultStep_emits host sudoPasswd vc :
  emits (vaultStep_event cfg host) (vaultStep W cfg host sudoPasswd vc).
Proof.
  unfold vaultStep. unfold_prints. run_down.
  - by_quiet (vaultInit_quiet W).
  - apply rekeyStep_emits.
Qed.

Lemma vaultStep_keeps_plan host sudoPasswd vc :
  keeps_plan (vaultStep W cfg host sudoPasswd vc).
Proof.
  unfold vaultStep. unfold_prints. run_down.
  - by_quiet (vaultInit_quiet W).
  - apply rekeyStep_keeps_plan.
Qed.

Lemma vaultStep_no_exit host sudoPasswd vc :
  respects no_exit (vaultStep W cfg host sudoPasswd vc).
Proof.
  unfold vaultStep. unfold_prints. run_down.
  - by_quiet (vaultInit_quiet W).
  - apply rekeyStep_no_exit.
Qed.

Lemma deployHost_emits resultPath sudoPasswd host vc :
  emits (deployHost_event cfg host) (deployHost W cfg resultPath sudoPasswd host vc).
Proof.
  unfold deployHost, deployHost_event. unfold_prints. run_down; try (simpl; tauto).
  - by_quiet (pushPaths_quiet W [host] resultPath).
  - eapply emits_weaken; [|apply vaultStep_emits]. tauto.
  - by_quiet (uploadSecrets_quiet W cfg [host] sudoPasswd).
  - by_quiet (activateConfiguration_quiet W cfg [host] resultPath sudoPasswd).
  - eapply emits_weaken; [|apply healthGate_emits]. tauto.
Qed.

Lemma deployHost_keeps_plan resultPath sudoPasswd host vc :
  keeps_plan (deployHost W cfg resultPath sudoPasswd host vc).
Proof.
  unfold deployHost. unfold_prints. run_down.
  - by_quiet (pushPaths_quiet W [host] resultPath).
  - apply vaultStep_keeps_plan.
  - by_quiet (uploadSecrets_quiet W cfg [host] sudoPasswd).
  - by_quiet (activateConfiguration_quiet W cfg [host] resultPath sudoPasswd).
  - apply healthGate_keeps_plan.
Qed.

Lemma deployHosts_emits hosts resultPath sudoPasswd vc :
  emits (deployHosts_event cfg hosts) (deployHosts W cfg hosts resultPath sudoPasswd vc).
Proof.
  unfold deployHosts. apply respects_for_range; [apply _|].
  intros host vc' Hin. eapply emits_weaken; [|apply deployHost_emits].
  intros e He. by exists host.
Qed.

Lemma deployHosts_keeps_plan hosts resultPath sudoPasswd vc :
  keeps_plan (deployHosts W cfg hosts resultPath sudoPasswd vc).
Proof.
  unfold deployHosts. apply respects_for_range; [apply _|].
  intros host vc' _. apply deployHost_keeps_plan.
Qed.

Lemma doHealthCheck_quiet : quiet doHealthCheck_event (doHealthCheck W cfg).
Proof.
  unfold doHealthCheck. unfold_prints. run_down; try exact I.
  by_quiet (getHosts_quiet W cfg (healthCheckDeployment cfg)).
Qed.

End Signatures_of_the_loop.

(** ** The activation plan *)

Lemma resolvePlan_returns cfg s : fst (resolvePlan cfg s) = Normal tt.
Proof.
  unfold resolvePlan, when.
  destruct (dryRun cfg); simpl; [done|].
  repeat (case_match; simpl; try done).
Qed.

Lemma resolvePlan_trace cfg s :
  trace (snd (resolvePlan cfg s)) = trace s /\ files (snd (resolvePlan cfg s)) = files s.
Proof.
  unfold resolvePlan, when.
  destruct (dryRun cfg); simpl; [done|].
  repeat (case_match; simpl; try done).
Qed.

Lemma hoare_keeps_plan {A} p (m : M A) :
  keeps_plan m -> hoare (fun s => plan s = p) m (fun _ s => plan s = p).
Proof. intros Hm s Hs. by rewrite (Hm s). Qed.

(** After the plan is resolved, [doDeploy] does not assign a flag any more. *)
Lemma doDeploy_plan W cfg s :
  plan (snd (doDeploy W cfg s)) = plan (snd (resolvePlan cfg s)).
Proof.
  assert (H : hoare (fun s0 => s0 = s) (doDeploy W cfg)
                (fun _ s' => plan s' = plan (snd (resolvePlan cfg s)))); [|by apply H].
  unfold doDeploy.
  eapply (hoare_bind _ _ _ (fun _ s' => plan s' = plan (snd (resolvePlan cfg s))));
    [by intros s0 -> | intros _ | done | done].
  inv_seq_as built; [apply hoare_keeps_plan; by_quiet (build_quiet W cfg)|].
  destruct built as [hosts resultPath].
  inv_seq_as x; [apply hoare_keeps_plan, keeps_plan_emit|].
  inv_seq_as askPass; [apply hoare_get|].
  inv_seq_as sudoPasswd.
  { apply hoare_keeps_plan. unfold_prints. run_down.
    by_quiet (askForSudoPassword_quiet W). }
  inv_seq_as vc'; [apply hoare_keeps_plan, deployHosts_keeps_plan|].
  by apply hoare_ret.
Qed.

(** C5.  Started with the four flags unset, as the package declares them, the
    plan that [doDeploy] resolves is the row of the table for the requested
    mode, with every flag unset under [--dry-run]; it is a function of the
    dry-run flag, the mode and the sudo request alone.  Nothing after that
    assigns a flag: the flags are the same at the end of [doDeploy], and the
    loop over the hosts and each of its iterations leave them as they find
    them, so that every host sees the same plan. *)
Theorem plan_is_the_table (W : World) (cfg : Config) (s : State) :
  plan s = (false, false, false, false) ->
  switchAction cfg ∈ modes ->
  fst (resolvePlan cfg s) = Normal tt /\
  plan (snd (resolvePlan cfg s)) =
    planTable (dryRun cfg) (switchAction cfg) (deployAskForSudoPasswd cfg) /\
  plan (snd (doDeploy W cfg s)) =
    planTable (dryRun cfg) (switchAction cfg) (deployAskForSudoPasswd cfg) /\
  (forall hosts resultPath sudoPasswd vc s',
     plan (snd (deployHosts W cfg hosts resultPath sudoPasswd vc s')) = plan s') /\
  (forall resultPath sudoPasswd host vc s',
     plan (snd (deployHost W cfg resultPath sudoPasswd host vc s')) = plan s').
Proof.
  intros Hs Hmode. split; [apply resolvePlan_returns|].
  assert (Htable : plan (snd (resolvePlan cfg s)) =
            planTable (dryRun cfg) (switchAction cfg) (deployAskForSudoPasswd cfg)).
  2:{ split; [exact Htable|]. split; [by rewrite doDeploy_plan|]. split.
      - intros. apply deployHosts_keeps_plan.
      - intros. apply deployHost_keeps_plan. }
  split_and?.
  - unfold plan in Hs. injection Hs as Hp Ha Hu Hact.
    unfold resolvePlan, planTable, when, modes.
    destruct (dryRun cfg); simpl.
    { unfold plan. by rewrite Hp, Ha, Hu, Hact. }
    repeat (apply elem_of_cons in Hmode as [->|Hmode]);
      try (by apply elem_of_nil in Hmode);
      simpl; unfold plan; destruct (deployAskForSudoPasswd cfg); simpl;
      by rewrite ?Hp, ?Ha, ?Hu, ?Hact.
Qed.

Lemma plan_is_the_table_witness :
  plan initial = (false, false, false, false) /\
  "dry-activate" ∈ modes /\
  plan (snd (resolvePlan (Sample.config false "dry-activate") initial)) =
    planTable false "dry-activate" false.
Proof.
  assert (Hmode : "dry-activate" ∈ modes) by (unfold modes; repeat constructor).
  split; [reflexivity|]. split; [exact Hmode|].
  exact (proj1 (proj2
    (plan_is_the_table (Sample.world [] Sample.noEnv true true [] [] [] [])
       (Sample.config false "dry-activate") initial eq_refl Hmode))).
Defined.

(** The rows of the table, resolved from the source for a caller that asked
    for the sudo password. *)
Example rows_of_the_plan :
  let resolved dry action :=
    plan (snd (resolvePlan
                 {| dryRun := dry; selectGlob := "*"; selectEvery := 1; selectSkip := 0;
                    selectLimit := 0; deployDeployment := "net.nix";
                    switchAction := action; deployAskForSudoPasswd := true;
                    deploySkipHealthChecks := false; deployHealthCheckTimeout := 0;
                    healthCheckDeployment := "net.nix"; healthCheckTimeout := 0;
                    tempDir := "/tmp/morph-1"; assetRoot := "/tmp/assets" |}
                 initial)) in
  resolved false "build" = (false, false, false, false) /\
  resolved false "push" = (true, false, false, false) /\
  resolved false "dry-activate" = (true, true, false, true) /\
  resolved false "test" = (true, true, true, true) /\
  resolved false "switch" = (true, true, true, true) /\
  resolved false "boot" = (true, true, true, true) /\
  Forall (fun action => resolved true action = (false, false, false, false)) modes.
Proof. vm_compute. repeat split; repeat constructor. Qed.

(** ** Establishing the Vault session *)

Lemma emitted_log_all {A} (m : M A) s d :
  snd (m s) = log_all d s -> emitted m s = d.
Proof. intros H. unfold emitted. rewrite H. simpl. apply drop_app_length. Qed.

(** Without both credentials [vaultInit] only complains on standard error. *)
Lemma vaultInit_without_credentials W s :
  (1 <? slen (os_Getenv W "VAULT_ADDR"))%Z && (1 <? slen (os_Getenv W "VAULT_TOKEN"))%Z = false ->
  vaultInit W s =
    (Normal None,
     log_all [EvStderr ("Vault: Please set VAULT_ADDR and VAULT_TOKEN in environment." +:+ nl);
              EvStderr ("" +:+ nl)] s).
Proof.
  intros H. unfold vaultInit. rewrite H.
  unfold Eprintln, emit, bind, ret, log, log_all. simpl. by rewrite <- app_assoc.
Qed.

(** With both, the first thing it does is to authenticate with them. *)
Lemma vaultInit_with_credentials W s :
  (1 <? slen (os_Getenv W "VAULT_ADDR"))%Z && (1 <? slen (os_Getenv W "VAULT_TOKEN"))%Z = true ->
  exists r d,
    emitted (vaultInit W) s =
      EvVaultAuth (os_Getenv W "VAULT_ADDR") (os_Getenv W "VAULT_TOKEN") r :: d.
Proof.
  intros H.
  destruct (grows_emitted vaultInit_event (vaultInit W) s) as [Ht _];
    [apply quiet_emits, vaultInit_quiet|].
  assert (exists r d, trace (snd (vaultInit W s)) =
            trace s ++ EvVaultAuth (os_Getenv W "VAULT_ADDR")
                         (os_Getenv W "VAULT_TOKEN") r :: d) as (r & d & Hd).
  { unfold vaultInit. rewrite H. unfold vault_Auth, bind, call. simpl.
    set (r := ask_vault_Auth W (trace s) _ _). exists r.
    destruct r as [vc|err].
    - unfold vault_Configure, call. simpl.
      set (r2 := ask_vault_Configure W _ _). destruct r2 as [err|]; simpl.
      + eexists. rewrite <- !app_assoc. simpl. reflexivity.
      + eexists. rewrite <- !app_assoc. simpl. reflexivity.
    - simpl. eexists. rewrite <- !app_assoc. simpl. reflexivity. }
  exists r, d. rewrite Ht in Hd. by apply app_inv_head in Hd.
Qed.

(** C9.  [vaultInit] calls [vault.Auth] exactly when both [VAULT_ADDR] and
    [VAULT_TOKEN] are longer than one character; otherwise, also for a value of
    one character, it writes the request to set them on standard error and
    returns no client, and the value is not used. *)
Theorem vaultInit_authenticates_iff (W : World) (s : State) :
  ((exists addr rootToken r, EvVaultAuth addr rootToken r ∈ emitted (vaultInit W) s) <->
   (1 < String.length (os_Getenv W "VAULT_ADDR") /\
    1 < String.length (os_Getenv W "VAULT_TOKEN"))%nat) /\
  (forall addr rootToken r,
     EvVaultAuth addr rootToken r ∈ emitted (vaultInit W) s ->
     addr = os_Getenv W "VAULT_ADDR" /\ rootToken = os_Getenv W "VAULT_TOKEN") /\
  ((String.length (os_Getenv W "VAULT_ADDR") <= 1 \/
    String.length (os_Getenv W "VAULT_TOKEN") <= 1)%nat ->
   fst (vaultInit W s) = Normal None /\
   emitted (vaultInit W) s =
     [EvStderr ("Vault: Please set VAULT_ADDR and VAULT_TOKEN in environment." +:+ nl);
      EvStderr ("" +:+ nl)]).
Proof.
  destruct ((1 <? slen (os_Getenv W "VAULT_ADDR"))%Z &&
            (1 <? slen (os_Getenv W "VAULT_TOKEN"))%Z) eqn:E.
  - pose proof E as E'.
    apply andb_true_iff in E' as [Ha Ht]. apply Z.ltb_lt in Ha, Ht.
    unfold slen in Ha, Ht.
    split; [|split].
    + split; [lia|]. intros _.
      destruct (vaultInit_with_credentials W s E) as (r & d & Hd).
      exists (os_Getenv W "VAULT_ADDR"), (os_Getenv W "VAULT_TOKEN"), r.
      rewrite Hd. by left.
    + intros addr rootToken r Hin.
      assert (Hshape : forall e, e ∈ emitted (vaultInit W) s ->
                match e with
                | EvVaultAuth a t _ =>
                    a = os_Getenv W "VAULT_ADDR" /\ t = os_Getenv W "VAULT_TOKEN"
                | _ => True
                end).
      { unfold emitted, vaultInit. rewrite E.
        unfold vault_Auth, vault_Configure, bind, call. simpl.
        destruct (ask_vault_Auth W (trace s) _ _) as [vc|err]; simpl.
        - destruct (ask_vault_Configure W _ _) as [err|]; simpl;
            rewrite <- ?app_assoc, drop_app_length; simpl;
            intros e He; repeat (apply elem_of_cons in He as [->|He]; [done|]);
            by apply elem_of_nil in He.
        - rewrite <- ?app_assoc, drop_app_length; simpl.
          intros e He; repeat (apply elem_of_cons in He as [->|He]; [done|]);
            by apply elem_of_nil in He. }
      apply (Hshape _ Hin).
    + lia.
  - pose proof (vaultInit_without_credentials W s E) as Hrun.
    assert (Hd : emitted (vaultInit W) s =
              [EvStderr ("Vault: Please set VAULT_ADDR and VAULT_TOKEN in environment." +:+ nl);
               EvStderr ("" +:+ nl)]).
    { apply emitted_log_all. by rewrite Hrun. }
    apply andb_false_iff in E. unfold slen in E. rewrite !Z.ltb_ge in E.
    split; [|split].
    + split; [|lia]. intros (addr & rootToken & r & Hin). rewrite Hd in Hin.
      repeat (apply elem_of_cons in Hin as [Hin|Hin]; [done|]).
      by apply elem_of_nil in Hin.
    + intros addr rootToken r Hin. rewrite Hd in Hin.
      repeat (apply elem_of_cons in Hin as [Hin|Hin]; [done|]).
      by apply elem_of_nil in Hin.
    + intros _. split; [by rewrite Hrun | exact Hd].
Qed.

(** An address of one character counts as no address. *)
Example one_character_is_no_credential :
  let env name :=
    if String.eqb name "VAULT_ADDR" then "x"
    else if String.eqb name "VAULT_TOKEN" then "s.root"
    else "" in
  let W := Sample.world [] env true true [] [] [] [] in
  vaultInit W initial =
    (Normal None,
     log_all [EvStderr ("Vault: Please set VAULT_ADDR and VAULT_TOKEN in environment." +:+ nl);
              EvStderr ("" +:+ nl)] initial).
Proof. reflexivity. Qed.

(** ** [doDeploy] and [main] as a whole *)

Lemma resolvePlan_emits P cfg : emits P (resolvePlan cfg).
Proof.
  intros s. exists []. rewrite app_nil_r.
  split; [apply resolvePlan_trace | constructor].
Qed.

Lemma doDeploy_emits W cfg : emits (doDeploy_event cfg) (doDeploy W cfg).
Proof.
  unfold doDeploy, doDeploy_event. unfold_prints. run_down; try (simpl; tauto).
  - apply resolvePlan_emits.
  - by_quiet (build_quiet W cfg).
  - by_quiet (askForSudoPassword_quiet W).
  - eapply emits_weaken; [|apply deployHosts_emits].
    intros e (host & _ & He). right. right. by exists host.
Qed.

Lemma deployHost_event_not_teardown cfg host e :
  deployHost_event cfg host e -> is_teardown e = false.
Proof. destruct e; simpl; unfold deployHost_event; simpl; tauto. Qed.

Lemma doDeploy_event_not_teardown cfg e : doDeploy_event cfg e -> is_teardown e = false.
Proof.
  intros [H|[H|(host & H)]].
  - by destruct e.
  - by destruct e.
  - by eapply deployHost_event_not_teardown.
Qed.

Lemma doHealthCheck_event_not_teardown e : doHealthCheck_event e -> is_teardown e = false.
Proof. by destruct e. Qed.

(** The command that [main] dispatches to never tears the assets down itself. *)
Lemma dispatch_emits W cfg command :
  emits (fun e => is_teardown e = false)
    (if String.eqb command "deploy" then doDeploy W cfg
     else if String.eqb command "check-health" then doHealthCheck W cfg
     else ret tt).
Proof.
  destruct (String.eqb command "deploy").
  - eapply emits_weaken; [|apply doDeploy_emits]. apply doDeploy_event_not_teardown.
  - destruct (String.eqb command "check-health").
    + apply quiet_emits. eapply quiet_weaken; [|apply doHealthCheck_quiet].
      apply doHealthCheck_event_not_teardown.
    + apply respects_ret. apply _.
Qed.

Lemma no_teardown_in (d : History) :
  Forall (fun e => is_teardown e = false) d -> forall root, EvTeardown root ∉ d.
Proof.
  intros Hd root Hin. rewrite Forall_forall in Hd. by apply Hd in Hin.
Qed.

(** C10.  [assets.Teardown] is called exactly on the runs in which the
    dispatched command returns: when [doDeploy] ends in [os.Exit] (the health
    gate) or in a panic (a fatal collaborator error), [main] ends the same way
    in the same state, and no teardown is in the history. *)
Theorem teardown_only_after_return (W : World) (cfg : Config) (command : string)
    (s : State) :
  ((exists root, EvTeardown root ∈ emitted (main W cfg command) s) <->
   fst (main W cfg command s) = Normal tt) /\
  (fst (doDeploy W cfg s) <> Normal tt ->
   main W cfg "deploy" s = doDeploy W cfg s /\
   forall root, EvTeardown root ∉ emitted (main W cfg "deploy") s).
Proof.
  assert (Hmain : forall command,
            (exists root, EvTeardown root ∈ emitted (main W cfg command) s) <->
            fst (main W cfg command s) = Normal tt).
  { clear command. intros command.
    pose proof (dispatch_emits W cfg command) as Hd.
    unfold main.
    set (dispatch := if String.eqb command "deploy" then _ else _) in *.
    apply (grows_emitted _ _ s) in Hd as [Ht Hd].
    unfold emitted in *. unfold bind, assets_Teardown, emit.
    destruct (dispatch s) as [[[]|e|c] s1]; simpl in *.
    - split; [done|]. intros _. exists (assetRoot cfg).
      rewrite Ht, <- app_assoc, drop_app_length. set_solver.
    - split; [|done]. intros [root Hin]. by apply no_teardown_in in Hin.
    - split; [|done]. intros [root Hin]. by apply no_teardown_in in Hin. }
  split; [apply Hmain|].
  intros Hfail.
  assert (Heq : main W cfg "deploy" s = doDeploy W cfg s).
  { unfold main, bind. simpl.
    destruct (doDeploy W cfg s) as [[[]|e|c] s1]; simpl in *; done. }
  split; [exact Heq|].
  intros root Hin. apply Hfail. rewrite <- Heq. apply Hmain. by exists root.
Qed.

(** ** The standalone health check *)

Lemma log_all_nil s : log_all [] s = s.
Proof. destruct s. unfold log_all. simpl. by rewrite app_nil_r. Qed.

Lemma log_all_log e d s : log_all d (log e s) = log_all (e :: d) s.
Proof. unfold log_all, log. simpl. by rewrite <- app_assoc. Qed.

Lemma health_answers_length W timeout hosts t :
  length (health_answers W timeout hosts t) = length hosts.
Proof. revert t. induction hosts as [|host hosts IH]; intros t; simpl; [done|]. by rewrite IH. Qed.

(** The loop of [doHealthCheck] calls [healthchecks.Perform] once for every
    host, in order, and returns, whatever the calls answer. *)
Lemma health_loop W timeout hosts s :
  for_each hosts (fun host => bind (healthchecks_Perform W host timeout) (fun _ => ret tt)) s =
    (Normal tt,
     log_all (zip_with (fun host r => EvHealthChecksPerform host timeout r) hosts
                (health_answers W timeout hosts (trace s))) s).
Proof.
  revert s. induction hosts as [|host hosts IH]; intros s.
  - unfold for_each. simpl. by rewrite log_all_nil.
  - unfold for_each in *. simpl. unfold bind at 1. simpl.
    rewrite IH. by rewrite log_all_log.
Qed.

(** C7.  Once the hosts are selected, [doHealthCheck] calls
    [healthchecks.Perform] for every one of them, in the order of the list
    and up to the last, records for each host what that call answered, and
    returns normally.  The answers are those of the world, failures included:
    a check that fails is followed by the checks of the hosts after it, and
    no answer has any influence on the iteration or on how it ends. *)
Theorem check_health_visits_every_host (W : World) (cfg : Config) (s s1 : State)
    (hosts : list Host) :
  getHosts W cfg (healthCheckDeployment cfg) s = (Normal (Ok hosts), s1) ->
  doHealthCheck W cfg s =
    (Normal tt,
     log_all (zip_with (fun host r => EvHealthChecksPerform host (healthCheckTimeout cfg) r)
                hosts (health_answers W (healthCheckTimeout cfg) hosts (trace s1))) s1) /\
  length (health_answers W (healthCheckTimeout cfg) hosts (trace s1)) = length hosts.
Proof.
  intros Hsel. split; [|apply health_answers_length].
  unfold doHealthCheck, bind at 1. rewrite Hsel. apply health_loop.
Qed.

(** Three hosts, of which the first two fail their checks: all three are
    checked, and the run returns. *)
Lemma check_health_visits_every_host_witness :
  let W := Sample.world [Sample.plainHost "A"; Sample.plainHost "B"; Sample.plainHost "C"]
             Sample.noEnv true true [] [] [] ["A"; "B"] in
  let cfg := Sample.config false "switch" in
  let hosts := [Sample.plainHost "A"; Sample.plainHost "B"; Sample.plainHost "C"] in
  let s1 := snd (getHosts W cfg (healthCheckDeployment cfg) initial) in
  getHosts W cfg (healthCheckDeployment cfg) initial = (Normal (Ok hosts), s1) /\
  (doHealthCheck W cfg initial =
     (Normal tt,
      log_all (zip_with (fun host r => EvHealthChecksPerform host (healthCheckTimeout cfg) r)
                 hosts (health_answers W (healthCheckTimeout cfg) hosts (trace s1))) s1) /\
   length (health_answers W (healthCheckTimeout cfg) hosts (trace s1)) = length hosts) /\
  health_answers W (healthCheckTimeout cfg) hosts (trace s1) =
    [Some "failed"; Some "failed"; None].
Proof.
  intros W cfg hosts s1.
  assert (Hsel : getHosts W cfg (healthCheckDeployment cfg) initial = (Normal (Ok hosts), s1))
    by (vm_compute; reflexivity).
  split; [exact Hsel|]. split.
  - exact (check_health_visits_every_host W cfg initial s1 hosts Hsel).
  - vm_compute; reflexivity.
Defined.

(** A run in which the first two of three hosts fail their checks. *)
Example check_health_with_failures :
  let W := Sample.world [Sample.plainHost "A"; Sample.plainHost "B"; Sample.plainHost "C"]
             Sample.noEnv true true [] [] [] ["A"; "B"] in
  let run := doHealthCheck W (Sample.config false "switch") initial in
  fst run = Normal tt /\
  List.filter health_check (trace (snd run)) =
    [EvHealthChecksPerform (Sample.plainHost "A") 0 (Some "failed");
     EvHealthChecksPerform (Sample.plainHost "B") 0 (Some "failed");
     EvHealthChecksPerform (Sample.plainHost "C") 0 None].
Proof. vm_compute. done. Qed.

(** ** The health gate of [doDeploy] *)

Section Health_gate.

Variable W : World.
Variable cfg : Config.

Lemma unmarked_more f t0 t d :
  unmarked_since f t0 t -> Forall (fun e => f e = false) d ->
  unmarked_since f t0 (t ++ d).
Proof.
  intros (d0 & -> & Hd0) Hd. exists (d0 ++ d). split; [by rewrite app_assoc|].
  by apply Forall_app.
Qed.

(** A statement that emits no marked event. *)
Lemma hoare_unmarked {A} (P : Event -> Prop) f t0 (m : M A) :
  emits P m -> (forall e, P e -> f e = false) ->
  hoare (fun s => unmarked_since f t0 (trace s)) m
        (fun _ s => unmarked_since f t0 (trace s)).
Proof.
  intros Hm HP. eapply hoare_emits.
  - eapply emits_weaken; [exact HP | exact Hm].
  - intros t d. apply unmarked_more.
Qed.

(** A statement that cannot emit a failed health check keeps the calm. *)
Lemma hoare_calm {A} (P : Event -> Prop) t0 (m : M A) :
  emits P m -> (forall e, P e -> failed_health_check e = false) ->
  hoare (fun s => calm_since t0 (trace s)) m (fun _ s => calm_since t0 (trace s)).
Proof. apply hoare_unmarked. Qed.

Lemma healthGate_gate t0 host :
  deploySkipHealthChecks cfg = false ->
  hoare (fun s => calm_since t0 (trace s)) (healthGate W cfg host) (gate_post cfg t0 host).
Proof.
  intros Hskip s (d & Ht & Hd). unfold healthGate. rewrite Hskip. simpl.
  unfold healthchecks_Perform, bind, call. simpl.
  destruct (ask_healthchecks_Perform W (trace s) host (deployHealthCheckTimeout cfg))
    as [err|] eqn:E; simpl.
  - split; [done|]. exists err, d. split; [|done].
    rewrite Ht, <- !app_assoc. done.
  - exists (d ++ [EvHealthChecksPerform host (deployHealthCheckTimeout cfg) None]).
    split; [by rewrite Ht, app_assoc|]. apply Forall_app. split; [done|].
    by repeat constructor.
Qed.

Lemma Println_calm t0 text :
  hoare (fun s => calm_since t0 (trace s)) (Println text)
        (fun _ s => calm_since t0 (trace s)).
Proof.
  eapply hoare_calm; [apply (emits_emit (fun e => failed_health_check e = false))|];
    done.
Qed.

Lemma Println_no_exit text : respects no_exit (Println text).
Proof. apply no_exit_emit. Qed.

(** One iteration of the loop: if it exits, then with status 1, on the failed
    health check of its own host; otherwise no health check has failed. *)
Lemma deployHost_gate t0 resultPath sudoPasswd host vc :
  deploySkipHealthChecks cfg = false ->
  hoare (fun s => calm_since t0 (trace s))
        (deployHost W cfg resultPath sudoPasswd host vc)
        (gate_post cfg t0 host).
Proof.
  intros Hskip. unfold deployHost.
  apply hoare_then; [apply no_exit_get | apply hoare_get | intros push | done].
  apply hoare_then; [| | intros _ | done].
  { apply no_exit_when. by_quiet (pushPaths_quiet W [host] resultPath). }
  { apply hoare_when. eapply hoare_calm; [apply quiet_emits, pushPaths_quiet|].
    by intros []. }
  apply hoare_then; [apply Println_no_exit | apply Println_calm | intros _ | done].
  apply hoare_then; [apply vaultStep_no_exit | | intros vc' | done].
  { eapply hoare_calm; [apply vaultStep_emits|]. by intros []. }
  apply hoare_then; [apply no_exit_get | apply hoare_get | intros upload | done].
  apply hoare_then; [| | intros _ | done].
  { apply no_exit_when. by_quiet (uploadSecrets_quiet W cfg [host] sudoPasswd). }
  { apply hoare_when. eapply hoare_calm; [apply quiet_emits, uploadSecrets_quiet|].
    by intros []. }
  apply hoare_then; [apply no_exit_get | apply hoare_get | intros activate | done].
  apply hoare_then; [| | intros _ | done].
  { apply no_exit_when.
    by_quiet (activateConfiguration_quiet W cfg [host] resultPath sudoPasswd). }
  { apply hoare_when.
    eapply hoare_calm; [apply quiet_emits, activateConfiguration_quiet|].
    by intros []. }
  eapply hoare_bind; [by apply healthGate_gate | intros [] | done | done].
  apply hoare_then; [apply Println_no_exit | apply Println_calm | intros _ | done].
  by apply hoare_ret.
Qed.

End Health_gate.

(** ** Halting on a failed health check *)

(** If a list holds one single element that [f] marks, the element is found at
    one place only. *)
Lemma marked_once {A} (f : A -> bool) (l1 l2 d d' : list A) x y :
  Forall (fun e => f e = false) l1 -> Forall (fun e => f e = false) l2 ->
  f x = true -> f y = true ->
  l1 ++ x :: l2 = d ++ y :: d' ->
  d = l1 /\ y = x /\ d' = l2.
Proof.
  intros Hl1 Hl2 Hx Hy. revert d. induction Hl1 as [|e l1 He Hl1 IH]; intros d Heq.
  - destruct d as [|e d]; simpl in *.
    + by injection Heq as -> ->.
    + injection Heq as -> ->. rewrite Forall_forall in Hl2.
      assert (f y = false) by (apply Hl2, elem_of_app; right; by left). congruence.
  - destruct d as [|e0 d]; simpl in *.
    + injection Heq as -> _. congruence.
    + injection Heq as -> Heq. destruct (IH _ Heq) as (-> & -> & ->). done.
Qed.

(** A marked element of [l1 ++ l2] lies in [l2] when [l1] holds none. *)
Lemma marked_later {A} (f : A -> bool) (l1 l2 d d' : list A) y :
  Forall (fun e => f e = false) l1 -> f y = true ->
  l1 ++ l2 = d ++ y :: d' ->
  exists d2, d = l1 ++ d2 /\ l2 = d2 ++ y :: d'.
Proof.
  intros Hl1 Hy. revert d. induction Hl1 as [|e l1 He Hl1 IH]; intros d Heq.
  - by exists d.
  - destruct d as [|e0 d]; simpl in *.
    + injection Heq as -> _. congruence.
    + injection Heq as -> Heq. destruct (IH _ Heq) as (d2 & -> & ->). by exists d2.
Qed.

Lemma emitted_bind {A B} (P : Event -> Prop) (m : M A) (k : A -> M B) s :
  emits P m -> (forall a, emits P (k a)) ->
  emitted (bind m k) s =
    emitted m s ++ match m s with
                   | (Normal a, s1) => emitted (k a) s1
                   | _ => []
                   end.
Proof.
  intros Hm Hk. destruct (grows_emitted P m s Hm) as [Ht _].
  unfold emitted at 1. unfold bind.
  destruct (m s) as [[a|e|c] s1] eqn:E; simpl in *.
  - destruct (grows_emitted P (k a) s1 (Hk a)) as [Hk1 _].
    rewrite Hk1, Ht, <- app_assoc, drop_app_length. done.
  - rewrite app_nil_r. unfold emitted. by rewrite E.
  - rewrite app_nil_r. unfold emitted. by rewrite E.
Qed.

Section Halting.

Variable W : World.
Variable cfg : Config.

Lemma deployHosts_cons host hosts resultPath sudoPasswd vc s :
  deployHosts W cfg (host :: hosts) resultPath sudoPasswd vc s =
    match deployHost W cfg resultPath sudoPasswd host vc s with
    | (Normal vc', s') => deployHosts W cfg hosts resultPath sudoPasswd vc' s'
    | (Panic e, s') => (Panic e, s')
    | (Exit code, s') => (Exit code, s')
    end.
Proof. reflexivity. Qed.

Lemma emitted_deployHosts_cons host hosts resultPath sudoPasswd vc s :
  emitted (deployHosts W cfg (host :: hosts) resultPath sudoPasswd vc) s =
    emitted (deployHost W cfg resultPath sudoPasswd host vc) s ++
    match deployHost W cfg resultPath sudoPasswd host vc s with
    | (Normal vc', s') => emitted (deployHosts W cfg hosts resultPath sudoPasswd vc') s'
    | _ => []
    end.
Proof.
  apply (emitted_bind (fun _ => True)).
  - eapply emits_weaken; [|apply deployHost_emits]. done.
  - intros vc'. eapply emits_weaken; [|apply deployHosts_emits]. done.
Qed.

Lemma halt_notice_calm : Forall (fun e => failed_health_check e = false) halt_notice.
Proof. by repeat constructor. Qed.

(** The calls that reach a host during the loop go to a host of the list. *)
Lemma deployHosts_remote_calls hosts resultPath sudoPasswd vc s :
  Forall (fun e => forall h, remote_call e = Some h -> h ∈ hosts)
    (emitted (deployHosts W cfg hosts resultPath sudoPasswd vc) s).
Proof.
  eapply grows_emitted. eapply emits_weaken; [|apply deployHosts_emits].
  intros e (host & Hin & He) h Hcall.
  destruct e; simpl in *; try done; injection Hcall as ->;
    unfold deployHost_event in He; simpl in He;
    repeat match goal with
           | H : _ \/ _ |- _ => destruct H
           | H : _ /\ _ |- _ => destruct H
           | H : False |- _ => destruct H
           | H : _ ∈ [_] |- _ => apply list_elem_of_singleton in H; subst
           end; subst; done.
Qed.

(** C1.  With the health checks on, suppose the history that the loop over
    [hosts] adds contains a failed health check, of [host].  Then the run
    ended in [os.Exit(1)]; after the failed check only the notice was printed,
    so no host was pushed to, sent a secret or activated afterwards; and
    [host] is at some position of [hosts] such that the run is the run over
    the hosts up to and including it: the later hosts took no part, and every
    push, secret upload and activation of the run went to a host up to that
    position, where the history keeps them as they happened. *)
Theorem deploy_halts_at_failed_health_check (hosts : list Host)
    (resultPath sudoPasswd : string) (vc : option Client) (s : State)
    (d d' : History) (host : Host) (timeout : Z) (err : error) :
  deploySkipHealthChecks cfg = false ->
  emitted (deployHosts W cfg hosts resultPath sudoPasswd vc) s =
    d ++ EvHealthChecksPerform host timeout (Some err) :: d' ->
  fst (deployHosts W cfg hosts resultPath sudoPasswd vc s) = Exit 1 /\
  d' = halt_notice /\
  exists pre post,
    hosts = pre ++ host :: post /\
    deployHosts W cfg (pre ++ [host]) resultPath sudoPasswd vc s =
      deployHosts W cfg hosts resultPath sudoPasswd vc s /\
    Forall (fun e => forall h, remote_call e = Some h -> h ∈ pre ++ [host]) d.
Proof.
  intros Hskip. revert vc s d.
  induction hosts as [|host0 rest IH]; intros vc s d Heq.
  { unfold emitted in Heq. simpl in Heq. rewrite drop_all in Heq.
    by destruct d. }
  rewrite emitted_deployHosts_cons in Heq.
  pose proof (deployHost_gate W cfg (trace s) resultPath sudoPasswd host0 vc Hskip s) as Hgate.
  assert (Hgrow : trace (snd (deployHost W cfg resultPath sudoPasswd host0 vc s)) =
            trace s ++ emitted (deployHost W cfg resultPath sudoPasswd host0 vc) s).
  { eapply grows_emitted. apply deployHost_emits. }
  rewrite deployHosts_cons.
  destruct (deployHost W cfg resultPath sudoPasswd host0 vc s) as [[vc1|e|code] s1] eqn:Hrun;
    simpl in Hgate, Hgrow.
  - (* the host is done: the failed check is one of a later host *)
    destruct Hgate as (d0 & Ht & Hd0); [exists []; by rewrite app_nil_r|].
    rewrite Hgrow in Ht. apply app_inv_head in Ht. rewrite Ht in Heq.
    destruct (marked_later failed_health_check d0 _ d d'
                (EvHealthChecksPerform host timeout (Some err)) Hd0 eq_refl Heq)
      as (d2 & -> & Hrest).
    destruct (IH vc1 s1 d2 Hrest) as (Hexit & Hd' & pre & post & -> & Hsame & Hcalls).
    split; [done|]. split; [done|].
    exists (host0 :: pre), post. split; [done|]. split.
    + simpl. rewrite deployHosts_cons, Hrun. exact Hsame.
    + apply Forall_app. split.
      * rewrite <- Ht.
        pose proof (deployHosts_remote_calls [host0] resultPath sudoPasswd vc s) as H0.
        rewrite emitted_deployHosts_cons, Hrun in H0. apply Forall_app in H0 as [H0 _].
        eapply Forall_impl; [exact H0|]. intros e He h Hcall.
        apply He, list_elem_of_singleton in Hcall as ->. by left.
      * eapply Forall_impl; [exact Hcalls|]. intros e He h Hcall.
        right. by apply He.
  - (* the host panicked: no health check failed at all *)
    destruct Hgate as (d0 & Ht & Hd0); [exists []; by rewrite app_nil_r|].
    rewrite Hgrow in Ht. apply app_inv_head in Ht. rewrite Ht, app_nil_r in Heq.
    rewrite Heq in Hd0. apply Forall_app in Hd0 as [_ Hd0].
    by apply Forall_cons in Hd0 as [Hd0 _].
  - (* the host failed its health check: this is the check *)
    destruct Hgate as (-> & err0 & d0 & Ht & Hd0); [exists []; by rewrite app_nil_r|].
    rewrite Hgrow in Ht. apply app_inv_head in Ht. rewrite Ht, app_nil_r in Heq.
    destruct (marked_once failed_health_check d0 halt_notice d d'
                (EvHealthChecksPerform host0 (deployHealthCheckTimeout cfg) (Some err0))
                (EvHealthChecksPerform host timeout (Some err))
                Hd0 halt_notice_calm eq_refl eq_refl Heq) as (-> & Hev & ->).
    injection Hev as -> _ _.
    split; [done|]. split; [done|].
    exists [], rest. split; [done|]. split.
    + simpl. by rewrite deployHosts_cons, Hrun.
    + pose proof (deployHosts_remote_calls [host0] resultPath sudoPasswd vc s) as H0.
      rewrite emitted_deployHosts_cons, Hrun, app_nil_r, Ht in H0.
      by apply Forall_app in H0 as [H0 _].
Qed.

End Halting.

Lemma deploy_halts_at_failed_health_check_witness :
  let hosts := [Sample.plainHost "A"; Sample.plainHost "B"; Sample.plainHost "C"] in
  let W := Sample.world hosts Sample.noEnv true true [] [] [] ["B"] in
  let cfg := Sample.config false "switch" in
  let s := snd (resolvePlan cfg initial) in
  let run := deployHosts W cfg hosts "/nix/store/result" "" None in
  let d := take 26 (emitted run s) in
  deploySkipHealthChecks cfg = false /\
  emitted run s =
    d ++ EvHealthChecksPerform (Sample.plainHost "B") 0 (Some "failed") :: halt_notice /\
  fst (run s) = Exit 1 /\
  exists pre post,
    hosts = pre ++ Sample.plainHost "B" :: post /\
    deployHosts W cfg (pre ++ [Sample.plainHost "B"]) "/nix/store/result" "" None s = run s /\
    Forall (fun e => forall h, remote_call e = Some h -> h ∈ pre ++ [Sample.plainHost "B"]) d.
Proof.
  intros hosts W cfg s run d.
  assert (Hskip : deploySkipHealthChecks cfg = false) by reflexivity.
  assert (Heq : emitted run s =
            d ++ EvHealthChecksPerform (Sample.plainHost "B") 0 (Some "failed") :: halt_notice)
    by (vm_compute; reflexivity).
  split; [exact Hskip|]. split; [exact Heq|].
  destruct (deploy_halts_at_failed_health_check W cfg hosts "/nix/store/result" "" None s
              d halt_notice (Sample.plainHost "B") 0 "failed" Hskip Heq)
    as (Hexit & _ & Hrest).
  split; [exact Hexit | exact Hrest].
Defined.

(** *** The exit status of the process *)

Section Exit_status.

Variable W : World.
Variable cfg : Config.
Hypothesis checks_on : deploySkipHealthChecks cfg = false.

Lemma deployHosts_gate t0 hosts resultPath sudoPasswd vc :
  hoare (fun s => calm_since t0 (trace s))
        (deployHosts W cfg hosts resultPath sudoPasswd vc)
        (halt_post cfg t0).
Proof.
  unfold deployHosts. revert vc. induction hosts as [|host hosts IH]; intros vc.
  - by apply hoare_ret.
  - simpl. eapply (hoare_bind _ _ _ (gate_post cfg t0 host)).
    + by apply deployHost_gate.
    + intros vc'. apply IH.
    + done.
    + intros code s [-> Hs]. split; [done | by exists host].
Qed.

Lemma doDeploy_gate t0 :
  hoare (fun s => calm_since t0 (trace s)) (doDeploy W cfg) (halt_post cfg t0).
Proof.
  unfold doDeploy.
  apply hoare_then; [| | intros _ | done].
  { intros s code. by rewrite resolvePlan_returns. }
  { eapply hoare_calm; [apply (resolvePlan_emits (fun _ => False))|]. done. }
  apply hoare_then; [| | intros [hosts resultPath] | done].
  { by_quiet (build_quiet W cfg). }
  { eapply hoare_calm; [apply quiet_emits, build_quiet|]. by intros []. }
  apply hoare_then; [apply Println_no_exit | apply Println_calm | intros _ | done].
  apply hoare_then; [apply no_exit_get | apply hoare_get | intros askPass | done].
  apply hoare_then; [| | intros sudoPasswd | done].
  { destruct askPass; [|by intros s code].
    unfold_prints. run_down. by_quiet (askForSudoPassword_quiet W). }
  { destruct askPass; [|by apply hoare_ret].
    eapply hoare_calm; [|intros e He; exact He].
    unfold_prints. run_down; try done. by_quiet (askForSudoPassword_quiet W). }
  eapply (hoare_bind _ _ _ (halt_post cfg t0));
    [apply deployHosts_gate | intros vc' | done | done].
  by apply hoare_ret.
Qed.

Lemma main_gate t0 :
  hoare (fun s => calm_since t0 (trace s)) (main W cfg "deploy") (halt_post cfg t0).
Proof.
  unfold main. simpl.
  eapply (hoare_bind _ _ _ (halt_post cfg t0));
    [apply doDeploy_gate | intros [] | done | done].
  eapply hoare_calm; [apply (emits_emit (fun e => failed_health_check e = false))|];
    done.
Qed.

(** When the history that [main] adds for [deploy] holds a failed health
    check, the process has exited with status 1 right after the notice that
    follows the check: neither another host nor the teardown was reached. *)
Lemma main_exits_with_status_1 s d d' host timeout err :
  emitted (main W cfg "deploy") s =
    d ++ EvHealthChecksPerform host timeout (Some err) :: d' ->
  fst (main W cfg "deploy" s) = Exit 1 /\ d' = halt_notice.
Proof.
  intros Heq.
  assert (Hpost : halt_post cfg (trace s) (fst (main W cfg "deploy" s))
                    (snd (main W cfg "deploy" s))).
  { apply main_gate. exists []. by rewrite app_nil_r. }
  unfold emitted in Heq.
  destruct (main W cfg "deploy" s) as [[[]|e|code] s1]; simpl in *.
  - destruct Hpost as (d0 & Ht & Hd0). rewrite Ht, drop_app_length in Heq.
    rewrite Heq in Hd0. apply Forall_app in Hd0 as [_ Hd0].
    by apply Forall_cons in Hd0 as [Hd0 _].
  - destruct Hpost as (d0 & Ht & Hd0). rewrite Ht, drop_app_length in Heq.
    rewrite Heq in Hd0. apply Forall_app in Hd0 as [_ Hd0].
    by apply Forall_cons in Hd0 as [Hd0 _].
  - destruct Hpost as (-> & host0 & err0 & d0 & Ht & Hd0).
    rewrite Ht, drop_app_length in Heq.
    destruct (marked_once failed_health_check d0 halt_notice d d'
                (EvHealthChecksPerform host0 (deployHealthCheckTimeout cfg) (Some err0))
                (EvHealthChecksPerform host timeout (Some err))
                Hd0 halt_notice_calm eq_refl eq_refl Heq) as (_ & _ & ->).
    done.
Qed.

End Exit_status.

(** ** The Vault session across the hosts *)

Lemma disciplined_app st d1 d2 :
  disciplined st (d1 ++ d2) <->
  disciplined st d1 /\ disciplined (foldl session_after st d1) d2.
Proof.
  revert st. induction d1 as [|e d1 IH]; intros st; simpl.
  - tauto.
  - rewrite IH. tauto.
Qed.

Lemma disciplined_uses_client c d :
  Forall (uses_client c) d ->
  disciplined (Some c) d /\ foldl session_after (Some c) d = Some c.
Proof.
  induction 1 as [|e d He Hd [IH1 IH2]]; simpl; [done|].
  assert (session_after (Some c) e = Some c) as ->.
  { destruct He as [He _]. by destruct e as [| | | | | | | |? []| | | | | | | | | |]. }
  done.
Qed.

Lemma uses_client_disciplined c d :
  disciplined (Some c) d -> Forall (uses_client c) d.
Proof.
  induction d as [|e d IH]; simpl; [constructor|].
  intros [He Hd]. constructor; [done|]. apply IH.
  assert (session_after (Some c) e = Some c) as <-; [|done].
  destruct He as [He _]. by destruct e as [| | | | | | | |? []| | | | | | | | | |].
Qed.

Lemma disciplined_no_vault st d :
  Forall no_vault d -> disciplined st d /\ foldl session_after st d = st.
Proof.
  induction 1 as [|e d He Hd [IH1 IH2]]; simpl; [done|].
  assert (session_after st e = st) as -> by (by destruct e).
  split; [|done]. split; [|done].
  destruct st as [c|]; [|by destruct e]. split; by destruct e.
Qed.

Lemma disciplined_without_session d :
  Forall without_session d ->
  disciplined None d /\ foldl session_after None d = None.
Proof.
  induction 1 as [|e d He Hd [IH1 IH2]]; simpl; [done|].
  assert (session_after None e = None) as ->.
  { by destruct e as [| | | | | | | |? []| | | | | | | | | |]. }
  split; [|done]. split; [|done]. by destruct e.
Qed.

(** Without a session at the end there was none on the way. *)
Lemma without_session_disciplined d :
  disciplined None d -> foldl session_after None d = None -> Forall without_session d.
Proof.
  induction d as [|e d IH]; simpl; [constructor|].
  intros [He Hd] Hend.
  destruct (session_after None e) as [c|] eqn:E.
  - apply uses_client_disciplined, disciplined_uses_client in Hd as [_ Hd].
    congruence.
  - constructor; [|by apply IH].
    destruct e as [| | | | | | | |? []| | | | | | | | | |]; done.
Qed.

Lemma session_since_refl t : session_since t None t.
Proof. exists []. by rewrite app_nil_r. Qed.

Lemma session_since_no_vault t0 st t d :
  session_since t0 st t -> Forall no_vault d -> session_since t0 st (t ++ d).
Proof.
  intros (d0 & -> & Hd0 & Hst) Hd. exists (d0 ++ d).
  split; [by rewrite app_assoc|].
  destruct (disciplined_no_vault st d Hd) as [H1 H2].
  rewrite disciplined_app, foldl_app, Hst. done.
Qed.

Lemma session_since_uses_client t0 c t d :
  session_since t0 (Some c) t -> Forall (uses_client c) d ->
  session_since t0 (Some c) (t ++ d).
Proof.
  intros (d0 & -> & Hd0 & Hst) Hd. exists (d0 ++ d).
  split; [by rewrite app_assoc|].
  destruct (disciplined_uses_client c d Hd) as [H1 H2].
  rewrite disciplined_app, foldl_app, Hst. done.
Qed.

Lemma session_since_without_session t0 t d :
  session_since t0 None t -> Forall without_session d ->
  session_since t0 None (t ++ d).
Proof.
  intros (d0 & -> & Hd0 & Hst) Hd. exists (d0 ++ d).
  split; [by rewrite app_assoc|].
  destruct (disciplined_without_session d Hd) as [H1 H2].
  rewrite disciplined_app, foldl_app, Hst. done.
Qed.

Lemma session_since_established t0 t addr rootToken c :
  session_since t0 None t ->
  session_since t0 (Some c)
    (t ++ [EvVaultAuth addr rootToken (Ok c); EvVaultConfigure c None]).
Proof.
  intros (d0 & -> & Hd0 & Hst).
  exists (d0 ++ [EvVaultAuth addr rootToken (Ok c); EvVaultConfigure c None]).
  split; [by rewrite app_assoc|].
  rewrite disciplined_app, foldl_app, Hst. done.
Qed.

Section Session.

Variable W : World.
Variable cfg : Config.

(** [vaultInit] either returns a client, after one authentication and one
    configuration that both succeeded, or returns none. *)
Lemma vaultInit_cases s :
  (exists c,
     vaultInit W s =
       (Normal (Some c),
        log_all [EvVaultAuth (os_Getenv W "VAULT_ADDR") (os_Getenv W "VAULT_TOKEN") (Ok c);
                 EvVaultConfigure c None] s)) \/
  (fst (vaultInit W s) = Normal None /\
   exists d, trace (snd (vaultInit W s)) = trace s ++ d /\ Forall without_session d).
Proof.
  unfold vaultInit.
  destruct ((1 <? slen (os_Getenv W "VAULT_ADDR"))%Z &&
            (1 <? slen (os_Getenv W "VAULT_TOKEN"))%Z).
  - unfold vault_Auth, vault_Configure, printVaultWarning, Eprintln, Eprint, emit,
      bind, call, ret. cbn.
    destruct (ask_vault_Auth W _ _ _) as [c|err]; cbn.
    + destruct (ask_vault_Configure W _ _) as [err|]; cbn.
      * right. split; [done|]. eexists. rewrite <- !app_assoc. split; [reflexivity|].
        simpl. by repeat constructor.
      * left. exists c. unfold log_all, log. simpl. by rewrite <- app_assoc.
    + right. split; [done|]. eexists. rewrite <- !app_assoc. split; [reflexivity|].
      simpl. by repeat constructor.
  - right. unfold Eprintln, emit, bind, ret. simpl.
    split; [done|]. eexists. rewrite <- !app_assoc. split; [reflexivity|].
    simpl. by repeat constructor.
Qed.

(** With a client in hand, every Vault call goes through it. *)
Lemma rekeyStep_uses_client host sudoPasswd c :
  emits (uses_client c) (rekeyStep W cfg host sudoPasswd c).
Proof.
  unfold rekeyStep. unfold_prints. run_down; try done.
  eapply emits_weaken; [|apply vaultReKey_emits].
  intros []; simpl; try done. by intros [-> _].
Qed.

Lemma rekeyStep_session t0 host sudoPasswd c :
  hoare (fun s => session_since t0 (Some c) (trace s))
        (rekeyStep W cfg host sudoPasswd c)
        (fun _ s => session_since t0 (Some c) (trace s)).
Proof.
  eapply hoare_emits; [apply rekeyStep_uses_client|].
  intros t d. apply session_since_uses_client.
Qed.

Lemma vaultInit_session t0 :
  hoare (fun s => session_since t0 None (trace s)) (vaultInit W) (session_post t0).
Proof.
  intros s Hs. destruct (vaultInit_cases s) as [(c & ->)|(Hr & d & Ht & Hd)].
  - simpl. by apply session_since_established.
  - rewrite Hr. simpl. rewrite Ht. by apply session_since_without_session.
Qed.

Lemma vaultStep_session t0 host sudoPasswd vc :
  hoare (fun s => session_since t0 vc (trace s))
        (vaultStep W cfg host sudoPasswd vc)
        (session_post t0).
Proof.
  unfold vaultStep. destruct (Enable (Vault host)); [|by apply hoare_ret].
  eapply (hoare_bind _ _ _ (session_post t0)).
  - destruct vc as [c|]; [by apply hoare_ret | apply vaultInit_session].
  - intros [c|].
    + eapply (hoare_bind _ _ _ (fun _ s => session_since t0 (Some c) (trace s))).
      * apply rekeyStep_session.
      * intros _. by apply hoare_ret.
      * intros e s Hs. by exists (Some c).
      * intros code s Hs. by exists (Some c).
    + eapply (hoare_bind _ _ _ (fun _ s => session_since t0 None (trace s))).
      * by apply hoare_ret.
      * intros _. by apply hoare_ret.
      * intros e s Hs. by exists None.
      * intros code s Hs. by exists None.
  - done.
  - done.
Qed.

(** A statement without any Vault call leaves the session as it is. *)
Lemma hoare_no_vault {A} (P : Event -> Prop) t0 st (m : M A) :
  emits P m -> (forall e, P e -> no_vault e) ->
  hoare (fun s => session_since t0 st (trace s)) m
        (fun _ s => session_since t0 st (trace s)).
Proof.
  intros Hm HP. eapply hoare_emits.
  - eapply emits_weaken; [exact HP | exact Hm].
  - intros t d. apply session_since_no_vault.
Qed.

Lemma Println_session t0 st text :
  hoare (fun s => session_since t0 st (trace s)) (Println text)
        (fun _ s => session_since t0 st (trace s)).
Proof. eapply hoare_no_vault; [apply (emits_emit no_vault)|]; done. Qed.

Lemma deployHost_session t0 resultPath sudoPasswd host vc :
  hoare (fun s => session_since t0 vc (trace s))
        (deployHost W cfg resultPath sudoPasswd host vc)
        (session_post t0).
Proof.
  unfold deployHost.
  inv_seq; [apply hoare_get|].
  inv_seq.
  { apply hoare_when. eapply hoare_no_vault; [apply quiet_emits, pushPaths_quiet|].
    by intros []. }
  inv_seq; [apply Println_session|].
  eapply (hoare_bind _ _ _ (session_post t0));
    [apply vaultStep_session | intros vc' | done | done].
  simpl.
  inv_seq; [apply hoare_get|].
  inv_seq.
  { apply hoare_when. eapply hoare_no_vault; [apply quiet_emits, uploadSecrets_quiet|].
    by intros []. }
  inv_seq; [apply hoare_get|].
  inv_seq.
  { apply hoare_when.
    eapply hoare_no_vault; [apply quiet_emits, activateConfiguration_quiet|].
    by intros []. }
  inv_seq.
  { eapply hoare_no_vault; [apply healthGate_emits|]. by intros []. }
  inv_seq; [apply Println_session|].
  by apply hoare_ret.
Qed.

Lemma deployHosts_session t0 hosts resultPath sudoPasswd vc :
  hoare (fun s => session_since t0 vc (trace s))
        (deployHosts W cfg hosts resultPath sudoPasswd vc)
        (session_post t0).
Proof.
  unfold deployHosts. revert vc. induction hosts as [|host hosts IH]; intros vc.
  - by apply hoare_ret.
  - simpl. eapply (hoare_bind _ _ _ (session_post t0));
      [apply deployHost_session | intros vc'; apply IH | done | done].
Qed.

Lemma doDeploy_session t0 :
  hoare (fun s => session_since t0 None (trace s)) (doDeploy W cfg)
        (fun _ s => exists st, session_since t0 st (trace s)).
Proof.
  unfold doDeploy.
  inv_seq.
  { eapply hoare_no_vault; [apply (resolvePlan_emits no_vault)|]. done. }
  inv_seq_as built.
  { eapply hoare_no_vault; [apply quiet_emits, build_quiet|]. by intros []. }
  destruct built as [hosts resultPath].
  inv_seq; [apply Println_session|].
  inv_seq_as askPass; [apply hoare_get|].
  inv_seq_as sudoPasswd.
  { destruct askPass.
    - eapply hoare_no_vault; [|intros e He; exact He].
      unfold_prints. run_down; try done.
      by_quiet (askForSudoPassword_quiet W).
    - by apply hoare_ret. }
  eapply (hoare_bind _ _ _ (session_post t0)).
  - apply deployHosts_session.
  - intros vc'. apply hoare_ret. intros s Hs. by exists vc'.
  - done.
  - done.
Qed.

End Session.

(** ** The dynamic credential of a host *)

Section Credential.

Variable W : World.
Variable cfg : Config.

(** [vaultReKey] for one host: either it returns the secret of the host,
    having written the credential file, or it returns none and has written
    nothing. *)
Lemma vaultReKey_cases c host s :
  (exists creds,
     fst (vaultReKey W cfg c [host] s) = Normal (Some (credentialSecret cfg host)) /\
     trace (snd (vaultReKey W cfg c [host] s)) = trace s ++ rekeyed_events cfg c host creds /\
     files (snd (vaultReKey W cfg c [host] s)) =
       <[tempFile cfg := credentialText creds]> (<[tempFile cfg := ""]> (files s))) \/
  (fst (vaultReKey W cfg c [host] s) = Normal None /\
   files (snd (vaultReKey W cfg c [host] s)) = files s /\
   exists d, trace (snd (vaultReKey W cfg c [host] s)) = trace s ++ d /\
             Forall without_credential d /\ rekeyed_but_not_opened cfg d).
Proof.
  unfold vaultReKey, vault_CreateOrReKeyHostToken, os_OpenFile, write_file,
    printVaultWarning, Print, Println, Eprintln, Eprint, emit, bind, call, ret. cbn.
  destruct (ask_vault_CreateOrReKeyHostToken W _ _ _) as [creds|err]; cbn.
  - destruct (ask_os_OpenFile W _ _) as [err|]; cbn.
    + right. split; [done|]. split; [done|]. eexists.
      rewrite <- !app_assoc. split; [reflexivity|]. simpl.
      split; [by repeat constructor|].
      intros c' h' creds' _. exists err. right. by left.
    + left. exists creds. split; [done|]. split; [|done].
      rewrite <- !app_assoc. done.
  - right. split; [done|]. split; [done|]. eexists.
    rewrite <- !app_assoc. split; [reflexivity|]. simpl.
    split; [by repeat constructor|].
    intros c' h' creds' Hin.
    repeat (apply elem_of_cons in Hin as [Hin|Hin]; [done|]).
    by apply elem_of_nil in Hin.
Qed.

(** The block that runs with a client in hand: either the credential is
    written, uploaded and removed, or nothing is written and nothing uploaded. *)
Lemma rekeyStep_cases host sudoPasswd c s :
  (exists creds r removed,
     fst (rekeyStep W cfg host sudoPasswd c s) = Normal tt /\
     trace (snd (rekeyStep W cfg host sudoPasswd c s)) =
       trace s ++ rekeyed_events cfg c host creds ++
         [EvUploadSecret host sudoPasswd (credentialSecret cfg host) "./" r;
          EvRemove (tempFile cfg) removed] /\
     files (snd (rekeyStep W cfg host sudoPasswd c s)) =
       files_after_removal cfg creds removed (files s)) \/
  (fst (rekeyStep W cfg host sudoPasswd c s) = Normal tt /\
   files (snd (rekeyStep W cfg host sudoPasswd c s)) = files s /\
   exists d, trace (snd (rekeyStep W cfg host sudoPasswd c s)) = trace s ++ d /\
             Forall without_credential d /\ rekeyed_but_not_opened cfg d).
Proof.
  unfold rekeyStep, bind.
  destruct (vaultReKey_cases c host s)
    as [(creds & Hr & Ht & Hf)|(Hr & Hf & d & Ht & Hd & Ho)];
    destruct (vaultReKey W cfg c [host] s) as [r0 s1]; simpl in Hr, Ht, Hf; subst r0.
  - left. exists creds. unfold secrets_UploadSecret, call, os_Remove. cbn.
    set (r := ask_secrets_UploadSecret W _ _ _ _ _).
    destruct (ask_os_Remove W _ _) as [err|]; [exists r, (Some err) | exists r, None];
      (split; [done|]; split; [simpl; by rewrite Ht, <- !app_assoc|]); simpl; rewrite Hf.
    + by rewrite insert_insert_eq.
    + by rewrite !delete_insert_eq.
  - right. cbn. split; [done|]. split; [done|]. by exists d.
Qed.

Lemma vaultInit_event_without_credential e : vaultInit_event e -> without_credential e.
Proof. by destruct e. Qed.

(** The Vault step of a host: either it ends with the upload and the removal
    of the credential file, or no credential file is involved at all. *)
Lemma vaultStep_cases host sudoPasswd vc s :
  (exists c creds d0 r removed,
     fst (vaultStep W cfg host sudoPasswd vc s) = Normal (Some c) /\
     emitted (vaultStep W cfg host sudoPasswd vc) s =
       d0 ++ rekeyed_events cfg c host creds ++
         [EvUploadSecret host sudoPasswd (credentialSecret cfg host) "./" r;
          EvRemove (tempFile cfg) removed] /\
     Forall (fun e => session_setup e = true /\ before_upload e) d0 /\
     files (snd (vaultStep W cfg host sudoPasswd vc s)) =
       files_after_removal cfg creds removed (files s)) \/
  (exists vc',
     fst (vaultStep W cfg host sudoPasswd vc s) = Normal vc' /\
     files (snd (vaultStep W cfg host sudoPasswd vc s)) = files s /\
     Forall without_credential (emitted (vaultStep W cfg host sudoPasswd vc) s) /\
     rekeyed_but_not_opened cfg (emitted (vaultStep W cfg host sudoPasswd vc) s)).
Proof.
  unfold emitted, vaultStep. destruct (Enable (Vault host)).
  2:{ right. exists vc. simpl. rewrite drop_all. repeat split; [done|].
      intros c h creds Hin. by apply elem_of_nil in Hin. }
  destruct vc as [c|].
  - (* with the client of an earlier host *)
    unfold bind, ret.
    destruct (rekeyStep_cases host sudoPasswd c s)
      as [(creds & r & removed & Hr & Ht & Hf)|(Hr & Hf & d & Ht & Hd & Ho)];
      destruct (rekeyStep W cfg host sudoPasswd c s) as [r0 s2]; simpl in Hr, Ht, Hf;
      subst r0; simpl.
    + left. exists c, creds, [], r, removed. rewrite Ht, drop_app_length. done.
    + right. exists (Some c). rewrite Ht, drop_app_length. done.
  - (* without a client: [vaultInit] first *)
    unfold bind.
    destruct (vaultInit_cases W s) as [(c & Hinit)|(Hnone & _)].
    + rewrite Hinit.
      set (s1 := log_all _ s).
      destruct (rekeyStep_cases host sudoPasswd c s1)
        as [(creds & r & removed & Hr & Ht & Hf)|(Hr & Hf & d & Ht & Hd & Ho)];
        destruct (rekeyStep W cfg host sudoPasswd c s1) as [r0 s2]; simpl in Hr, Ht, Hf;
        subst r0; simpl.
      * left. eexists c, creds, [_; _], r, removed. split; [done|].
        rewrite Ht. subst s1. simpl. rewrite <- !app_assoc, drop_app_length.
        split; [reflexivity|]. split; [|done]. by repeat constructor.
      * right. exists (Some c). split; [done|]. split; [done|].
        rewrite Ht. subst s1. simpl. rewrite <- !app_assoc, drop_app_length.
        simpl. split; [repeat (constructor; [done|]); exact Hd|].
        intros c' h' creds' Hin.
        do 2 (apply elem_of_cons in Hin as [Hin|Hin]; [done|]).
        destruct (Ho c' h' creds' Hin) as [err Herr]. exists err. by do 2 right.
    + destruct (vaultInit_quiet W s) as (_ & Hf & _ & d & Ht & Hd).
      destruct (vaultInit W s) as [r0 s1]; simpl in Hnone, Hf, Ht; subst r0; simpl.
      right. exists None. split; [done|]. split; [done|].
      rewrite Ht, drop_app_length. split.
      * eapply Forall_impl; [exact Hd | apply vaultInit_event_without_credential].
      * intros c' h' creds' Hin. rewrite Forall_forall in Hd.
        by apply Hd in Hin.
Qed.

End Credential.

(** No authentication, configuration or later step is a rekey that succeeded. *)
Lemma rekey_among_the_events cfg c host creds c' creds' (d0 tail : History) :
  Forall (fun e => session_setup e = true /\ before_upload e) d0 ->
  Forall (fun e => match e with EvCreateOrReKeyHostToken _ _ _ => False | _ => True end) tail ->
  EvCreateOrReKeyHostToken c' host (Ok creds') ∈ d0 ++ rekeyed_events cfg c host creds ++ tail ->
  c' = c /\ creds' = creds.
Proof.
  intros Hd0 Htail Hin. rewrite !elem_of_app in Hin. destruct Hin as [Hin|[Hin|Hin]].
  - rewrite Forall_forall in Hd0. by destruct (Hd0 _ Hin) as [? _].
  - unfold rekeyed_events in Hin.
    apply elem_of_cons in Hin as [Hin|Hin]; [by injection Hin as -> ->|].
    repeat (apply elem_of_cons in Hin as [Hin|Hin]; [done|]).
    by apply elem_of_nil in Hin.
  - rewrite Forall_forall in Htail. by apply Htail in Hin.
Qed.

(** C6, as the code has it.  When the rekey of a host succeeds in its Vault
    step, the step ends in one of two ways.  Either the credential is written
    to the temporary file, the upload of that file is attempted, and
    [os.Remove] is called on the file right after, whatever the upload
    answered [r]; what [os.Remove] answers is not looked at: when it succeeds
    the file does not exist when the step is over, when it fails the file is
    still there.  Or the temporary file could not be opened: no file was
    written, nothing is uploaded and the files are as before. *)
Theorem credential_file_is_removed (W : World) (cfg : Config) (host : Host)
    (sudoPasswd : string) (vc : option Client) (s : State)
    (c : Client) (creds : Credentials) :
  EvCreateOrReKeyHostToken c host (Ok creds) ∈ emitted (vaultStep W cfg host sudoPasswd vc) s ->
  (exists d0 r removed,
     emitted (vaultStep W cfg host sudoPasswd vc) s =
       d0 ++ rekeyed_events cfg c host creds ++
         [EvUploadSecret host sudoPasswd (credentialSecret cfg host) "./" r;
          EvRemove (Source (credentialSecret cfg host)) removed] /\
     Forall before_upload d0 /\
     match removed with
     | None => files (snd (vaultStep W cfg host sudoPasswd vc s)) !! tempFile cfg = None
     | Some _ => files (snd (vaultStep W cfg host sudoPasswd vc s)) !! tempFile cfg <> None
     end) \/
  (exists err,
     EvOpenFile (tempFile cfg) (Some err) ∈ emitted (vaultStep W cfg host sudoPasswd vc) s /\
     Forall without_credential (emitted (vaultStep W cfg host sudoPasswd vc) s) /\
     files (snd (vaultStep W cfg host sudoPasswd vc s)) = files s).
Proof.
  intros Hin.
  destruct (vaultStep_cases W cfg host sudoPasswd vc s)
    as [(c' & creds' & d0 & r & removed & Hr & Ht & Hd0 & Hf)|(vc' & Hr & Hf & Hd & Ho)].
  - left. rewrite Ht in Hin.
    apply rekey_among_the_events in Hin as [Hc Hcreds]; [|done|by repeat constructor].
    subst c' creds'. exists d0, r, removed. split; [exact Ht|]. split.
    + eapply Forall_impl; [exact Hd0|]. by intros e [_ He].
    + rewrite Hf. destruct removed; simpl.
      * by rewrite lookup_insert_eq.
      * apply lookup_delete_eq.
  - right. destruct (Ho _ _ _ Hin) as [err Herr]. by exists err.
Qed.

(** The Vault step of a host in which the upload of the rekeyed credential
    fails: the step returns, with the session; the failed upload is followed
    by the removal of the file and by nothing else; nothing was written to
    standard error in the step. *)
Lemma failed_upload_ends_the_step (W : World) (cfg : Config) (host : Host)
    (sudoPasswd : string) (vc : option Client) (s : State)
    (h : Host) (passwd : string) (secret : Secret) (dir : string) (err : error) :
  EvUploadSecret h passwd secret dir (Some err) ∈ emitted (vaultStep W cfg host sudoPasswd vc) s ->
  (exists c d removed,
     fst (vaultStep W cfg host sudoPasswd vc s) = Normal (Some c) /\
     emitted (vaultStep W cfg host sudoPasswd vc) s =
       d ++ [EvUploadSecret host sudoPasswd (credentialSecret cfg host) "./" (Some err);
             EvRemove (tempFile cfg) removed]) /\
  Forall (fun e => written_to_stderr e = false) (emitted (vaultStep W cfg host sudoPasswd vc) s).
Proof.
  intros Hin.
  destruct (vaultStep_cases W cfg host sudoPasswd vc s)
    as [(c & creds & d0 & r & removed & Hr & Ht & Hd0 & Hf)|(vc' & Hr & Hf & Hd & Ho)].
  - assert (r = Some err) as ->.
    { rewrite Ht in Hin. rewrite !elem_of_app in Hin. destruct Hin as [Hin|[Hin|Hin]].
      - rewrite Forall_forall in Hd0. by destruct (Hd0 _ Hin) as [? _].
      - unfold rekeyed_events in Hin.
        repeat (apply elem_of_cons in Hin as [Hin|Hin]; [done|]).
        by apply elem_of_nil in Hin.
      - apply elem_of_cons in Hin as [Hin|Hin]; [by injection Hin|].
        apply elem_of_cons in Hin as [Hin|Hin]; [done|].
        by apply elem_of_nil in Hin. }
    split.
    + exists c, (d0 ++ rekeyed_events cfg c host creds), removed. split; [exact Hr|].
      by rewrite <- app_assoc.
    + rewrite Ht. rewrite !Forall_app. split; [|split].
      * eapply Forall_impl; [exact Hd0|]. intros e [_ He]. by destruct e.
      * by repeat constructor.
      * by repeat constructor.
  - rewrite Forall_forall in Hd. by apply Hd in Hin.
Qed.

(** With an upload that fails and a removal that succeeds, the step ends in
    the first way: the file is written, the upload is attempted and fails,
    [os.Remove] is called and the file is gone. *)
Lemma credential_file_is_removed_witness :
  let host := Sample.vaultHost "A" in
  let W := Sample.world [host] Sample.vaultEnv true true [] ["A"] [] [] in
  let cfg := Sample.config false "switch" in
  let creds := {| Accessor := "acc-A"; Token := "tok-A" |} in
  let run := vaultStep W cfg host "" None in
  EvCreateOrReKeyHostToken 7%nat host (Ok creds) ∈ emitted run initial /\
  ((exists d0 r removed,
      emitted run initial =
        d0 ++ rekeyed_events cfg 7%nat host creds ++
          [EvUploadSecret host "" (credentialSecret cfg host) "./" r;
           EvRemove (Source (credentialSecret cfg host)) removed] /\
      Forall before_upload d0 /\
      match removed with
      | None => files (snd (run initial)) !! tempFile cfg = None
      | Some _ => files (snd (run initial)) !! tempFile cfg <> None
      end) \/
   (exists err,
      EvOpenFile (tempFile cfg) (Some err) ∈ emitted run initial /\
      Forall without_credential (emitted run initial) /\
      files (snd (run initial)) = files initial)) /\
  emitted run initial =
    [EvVaultAuth "http://vault:8200" "s.root" (Ok 7%nat); EvVaultConfigure 7%nat None] ++
    rekeyed_events cfg 7%nat host creds ++
    [EvUploadSecret host "" (credentialSecret cfg host) "./" (Some "failed");
     EvRemove (tempFile cfg) None] /\
  files (snd (run initial)) !! tempFile cfg = None.
Proof.
  intros host W cfg creds run.
  assert (Hin : EvCreateOrReKeyHostToken 7%nat host (Ok creds) ∈ emitted run initial)
    by (vm_compute; repeat constructor).
  split; [exact Hin|]. split.
  - exact (credential_file_is_removed W cfg host "" None initial 7%nat creds Hin).
  - split; vm_compute; reflexivity.
Defined.

(** The original statement fails when [os.Remove] does: the upload of the
    credential succeeds, [os.Remove] is called and fails, its error is
    dropped, and when [main] returns the file is still there. *)
Lemma credential_file_can_stay :
  let host := Sample.vaultHost "A" in
  let W := with_Remove (Sample.world [host] Sample.vaultEnv true true [] [] [] [])
             (fun _ _ => Some "permission denied") in
  let cfg := Sample.config false "switch" in
  let run := main W cfg "deploy" initial in
  fst run = Normal tt /\
  EvUploadSecret host "" (credentialSecret cfg host) "./" None ∈ trace (snd run) /\
  EvRemove (tempFile cfg) (Some "permission denied") ∈ trace (snd run) /\
  ~ (files (snd run) !! tempFile cfg = None).
Proof.
  intros host W cfg run. split; [vm_compute; reflexivity|].
  split; [vm_compute; repeat constructor|]. split; [vm_compute; repeat constructor|].
  vm_compute. discriminate.
Qed.

(** *** The credential file over a whole run *)

Section No_credential_file_left.

Variable W : World.
Variable cfg : Config.

Lemma hoare_absent {A} (P : Event -> Prop) t0 (m : M A) :
  emits P m -> keeps_files m ->
  hoare (credential_file_absent cfg t0) m (fun _ s => credential_file_absent cfg t0 s).
Proof.
  intros Hm Hf s (d & Ht & Hs). destruct (Hm s) as (d' & Ht' & _).
  exists (d ++ d'). split; [by rewrite Ht', Ht, app_assoc|].
  intros Hok. apply Forall_app in Hok as [Hok _]. rewrite (Hf s). by apply Hs.
Qed.

Lemma hoare_absent_quiet {A} (P : Event -> Prop) t0 (m : M A) :
  quiet P m ->
  hoare (credential_file_absent cfg t0) m (fun _ s => credential_file_absent cfg t0 s).
Proof.
  intros Hm. eapply hoare_absent; [by eapply quiet_emits | by eapply quiet_keeps_files].
Qed.

Lemma vaultStep_absent t0 host sudoPasswd vc :
  hoare (credential_file_absent cfg t0) (vaultStep W cfg host sudoPasswd vc)
        (fun _ s => credential_file_absent cfg t0 s).
Proof.
  intros s (d & Ht & Hs).
  destruct (grows_emitted _ _ s (vaultStep_emits W cfg host sudoPasswd vc)) as [Ht' _].
  exists (d ++ emitted (vaultStep W cfg host sudoPasswd vc) s).
  split; [by rewrite Ht', Ht, app_assoc|]. intros Hok.
  apply Forall_app in Hok as [Hok Hstep].
  destruct (vaultStep_cases W cfg host sudoPasswd vc s)
    as [(c & creds & d0 & r & removed & _ & Hd & _ & Hf)|(vc' & _ & Hf & _)]; rewrite Hf.
  - rewrite Hd in Hstep. rewrite !Forall_app in Hstep.
    destruct Hstep as (_ & _ & Hlast).
    apply Forall_cons in Hlast as [_ Hlast]. apply Forall_cons in Hlast as [Hlast _].
    destruct removed; [discriminate Hlast|]. apply lookup_delete_eq.
  - by apply Hs.
Qed.

Lemma deployHost_absent t0 resultPath sudoPasswd host vc :
  hoare (credential_file_absent cfg t0) (deployHost W cfg resultPath sudoPasswd host vc)
        (fun _ s => credential_file_absent cfg t0 s).
Proof.
  unfold deployHost.
  inv_seq; [apply hoare_get|].
  inv_seq; [apply hoare_when; eapply hoare_absent_quiet, pushPaths_quiet|].
  inv_seq; [eapply hoare_absent; [by apply (emits_emit (fun _ => True)) | apply keeps_files_emit]|].
  inv_seq; [apply vaultStep_absent|].
  inv_seq; [apply hoare_get|].
  inv_seq; [apply hoare_when; eapply hoare_absent_quiet, uploadSecrets_quiet|].
  inv_seq; [apply hoare_get|].
  inv_seq; [apply hoare_when; eapply hoare_absent_quiet, activateConfiguration_quiet|].
  inv_seq; [eapply hoare_absent; [apply healthGate_emits | apply healthGate_keeps_files]|].
  inv_seq; [eapply hoare_absent; [by apply (emits_emit (fun _ => True)) | apply keeps_files_emit]|].
  by apply hoare_ret.
Qed.

(** However [doDeploy] ends, it leaves no credential file behind, unless a
    call of [os.Remove] has failed. *)
Lemma doDeploy_leaves_no_credential_file s :
  files s !! tempFile cfg = None ->
  Forall (fun e => failed_removal e = false) (emitted (doDeploy W cfg) s) ->
  files (snd (doDeploy W cfg s)) !! tempFile cfg = None.
Proof.
  intros Hs Hok.
  assert (H : hoare (credential_file_absent cfg (trace s)) (doDeploy W cfg)
                (fun _ s' => credential_file_absent cfg (trace s) s')).
  { unfold doDeploy.
    inv_seq.
    { eapply hoare_absent; [apply (resolvePlan_emits (fun _ => True))|].
      intros s0. apply resolvePlan_trace. }
    inv_seq_as built; [eapply hoare_absent_quiet, build_quiet|].
    destruct built as [hosts resultPath].
    inv_seq; [eapply hoare_absent; [by apply (emits_emit (fun _ => True)) | apply keeps_files_emit]|].
    inv_seq_as askPass; [apply hoare_get|].
    inv_seq_as sudoPasswd.
    { destruct askPass; [|by apply hoare_ret].
      inv_seq; [eapply hoare_absent_quiet, askForSudoPassword_quiet|].
      inv_seq; [eapply hoare_absent; [by apply (emits_emit (fun _ => True)) | apply keeps_files_emit]|].
      inv_seq; [eapply hoare_absent; [by apply (emits_emit (fun _ => True)) | apply keeps_files_emit]|].
      by apply hoare_ret. }
    inv_seq; [|by apply hoare_ret].
    unfold deployHosts. generalize (@None Client) as vc.
    induction hosts as [|host hosts IH]; intros vc.
    - by apply hoare_ret.
    - simpl. inv_seq; [apply deployHost_absent | apply IH]. }
  destruct (H s) as (d & Ht & Hd); [exists []; by rewrite app_nil_r|].
  apply Hd. unfold emitted in Hok. by rewrite Ht, drop_app_length in Hok.
Qed.

End No_credential_file_left.

(** ** Runs without a plan *)

Section Without_plan.

Variable W : World.
Variable cfg : Config.

(** A statement that assigns no flag and emits only [planless] events. *)
Lemma hoare_planless {A} (P : Event -> Prop) t0 (m : M A) :
  emits P m -> keeps_plan m -> (forall e, P e -> planless e) ->
  hoare (planless_since t0) m (fun _ s => planless_since t0 s).
Proof.
  intros Hm Hp HP s [Hplan (d0 & Ht0 & Hd0)].
  destruct (Hm s) as (d & Ht & Hd). split.
  - rewrite <- Hplan. apply Hp.
  - exists (d0 ++ d). split; [by rewrite Ht, Ht0, app_assoc|].
    apply Forall_app. split; [done|]. eapply Forall_impl; eauto.
Qed.

Lemma Println_planless t0 text :
  hoare (planless_since t0) (Println text) (fun _ s => planless_since t0 s).
Proof.
  eapply (hoare_planless planless);
    [by apply emits_emit | apply keeps_plan_emit | done].
Qed.

(** Reading a flag of the plan gives [false]. *)
Lemma get_planless t0 (flag : State -> bool) :
  (forall s, plan s = (false, false, false, false) -> flag s = false) ->
  hoare (planless_since t0) (get flag)
        (fun r s => planless_since t0 s /\ r = Normal false).
Proof. intros Hflag s Hs. split; [done|]. simpl. f_equal. apply Hflag, Hs. Qed.

(** The rest of a computation, once the value it goes on with is known. *)
Lemma hoare_known {A B} (Pre : State -> Prop) (v : A) (k : A -> M B)
    (Post : Ctl B -> State -> Prop) :
  hoare Pre (k v) Post ->
  forall a, hoare (fun s => Pre s /\ Normal a = Normal v) (k a) Post.
Proof. intros H a s [Hs Ha]. injection Ha as ->. by apply H. Qed.

(** Reads the flag [flag], which is not set, and goes on. *)
Ltac planless_flag flag :=
  eapply hoare_bind;
    [ apply (get_planless _ flag); unfold plan; intros ? ?; congruence
    | apply hoare_known; simpl
    | by intros ? ? [? ?]
    | by intros ? ? [? ?] ].

Lemma deployHost_planless t0 resultPath sudoPasswd host vc :
  hoare (planless_since t0) (deployHost W cfg resultPath sudoPasswd host vc)
        (fun _ s => planless_since t0 s).
Proof.
  unfold deployHost.
  planless_flag doPush.
  inv_seq; [by apply hoare_ret|].
  inv_seq; [apply Println_planless|].
  inv_seq.
  { eapply hoare_planless; [apply vaultStep_emits | apply vaultStep_keeps_plan|].
    intros []; simpl; try done. by intros [_ ->]. }
  planless_flag doUploadSecrets.
  inv_seq; [by apply hoare_ret|].
  planless_flag doActivate.
  inv_seq; [by apply hoare_ret|].
  inv_seq.
  { eapply hoare_planless; [apply healthGate_emits | apply healthGate_keeps_plan|].
    by intros []. }
  inv_seq; [apply Println_planless|].
  by apply hoare_ret.
Qed.

Lemma deployHosts_planless t0 hosts resultPath sudoPasswd vc :
  hoare (planless_since t0) (deployHosts W cfg hosts resultPath sudoPasswd vc)
        (fun _ s => planless_since t0 s).
Proof.
  unfold deployHosts. revert vc. induction hosts as [|host hosts IH]; intros vc.
  - by apply hoare_ret.
  - simpl. inv_seq; [apply deployHost_planless | apply IH].
Qed.

(** Under [--dry-run] and in mode [build] the plan stays as it was. *)
Lemma resolvePlan_planless s :
  dryRun cfg = true \/ switchAction cfg = "build" ->
  plan (snd (resolvePlan cfg s)) = plan s.
Proof.
  unfold resolvePlan. intros [->| ->]; [done|]. by destruct (dryRun cfg).
Qed.

(** Under [--dry-run], and in mode [build], [doDeploy] pushes nothing, uploads
    no static secret and activates nothing, on any host: the one call that
    reaches a host is the upload of its dynamic credential. *)
Lemma doDeploy_planless s :
  dryRun cfg = true \/ switchAction cfg = "build" ->
  plan s = (false, false, false, false) ->
  Forall planless (emitted (doDeploy W cfg) s).
Proof.
  intros Hmode Hplan.
  assert (H : hoare (planless_since (trace s)) (doDeploy W cfg)
                (fun _ s' => planless_since (trace s) s')).
  { unfold doDeploy.
    inv_seq.
    { intros s0 [Hp0 (d0 & Ht0 & Hd0)]. split.
      - by rewrite resolvePlan_planless.
      - exists d0. by rewrite (proj1 (resolvePlan_trace cfg s0)). }
    inv_seq_as built.
    { eapply hoare_planless;
        [apply quiet_emits, build_quiet | by_quiet (build_quiet W cfg) | by intros []]. }
    destruct built as [hosts resultPath].
    inv_seq; [apply Println_planless|].
    planless_flag doAskPass.
    inv_seq; [by apply hoare_ret|].
    inv_seq; [apply deployHosts_planless|].
    by apply hoare_ret. }
  destruct (H s) as [_ (d & Ht & Hd)].
  { split; [done|]. exists []. by rewrite app_nil_r. }
  unfold emitted. by rewrite Ht, drop_app_length.
Qed.

End Without_plan.

(** C2.  Under [--dry-run], and in mode [build], no flag of the plan is set,
    and yet a host that takes a dynamic credential has its token rekeyed and
    the credential uploaded to it: the Vault block of the loop does not look
    at the plan. *)
Theorem credential_is_uploaded_without_plan :
  let host := Sample.vaultHost "A" in
  let W := Sample.world [host] Sample.vaultEnv true true [] [] [] [] in
  let dry := doDeploy W (Sample.config true "switch") initial in
  let build := doDeploy W (Sample.config false "build") initial in
  fst dry = Normal tt /\
  plan (snd dry) = (false, false, false, false) /\
  List.filter (fun e => bool_decide (is_Some (remote_call e))) (trace (snd dry)) =
    [EvUploadSecret host "" (credentialSecret (Sample.config true "switch") host) "./" None] /\
  fst build = Normal tt /\
  plan (snd build) = (false, false, false, false) /\
  List.filter (fun e => bool_decide (is_Some (remote_call e))) (trace (snd build)) =
    [EvUploadSecret host "" (credentialSecret (Sample.config false "build") host) "./" None].
Proof. vm_compute. done. Qed.

(** ** Failures of an upload, an activation, a transfer

    *** Failures that are fatal *)

Lemma hoare_for_each {A} (Inv : State -> Prop) (xs : list A) (body : A -> M unit)
    (Post : Ctl unit -> State -> Prop) :
  (forall x, hoare Inv (body x) Post) ->
  (forall s, Inv s -> Post (Normal tt) s) ->
  (forall s, Post (Normal tt) s -> Inv s) ->
  hoare Inv (for_each xs body) Post.
Proof.
  intros Hbody Hin Hout. unfold for_each.
  induction xs as [|x xs IH]; simpl.
  - by apply hoare_ret.
  - eapply hoare_bind; [apply Hbody | intros [] | done | done].
    intros s Hs. by apply IH, Hout.
Qed.

(** An event that [f] does not mark. *)
Lemma emit_unmarked f t0 e :
  f e = false ->
  hoare (fun s => unmarked_since f t0 (trace s)) (emit e)
        (fun _ s => unmarked_since f t0 (trace s)).
Proof.
  intros He. eapply hoare_unmarked; [apply (emits_emit (fun e => f e = false))|]; done.
Qed.

Lemma call_unmarked {R} f t0 (ask : History -> R) ev :
  (forall r, f (ev r) = false) ->
  hoare (fun s => unmarked_since f t0 (trace s)) (call ask ev)
        (fun _ s => unmarked_since f t0 (trace s)).
Proof.
  intros He. eapply hoare_unmarked; [apply (emits_call (fun e => f e = false))|]; done.
Qed.

(** A call whose answer may be the first marked event. *)
Lemma call_marks f t0 (ask : History -> option error) ev :
  (forall err, f (ev (Some err)) = true) -> f (ev None) = false ->
  hoare (fun s => unmarked_since f t0 (trace s)) (call ask ev)
        (fun r s => match r with
                    | Normal (Some err) => stopped_since f t0 (ev (Some err)) [] (trace s)
                    | Normal None => unmarked_since f t0 (trace s)
                    | _ => False
                    end).
Proof.
  intros Hsome Hnone s (d & Ht & Hd). unfold call. simpl.
  destruct (ask (trace s)) as [err|].
  - exists d. by rewrite Ht, <- app_assoc.
  - exists (d ++ [ev None]). split; [by rewrite Ht, app_assoc|].
    apply Forall_app. split; [done|]. by constructor.
Qed.

(** What is printed after the marked event joins what followed it. *)
Lemma emit_stopped f t0 e tail e' :
  hoare (fun s => stopped_since f t0 e tail (trace s)) (emit e')
        (fun r s => match r with
                    | Normal _ => stopped_since f t0 e (tail ++ [e']) (trace s)
                    | _ => False
                    end).
Proof.
  intros s (d & Ht & Hd). exists d. split; [|done].
  simpl. rewrite Ht, <- !app_assoc. done.
Qed.

Section Fatal.

Variable W : World.
Variable cfg : Config.

(** In [uploadSecrets] the first upload that fails ends the run in a panic
    with its error, after the word [Failed]. *)
Lemma uploadSecrets_fatal t0 hosts sudoPasswd :
  hoare (fun s => unmarked_since failed_upload t0 (trace s))
        (uploadSecrets W cfg hosts sudoPasswd)
        (fatal_post failed_upload upload_failed_with [EvStdout ("Failed" +:+ nl)] t0).
Proof.
  unfold uploadSecrets.
  apply hoare_for_each; [intros host | done | done].
  apply hoare_then;
    [apply no_exit_emit | by apply emit_unmarked | intros _ | by left].
  unfold range_Secrets.
  apply hoare_then; [apply no_exit_get | apply hoare_get | intros entries | by left].
  apply hoare_for_each; [intros [secretName secret] | done | done].
  apply hoare_then;
    [apply no_exit_call | by apply call_unmarked | intros [secretSize|err] | by left].
  2:{ intros s Hs. by left. }
  apply hoare_then;
    [apply no_exit_emit | by apply emit_unmarked | intros _ | by left].
  eapply hoare_bind; [by apply call_marks | | done | done].
  intros [err|]; simpl.
  - eapply hoare_bind; [apply emit_stopped | intros [] | done | done].
    intros s Hs. right. eexists. split; [|exact Hs]. by do 4 eexists.
  - by apply emit_unmarked.
Qed.

(** In [activateConfiguration] the first activation that fails ends the run
    in a panic with its error, at once. *)
Lemma activateConfiguration_fatal t0 hosts resultPath sudoPasswd :
  hoare (fun s => unmarked_since failed_activation t0 (trace s))
        (activateConfiguration W cfg hosts resultPath sudoPasswd)
        (fatal_post failed_activation activation_failed_with [] t0).
Proof.
  unfold activateConfiguration.
  apply hoare_then;
    [apply no_exit_emit | by apply emit_unmarked | intros _ | by left].
  apply hoare_then;
    [apply no_exit_emit | by apply emit_unmarked | intros _ | by left].
  apply hoare_for_each; [intros host | done | done].
  apply hoare_then;
    [apply no_exit_emit | by apply emit_unmarked | intros _ | by left].
  apply hoare_then;
    [apply no_exit_call | by apply call_unmarked | intros [configuration|err] | by left].
  2:{ intros s Hs. by left. }
  eapply hoare_bind; [by apply call_marks | | done | done].
  intros [err|]; simpl.
  - intros s Hs. right. eexists. split; [|exact Hs]. by do 4 eexists.
  - by apply emit_unmarked.
Qed.

(** A static secret upload that fails is fatal: [uploadSecrets] panics with
    its error, and after the failed upload only [Failed] is printed. *)
Lemma failed_static_upload_is_fatal hosts sudoPasswd s d d' host passwd secret dir err :
  emitted (uploadSecrets W cfg hosts sudoPasswd) s =
    d ++ EvUploadSecret host passwd secret dir (Some err) :: d' ->
  fst (uploadSecrets W cfg hosts sudoPasswd s) = Panic err /\
  d' = [EvStdout ("Failed" +:+ nl)].
Proof.
  intros Heq.
  pose proof (uploadSecrets_fatal (trace s) hosts sudoPasswd s) as Hpost.
  unfold emitted in Heq.
  destruct (uploadSecrets W cfg hosts sudoPasswd s) as [[[]|e|code] s1]; simpl in *.
  - destruct Hpost as (d0 & Ht & Hd0); [exists []; by rewrite app_nil_r|].
    rewrite Ht, drop_app_length in Heq. rewrite Heq in Hd0.
    apply Forall_app in Hd0 as [_ Hd0]. by apply Forall_cons in Hd0 as [Hd0 _].
  - destruct Hpost as [(d0 & Ht & Hd0)|(e0 & (h0 & p0 & s0 & dir0 & ->) & d0 & Ht & Hd0)];
      [exists []; by rewrite app_nil_r| |].
    + rewrite Ht, drop_app_length in Heq. rewrite Heq in Hd0.
      apply Forall_app in Hd0 as [_ Hd0]. by apply Forall_cons in Hd0 as [Hd0 _].
    + rewrite Ht, drop_app_length in Heq.
      destruct (marked_once failed_upload d0 [EvStdout ("Failed" +:+ nl)] d d'
                  (EvUploadSecret h0 p0 s0 dir0 (Some e))
                  (EvUploadSecret host passwd secret dir (Some err)))
        as (_ & Hev & ->); [done | by repeat constructor | done | done | done |].
      by injection Hev as _ _ _ _ ->.
  - destruct Hpost; exists []; by rewrite app_nil_r.
Qed.

(** An activation that fails is fatal: [activateConfiguration] panics with its
    error, and nothing follows the failed activation. *)
Lemma failed_activation_is_fatal hosts resultPath sudoPasswd s d d'
    host configuration action passwd err :
  emitted (activateConfiguration W cfg hosts resultPath sudoPasswd) s =
    d ++ EvActivateConfiguration host configuration action passwd (Some err) :: d' ->
  fst (activateConfiguration W cfg hosts resultPath sudoPasswd s) = Panic err /\ d' = [].
Proof.
  intros Heq.
  pose proof (activateConfiguration_fatal (trace s) hosts resultPath sudoPasswd s) as Hpost.
  unfold emitted in Heq.
  destruct (activateConfiguration W cfg hosts resultPath sudoPasswd s)
    as [[[]|e|code] s1]; simpl in *.
  - destruct Hpost as (d0 & Ht & Hd0); [exists []; by rewrite app_nil_r|].
    rewrite Ht, drop_app_length in Heq. rewrite Heq in Hd0.
    apply Forall_app in Hd0 as [_ Hd0]. by apply Forall_cons in Hd0 as [Hd0 _].
  - destruct Hpost as [(d0 & Ht & Hd0)|(e0 & (h0 & c0 & a0 & p0 & ->) & d0 & Ht & Hd0)];
      [exists []; by rewrite app_nil_r| |].
    + rewrite Ht, drop_app_length in Heq. rewrite Heq in Hd0.
      apply Forall_app in Hd0 as [_ Hd0]. by apply Forall_cons in Hd0 as [Hd0 _].
    + rewrite Ht, drop_app_length in Heq.
      destruct (marked_once failed_activation d0 [] d d'
                  (EvActivateConfiguration h0 c0 a0 p0 (Some e))
                  (EvActivateConfiguration host configuration action passwd (Some err)))
        as (_ & Hev & ->); [done | done | done | done | done |].
      by injection Hev as _ _ _ _ ->.
  - destruct Hpost; exists []; by rewrite app_nil_r.
Qed.

End Fatal.

(** *** A transfer that fails *)

(** [pushPaths] returns whenever the paths to push could be found: what
    [nix.Push] answers is not looked at. *)
Lemma pushPaths_drops_the_answer W host resultPath s paths :
  ask_nix_GetPathsToPush W (trace s) host resultPath = Ok paths ->
  fst (pushPaths W [host] resultPath s) = Normal tt.
Proof.
  intros Hpaths. unfold pushPaths, for_each. simpl.
  unfold nix_GetPathsToPush, bind at 1 2, call. simpl. rewrite Hpaths.
  unfold bind at 1. simpl.
  assert (Hprint : forall (l : list string) s0,
            fst (for_range l (fun path _ => Print (tab +:+ "* " +:+ path +:+ nl)) tt s0)
              = Normal tt).
  { induction l as [|p l IH]; intros s0; [done|]. simpl. unfold bind at 1. simpl. apply IH. }
  unfold bind at 1.
  destruct (for_range paths _ tt _) as [r0 s1] eqn:E.
  specialize (Hprint paths (log (EvStdout ("Pushing paths to " +:+ TargetHost host +:+ ":" +:+ nl))
       (log (EvGetPathsToPush host resultPath (Ok paths)) s))).
  rewrite E in Hprint. simpl in Hprint. subst r0. reflexivity.
Qed.

(** C3.  The transfer to the first of three hosts fails: the run goes on, the
    other two hosts are pushed to, and [main] returns as after a success. *)
Theorem failed_push_is_not_fatal :
  let hosts := [Sample.plainHost "A"; Sample.plainHost "B"; Sample.plainHost "C"] in
  let W := Sample.world hosts Sample.noEnv true true ["A"] [] [] [] in
  let run := main W (Sample.config false "push") "deploy" initial in
  fst run = Normal tt /\
  List.filter (fun e => bool_decide (is_Some (remote_call e))) (trace (snd run)) =
    [EvPush (Sample.plainHost "A") ["/nix/store/A"] (Some "failed");
     EvPush (Sample.plainHost "B") ["/nix/store/B"] None;
     EvPush (Sample.plainHost "C") ["/nix/store/C"] None] /\
  last (trace (snd run)) = Some (EvTeardown "/tmp/assets").
Proof. vm_compute. done. Qed.

(** The same failure of a static secret upload or of an activation does stop
    the run at once, with a panic. *)
Example failed_upload_and_activation_are_fatal :
  let hosts := [Sample.secretHost "A"; Sample.plainHost "B"] in
  let upload := main (Sample.world hosts Sample.noEnv true true [] ["A"] [] [])
                  (Sample.config false "switch") "deploy" initial in
  let activate := main (Sample.world hosts Sample.noEnv true true [] [] ["A"] [])
                    (Sample.config false "switch") "deploy" initial in
  fst upload = Panic "failed" /\
  omap remote_call (trace (snd upload)) = [Sample.secretHost "A"; Sample.secretHost "A"] /\
  fst activate = Panic "failed" /\
  omap remote_call (trace (snd activate)) =
    [Sample.secretHost "A"; Sample.secretHost "A"; Sample.secretHost "A"].
Proof. vm_compute. done. Qed.

(** * The answer to the upload of the credential is dropped *)

Lemma credential_upload_succeeds_idemp e :
  credential_upload_succeeds (credential_upload_succeeds e) = credential_upload_succeeds e.
Proof.
  destruct e; simpl; try done.
  destruct (String.eqb dir "./") eqn:E; simpl; by rewrite E.
Qed.

Lemma twin_refl s : twin (trace s) s s.
Proof. split; [done|]. split; [done|]. exists []. by rewrite !app_nil_r. Qed.

Lemma twin_log t0 s s' e e' :
  twin t0 s s' -> e' = credential_upload_succeeds e -> twin t0 (log e s) (log e' s').
Proof.
  intros (Hp & Hf & d & Ht & Ht') ->. split; [done|]. split; [done|].
  exists (d ++ [e]). simpl. rewrite Ht, Ht', fmap_app, <- !app_assoc. done.
Qed.

(** In a steady world, what is asked after the history of one twin is
    answered as after the history of the other. *)
Lemma twin_ask {R} t0 s s' (ask : History -> R) :
  (forall t, ask (credential_upload_succeeds <$> t) = ask t) ->
  twin t0 s s' -> ask (trace s') = ask (trace s).
Proof.
  intros Hask (_ & _ & d & -> & ->).
  rewrite <- (Hask (t0 ++ d)), <- (Hask (t0 ++ _)).
  rewrite !fmap_app, <- list_fmap_compose. f_equal. f_equal.
  apply list_fmap_ext. intros i e _. simpl. apply credential_upload_succeeds_idemp.
Qed.

Section Twins.

Variable t0 : History.

Lemma twins_ret {A} (a : A) : twins t0 (ret a) (ret a).
Proof. by intros s s' H. Qed.

Lemma twins_panic {A} e : twins t0 (@panic A e) (panic e).
Proof. by intros s s' H. Qed.

Lemma twins_exit {A} code : twins t0 (@os_Exit A code) (os_Exit code).
Proof. by intros s s' H. Qed.

Lemma twins_bind {A B} (m m' : M A) (k k' : A -> M B) :
  twins t0 m m' -> (forall a, twins t0 (k a) (k' a)) -> twins t0 (bind m k) (bind m' k').
Proof.
  intros Hm Hk s s' H. unfold bind. destruct (Hm s s' H) as [Hr Hs].
  destruct (m s) as [c s1], (m' s') as [c' s1']. simpl in *. subst c'.
  destruct c as [a|e|code]; [by apply Hk | done | done].
Qed.

Lemma twins_when b (m m' : M unit) : twins t0 m m' -> twins t0 (when b m) (when b m').
Proof. intros Hm. destruct b; [done | apply twins_ret]. Qed.

Lemma twins_for_range {A V} (xs : list A) (body body' : A -> V -> M V) v :
  (forall x v, twins t0 (body x v) (body' x v)) ->
  twins t0 (for_range xs body v) (for_range xs body' v).
Proof.
  intros Hbody. revert v. induction xs as [|x xs IH]; intros v; simpl.
  - apply twins_ret.
  - apply twins_bind; [apply Hbody | apply IH].
Qed.

Lemma twins_for_each {A} (xs : list A) (body body' : A -> M unit) :
  (forall x, twins t0 (body x) (body' x)) -> twins t0 (for_each xs body) (for_each xs body').
Proof. intros Hbody. apply twins_for_range. intros x _. apply Hbody. Qed.

Lemma twins_emit e : credential_upload_succeeds e = e -> twins t0 (emit e) (emit e).
Proof. intros He s s' H. split; [done|]. by apply twin_log. Qed.

Lemma twins_call {R} (ask ask' : History -> R) (ev : R -> Event) :
  (forall t, ask (credential_upload_succeeds <$> t) = ask t) ->
  (forall t, ask' t = ask t) ->
  (forall r, credential_upload_succeeds (ev r) = ev r) ->
  twins t0 (call ask ev) (call ask' ev).
Proof.
  intros Hask Hask' Hev s s' H. unfold call. simpl.
  rewrite Hask', (twin_ask t0 s s' ask Hask H). split; [done|]. by apply twin_log.
Qed.

(** A call of which the answer is dropped and left out of the comparison. *)
Lemma twins_call_dropped {R B} (ask ask' : History -> R) (ev : R -> Event)
    (k k' : M B) :
  (forall t r, ev (ask' t) = credential_upload_succeeds (ev r)) ->
  twins t0 k k' ->
  twins t0 (bind (call ask ev) (fun _ => k)) (bind (call ask' ev) (fun _ => k')).
Proof.
  intros Hev Hk s s' H. unfold bind, call. apply Hk. by apply twin_log.
Qed.

Lemma twins_get {A} (f f' : State -> A) :
  (forall s s', twin t0 s s' -> f' s' = f s) -> twins t0 (get f) (get f').
Proof. intros Hf s s' H. unfold get. simpl. by rewrite (Hf s s' H). Qed.

Lemma twins_flag (f : State -> bool) :
  (forall s s', plan s' = plan s -> f s' = f s) -> twins t0 (get f) (get f).
Proof. intros Hf. apply twins_get. intros s s' H. apply Hf, H. Qed.

Lemma twins_set_doPush b : twins t0 (set_doPush b) (set_doPush b).
Proof.
  intros s s' (Hp & Hf & Ht). unfold twin, plan in *. simpl.
  injection Hp as H1 H2 H3 H4. rewrite ?H1, ?H2, ?H3, ?H4. done.
Qed.

Lemma twins_set_doAskPass b : twins t0 (set_doAskPass b) (set_doAskPass b).
Proof.
  intros s s' (Hp & Hf & Ht). unfold twin, plan in *. simpl.
  injection Hp as H1 H2 H3 H4. rewrite ?H1, ?H2, ?H3, ?H4. done.
Qed.

Lemma twins_set_doUploadSecrets b : twins t0 (set_doUploadSecrets b) (set_doUploadSecrets b).
Proof.
  intros s s' (Hp & Hf & Ht). unfold twin, plan in *. simpl.
  injection Hp as H1 H2 H3 H4. rewrite ?H1, ?H2, ?H3, ?H4. done.
Qed.

Lemma twins_set_doActivate b : twins t0 (set_doActivate b) (set_doActivate b).
Proof.
  intros s s' (Hp & Hf & Ht). unfold twin, plan in *. simpl.
  injection Hp as H1 H2 H3 H4. rewrite ?H1, ?H2, ?H3, ?H4. done.
Qed.

Lemma twins_write_file name text : twins t0 (write_file name text) (write_file name text).
Proof.
  intros s s' H. split; [done|]. unfold write_file. simpl.
  apply (twin_log t0 _ _ (EvWrite name text)); [|done].
  destruct H as (Hp & Hf & Ht). split; [done|]. split; [|done]. simpl. by rewrite Hf.
Qed.

End Twins.

Ltac twins_step steady_field :=
  lazymatch goal with
  | |- twins _ (ret _) _ => apply twins_ret
  | |- twins _ (panic _) _ => apply twins_panic
  | |- twins _ (os_Exit _) _ => apply twins_exit
  | |- twins _ (when _ _) _ => apply twins_when
  | |- twins _ (for_each _ _) _ => apply twins_for_each; intros ?
  | |- twins _ (for_range _ _ _) _ => apply twins_for_range; intros ? ?
  | |- twins _ (bind _ _) _ => apply twins_bind; [|intros ?]
  | |- twins _ (emit _) _ => apply twins_emit; reflexivity
  | |- twins _ (write_file _ _) _ => apply twins_write_file
  | |- twins _ (set_doPush _) _ => apply twins_set_doPush
  | |- twins _ (set_doAskPass _) _ => apply twins_set_doAskPass
  | |- twins _ (set_doUploadSecrets _) _ => apply twins_set_doUploadSecrets
  | |- twins _ (set_doActivate _) _ => apply twins_set_doActivate
  | |- twins _ (call _ _) _ =>
      apply twins_call; [intros ?; steady_field | reflexivity | reflexivity]
  | |- twins _ (match ?x with _ => _ end) _ => destruct x
  end.

Section Dropped.

Variable W : World.
Variable cfg : Config.
Variable t0 : History.

Hypothesis Hsteady : steady W.
Hypothesis Hdir : String.eqb (filepath_Dir W (deployDeployment cfg)) "./" = false.

Ltac in_both_worlds :=
  unfold credential_uploads_succeed;
  cbn [with_UploadSecret os_Getenv filepath_Join filepath_Abs filepath_Dir nix_GetHostname
       filter_MatchHosts filter_FilterHosts].

Ltac steady_field :=
  first [ apply (steady_GetMachines W Hsteady)
        | apply (steady_BuildMachines W Hsteady)
        | apply (steady_ReadPassword W Hsteady)
        | apply (steady_GetPathsToPush W Hsteady)
        | apply (steady_Push W Hsteady)
        | apply (steady_Auth W Hsteady)
        | apply (steady_Configure W Hsteady)
        | apply (steady_CreateOrReKeyHostToken W Hsteady)
        | apply (steady_OpenFile W Hsteady)
        | apply (steady_Remove W Hsteady)
        | apply (steady_GetSecretSize W Hsteady)
        | apply (steady_GetNixSystemPath W Hsteady)
        | apply (steady_ActivateConfiguration W Hsteady)
        | apply (steady_Perform W Hsteady)
        | apply (steady_range_Secrets W Hsteady) ].

Ltac twins_down := repeat twins_step steady_field.

Lemma twins_os_OpenFile name :
  twins t0 (os_OpenFile W name) (os_OpenFile (credential_uploads_succeed W) name).
Proof.
  intros s s' H. unfold os_OpenFile. simpl.
  rewrite (twin_ask t0 s s' (fun t => ask_os_OpenFile W t name)); [|intros t; steady_field|done].
  split; [done|].
  apply (twin_log t0 _ _ (EvOpenFile name _)); [|done].
  destruct (ask_os_OpenFile W (trace s) name); [done|].
  destruct H as (Hp & Hf & Ht). split; [done|]. split; [|done]. simpl. by rewrite Hf.
Qed.

Lemma twins_os_Remove name :
  twins t0 (os_Remove W name) (os_Remove (credential_uploads_succeed W) name).
Proof.
  intros s s' H. unfold os_Remove. simpl.
  rewrite (twin_ask t0 s s' (fun t => ask_os_Remove W t name)); [|intros t; steady_field|done].
  split; [done|].
  apply (twin_log t0 _ _ (EvRemove name _)); [|done].
  destruct (ask_os_Remove W (trace s) name); [done|].
  destruct H as (Hp & Hf & Ht). split; [done|]. split; [|done]. simpl. by rewrite Hf.
Qed.

Lemma twins_range_Secrets entries :
  twins t0 (range_Secrets W entries) (range_Secrets (credential_uploads_succeed W) entries).
Proof.
  apply twins_get. intros s s' H.
  apply (twin_ask t0 s s' (fun t => ask_range_Secrets W t entries)); [|done].
  intros t. steady_field.
Qed.

Lemma twins_doPush : twins t0 (get doPush) (get doPush).
Proof. apply twins_flag. unfold plan. by intros s s' [= -> _ _ _]. Qed.

Lemma twins_doAskPass : twins t0 (get doAskPass) (get doAskPass).
Proof. apply twins_flag. unfold plan. by intros s s' [= _ -> _ _]. Qed.

Lemma twins_doUploadSecrets : twins t0 (get doUploadSecrets) (get doUploadSecrets).
Proof. apply twins_flag. unfold plan. by intros s s' [= _ _ -> _]. Qed.

Lemma twins_doActivate : twins t0 (get doActivate) (get doActivate).
Proof. apply twins_flag. unfold plan. by intros s s' [= _ _ _ ->]. Qed.

Lemma twins_printVaultWarning err : twins t0 (printVaultWarning err) (printVaultWarning err).
Proof. unfold printVaultWarning. unfold_prints. twins_down. Qed.

Lemma twins_vaultInit : twins t0 (vaultInit W) (vaultInit (credential_uploads_succeed W)).
Proof.
  unfold vaultInit. in_both_worlds. unfold_prints.
  twins_down; apply twins_printVaultWarning.
Qed.

Lemma twins_vaultReKey vc hosts :
  twins t0 (vaultReKey W cfg vc hosts) (vaultReKey (credential_uploads_succeed W) cfg vc hosts).
Proof.
  unfold vaultReKey. in_both_worlds. unfold_prints.
  destruct hosts as [|host hosts]; [apply twins_panic|].
  apply twins_bind; [twins_down|]. intros [creds|err]; [|twins_down; apply twins_printVaultWarning].
  apply twins_bind; [apply twins_os_OpenFile|].
  intros [err|]; twins_down. apply twins_printVaultWarning.
Qed.

(** The upload of the credential answers what it will; the file is removed
    and the step is over. *)
Lemma twins_rekeyStep host sudoPasswd vc :
  twins t0 (rekeyStep W cfg host sudoPasswd vc)
           (rekeyStep (credential_uploads_succeed W) cfg host sudoPasswd vc).
Proof.
  unfold rekeyStep. apply twins_bind; [apply twins_vaultReKey|].
  intros [secret|]; [|apply twins_ret].
  unfold secrets_UploadSecret. apply twins_call_dropped; [done | apply twins_os_Remove].
Qed.

Lemma twins_vaultStep host sudoPasswd vc :
  twins t0 (vaultStep W cfg host sudoPasswd vc)
           (vaultStep (credential_uploads_succeed W) cfg host sudoPasswd vc).
Proof.
  unfold vaultStep. destruct (Enable (Vault host)); [|apply twins_ret].
  apply twins_bind; [destruct vc; [apply twins_ret | apply twins_vaultInit]|].
  intros [c|]; twins_down. apply twins_rekeyStep.
Qed.

Lemma twins_getHosts deployment :
  twins t0 (getHosts W cfg deployment) (getHosts (credential_uploads_succeed W) cfg deployment).
Proof. unfold getHosts. in_both_worlds. unfold_prints. twins_down. Qed.

Lemma twins_build : twins t0 (build W cfg) (build (credential_uploads_succeed W) cfg).
Proof.
  unfold build. in_both_worlds. unfold_prints.
  destruct (filepath_Abs W (deployDeployment cfg)); [|apply twins_panic].
  apply twins_bind; [apply twins_getHosts|]. intros r. twins_down.
Qed.

Lemma twins_askForSudoPassword :
  twins t0 (askForSudoPassword W) (askForSudoPassword (credential_uploads_succeed W)).
Proof. unfold askForSudoPassword. unfold_prints. twins_down. Qed.

Lemma twins_pushPaths hosts resultPath :
  twins t0 (pushPaths W hosts resultPath)
           (pushPaths (credential_uploads_succeed W) hosts resultPath).
Proof. unfold pushPaths. unfold_prints. twins_down. Qed.

(** The upload of a declared secret is not that of a credential: its
    directory is not "./". *)
Lemma twins_static_upload host sudoPasswd secret :
  twins t0
    (secrets_UploadSecret W host sudoPasswd secret (filepath_Dir W (deployDeployment cfg)))
    (secrets_UploadSecret (credential_uploads_succeed W) host sudoPasswd secret
       (filepath_Dir W (deployDeployment cfg))).
Proof.
  unfold secrets_UploadSecret. apply twins_call.
  - intros t. by apply (steady_UploadSecret W Hsteady).
  - intros t. simpl. by rewrite Hdir.
  - intros r. simpl. by rewrite Hdir.
Qed.

Lemma twins_uploadSecrets hosts sudoPasswd :
  twins t0 (uploadSecrets W cfg hosts sudoPasswd)
           (uploadSecrets (credential_uploads_succeed W) cfg hosts sudoPasswd).
Proof.
  unfold uploadSecrets. in_both_worlds.
  apply twins_for_each. intros host.
  apply twins_bind; [apply twins_emit; reflexivity|]. intros _.
  apply twins_bind; [apply twins_range_Secrets|]. intros entries.
  apply twins_for_each. intros [secretName secret].
  apply twins_bind; [unfold_prints; twins_down|]. intros [secretSize|err]; [|apply twins_panic].
  apply twins_bind; [apply twins_emit; reflexivity|]. intros _.
  apply twins_bind; [apply twins_static_upload|]. intros r. unfold_prints. twins_down.
Qed.

Lemma twins_activateConfiguration hosts resultPath sudoPasswd :
  twins t0 (activateConfiguration W cfg hosts resultPath sudoPasswd)
           (activateConfiguration (credential_uploads_succeed W) cfg hosts resultPath
              sudoPasswd).
Proof. unfold activateConfiguration. unfold_prints. twins_down. Qed.

Lemma twins_resolvePlan : twins t0 (resolvePlan cfg) (resolvePlan cfg).
Proof. unfold resolvePlan. twins_down. Qed.

Lemma twins_healthGate host :
  twins t0 (healthGate W cfg host) (healthGate (credential_uploads_succeed W) cfg host).
Proof. unfold healthGate. unfold_prints. twins_down. Qed.

Lemma twins_deployHost resultPath sudoPasswd host vc :
  twins t0 (deployHost W cfg resultPath sudoPasswd host vc)
           (deployHost (credential_uploads_succeed W) cfg resultPath sudoPasswd host vc).
Proof.
  unfold deployHost. in_both_worlds.
  apply twins_bind; [apply twins_doPush|]. intros push.
  apply twins_bind; [apply twins_when, twins_pushPaths|]. intros _.
  apply twins_bind; [apply twins_emit; reflexivity|]. intros _.
  apply twins_bind; [apply twins_vaultStep|]. intros vc'.
  apply twins_bind; [apply twins_doUploadSecrets|]. intros upload.
  apply twins_bind; [apply twins_when, twins_uploadSecrets|]. intros _.
  apply twins_bind; [apply twins_doActivate|]. intros activate.
  apply twins_bind; [apply twins_when, twins_activateConfiguration|]. intros _.
  apply twins_bind; [apply twins_healthGate|]. intros _.
  apply twins_bind; [apply twins_emit; reflexivity|]. intros _. apply twins_ret.
Qed.

Lemma twins_deployHosts hosts resultPath sudoPasswd vc :
  twins t0 (deployHosts W cfg hosts resultPath sudoPasswd vc)
           (deployHosts (credential_uploads_succeed W) cfg hosts resultPath sudoPasswd vc).
Proof. unfold deployHosts. apply twins_for_range. intros host vc'. apply twins_deployHost. Qed.

Lemma twins_doDeploy : twins t0 (doDeploy W cfg) (doDeploy (credential_uploads_succeed W) cfg).
Proof.
  unfold doDeploy.
  apply twins_bind; [apply twins_resolvePlan|]. intros _.
  apply twins_bind; [apply twins_build|]. intros [hosts resultPath].
  apply twins_bind; [apply twins_emit; reflexivity|]. intros _.
  apply twins_bind; [apply twins_doAskPass|]. intros askPass.
  apply twins_bind.
  { destruct askPass; [|apply twins_ret].
    apply twins_bind; [apply twins_askForSudoPassword|]. intros passwd.
    unfold_prints. twins_down. }
  intros sudoPasswd.
  apply twins_bind; [apply twins_deployHosts|]. intros _. apply twins_ret.
Qed.

Lemma twins_doHealthCheck :
  twins t0 (doHealthCheck W cfg) (doHealthCheck (credential_uploads_succeed W) cfg).
Proof.
  unfold doHealthCheck.
  apply twins_bind; [apply twins_getHosts|]. intros r. unfold_prints. twins_down.
Qed.

Lemma twins_main command :
  twins t0 (main W cfg command) (main (credential_uploads_succeed W) cfg command).
Proof.
  unfold main. apply twins_bind.
  - destruct (String.eqb command "deploy"); [apply twins_doDeploy|].
    destruct (String.eqb command "check-health"); [apply twins_doHealthCheck|].
    apply twins_ret.
  - intros _. apply twins_emit. reflexivity.
Qed.

End Dropped.

(** * Start-up *)

Lemma missingDepencies_filter (env : Startup) :
  missingDepencies env = List.filter (fun d => negb (foundb env d)) dependencies.
Proof.
  unfold missingDepencies, dependencies, foundb. simpl.
  destruct (exec_LookPath env "nix"), (exec_LookPath env "scp"),
    (exec_LookPath env "ssh"); reflexivity.
Qed.

Lemma found_foundb (env : Startup) (d : string) : found env d <-> foundb env d = true.
Proof.
  unfold found, foundb. destruct (exec_LookPath env d) as [p | e]; split.
  - reflexivity.
  - intros _. exists p. reflexivity.
  - intros [p H]. discriminate H.
  - discriminate.
Qed.

(** X1.  [validateEnvironment] returns no error exactly when [nix], [scp] and
    [ssh] are all found; otherwise its message names the programs that are not
    found, and only those, in the order nix, scp, ssh, separated by a comma. *)
Theorem validateEnvironment_names_what_is_missing (env : Startup) :
  (validateEnvironment env = None <->
   found env "nix" /\ found env "scp" /\ found env "ssh") /\
  (forall err, validateEnvironment env = Some err ->
     err = "Missing dependencies: " +:+
           String.concat ", "
             (List.filter (fun d => negb (foundb env d)) ["nix"; "scp"; "ssh"])).
Proof.
  unfold validateEnvironment. rewrite missingDepencies_filter.
  rewrite !found_foundb. unfold dependencies. simpl.
  destruct (foundb env "nix"), (foundb env "scp"), (foundb env "ssh"); simpl;
    (split; [split; [intros H; try discriminate H; auto
                    | intros (H1 & H2 & H3); try discriminate; reflexivity]
            | intros err H; try discriminate H; injection H as <-; reflexivity]).
Qed.

(** X2.  Before [init], the package-level initialisers have called
    [ioutil.TempDir] and then [assets.Setup], whatever these return.  [main]
    is entered only when the three checks of [init] pass, and it runs with the
    directory and the asset root that the two calls returned.  Otherwise the
    process panics with the error of the first check that fails
    (dependencies, then assets, then the temporary directory): [init] calls
    nothing, at most the line announcing the asset error is printed, and
    neither [main] nor [assets.Teardown] is run. *)
Theorem main_is_entered_only_after_init (env : Startup) (W : World) (cfg : Config)
    (command : string) (s : State) :
  fst (program env W cfg command s) =
    [EvTempDir "" "morph-" (ioutil_TempDir env "" "morph-"); EvSetup (assets_Setup env)] /\
  ((validateEnvironment env = None /\ (assets_Setup env).2 = None /\
    (ioutil_TempDir env "" "morph-").2 = None /\
    snd (program env W cfg command s) =
      main W (with_package cfg (ioutil_TempDir env "" "morph-").1 (assets_Setup env).1)
        command s) \/
   (exists err,
      fst (snd (program env W cfg command s)) = Panic err /\
      ((validateEnvironment env = Some err /\
        snd (snd (program env W cfg command s)) = s) \/
       (validateEnvironment env = None /\ (assets_Setup env).2 = Some err /\
        snd (snd (program env W cfg command s)) =
          log (EvStdout ("Error unpacking assets:" +:+ nl)) s) \/
       (validateEnvironment env = None /\ (assets_Setup env).2 = None /\
        (ioutil_TempDir env "" "morph-").2 = Some err /\
        snd (snd (program env W cfg command s)) = s)))).
Proof.
  unfold program, init.
  destruct (ioutil_TempDir env "" "morph-") as [tempDir tempDirErr].
  destruct (assets_Setup env) as [assetRoot assetsErr]. cbn [fst snd].
  split; [done|].
  destruct (validateEnvironment env) as [e1 |].
  - right. exists e1. cbn. auto 10.
  - destruct assetsErr as [e2 |].
    + right. exists e2. cbn. auto 10.
    + destruct tempDirErr as [e3 |].
      * right. exists e3. cbn. auto 10.
      * left. cbn. destruct (main W _ command s). auto.
Qed.

(** A start-up at which [scp] is missing and the assets cannot be unpacked:
    both initialisers have been called, and the process panics with the
    error of the first check. *)
Example startup_with_a_missing_program :
  let env := startup ["nix"; "ssh"] None (Some "no space left on device") in
  let run := program env (Sample.world [] Sample.noEnv true true [] [] [] [])
               (Sample.config false "switch") "deploy" initial in
  fst run = [EvTempDir "" "morph-" ("/tmp/morph-1", None);
             EvSetup ("", Some "no space left on device")] /\
  snd run = (Panic "Missing dependencies: scp", initial).
Proof. vm_compute. done. Qed.

(** * Host selection: [getHosts] *)

Lemma for_each_emit {A} (body : A -> M unit) (g : A -> Event) (xs : list A) s :
  (forall x, body x = emit (g x)) ->
  for_each xs body s = (Normal tt, log_all (map g xs) s).
Proof.
  intros Hb. unfold for_each. revert s.
  induction xs as [| x xs IH]; intros s; simpl.
  - by rewrite log_all_nil.
  - unfold bind at 1. rewrite Hb. unfold emit at 1. rewrite IH.
    by rewrite log_all_log.
Qed.

Section Selection.

Variable W : World.
Variable cfg : Config.

(** X3.  [getHosts] always returns (it neither panics nor exits) and leaves
    the plan and the files alone.  It returns an error exactly when
    [filepath.Abs], [nix.GetMachines] or [filter.MatchHosts] fails, with that
    error and without printing anything; otherwise it returns what
    [filter.FilterHosts] keeps and prints a header, one numbered line per
    returned host, in order, and an empty line. *)
Theorem getHosts_lists_what_it_returns (deployment : string) (s : State) :
  exists r,
    fst (getHosts W cfg deployment s) = Normal r /\
    plan (snd (getHosts W cfg deployment s)) = plan s /\
    files (snd (getHosts W cfg deployment s)) = files s /\
    match r with
    | Err err =>
        (filepath_Abs W deployment = Err err /\
         emitted (getHosts W cfg deployment) s = []) \/
        (exists path answer,
           filepath_Abs W deployment = Ok path /\
           emitted (getHosts W cfg deployment) s =
             [EvGetMachines (filepath_Join W (assetRoot cfg) "eval-machines.nix") path answer] /\
           (answer = Err err \/
            exists allHosts, answer = Ok allHosts /\
              filter_MatchHosts W allHosts (selectGlob cfg) = Err err))
    | Ok hosts =>
        exists path allHosts matchingHosts header,
          filepath_Abs W deployment = Ok path /\
          filter_MatchHosts W allHosts (selectGlob cfg) = Ok matchingHosts /\
          hosts = filter_FilterHosts W matchingHosts (selectSkip cfg) (selectEvery cfg)
                    (selectLimit cfg) /\
          emitted (getHosts W cfg deployment) s =
            EvGetMachines (filepath_Join W (assetRoot cfg) "eval-machines.nix") path
              (Ok allHosts)
            :: EvStdout header :: listing W hosts ++ [EvStdout nl]
    end.
Proof.
  unfold emitted.
  remember (getHosts W cfg deployment s) as run eqn:Hrun.
  unfold getHosts in Hrun.
  destruct (filepath_Abs W deployment) as [path | err] eqn:Habs.
  2:{ exists (Err err). subst run. cbn. rewrite drop_ge by lia. auto 10. }
  unfold nix_GetMachines, bind at 1, call at 1 in Hrun.
  destruct (ask_nix_GetMachines W _ _ _) as [allHosts | err] eqn:Hans.
  2:{ exists (Err err). subst run. cbn. rewrite drop_app_length.
      repeat split. right. exists path, (Err err). auto. }
  destruct (filter_MatchHosts W allHosts (selectGlob cfg)) as [matchingHosts | err] eqn:Hm.
  2:{ exists (Err err). subst run. cbn. rewrite drop_app_length.
      repeat split. right. exists path, (Ok allHosts). repeat split.
      right. exists allHosts. auto. }
  set (hosts := filter_FilterHosts W matchingHosts _ _ _) in Hrun.
  exists (Ok hosts).
  unfold Print at 1, Println, bind at 1, emit at 1 in Hrun.
  unfold bind at 1 in Hrun.
  erewrite for_each_emit with
    (g := fun p : Z * Host =>
            EvStdout (tab +:+ fmt_3d p.1 +:+ ": " +:+ nix_GetHostname W p.2 +:+
                      " (secrets: " +:+ fmt_d (len (Secrets p.2)) +:+
                      ", health checks: " +:+
                      fmt_d (len (Cmd (HealthChecks p.2)) + len (Http (HealthChecks p.2)))
                      +:+ ")" +:+ nl)) in Hrun;
    [| by intros []].
  unfold bind, emit, ret in Hrun. cbn in Hrun. subst run. cbn.
  repeat split.
  eexists path, allHosts, matchingHosts, _. repeat split; [done|].
  rewrite <- !app_assoc, drop_app_length. simpl. do 2 f_equal.
  unfold listing, enumerate. by rewrite fmap_imap.
Qed.

End Selection.

(** * The deployment as a whole *)

Section Deployment.

Variable W : World.
Variable cfg : Config.

(** ** The arguments of the loop reach every call *)

Lemma deploys_mono hosts hosts' resultPath sudoPasswd e :
  (forall h, h ∈ hosts -> h ∈ hosts') ->
  deploys W cfg hosts resultPath sudoPasswd e ->
  deploys W cfg hosts' resultPath sudoPasswd e.
Proof. intros Hsub. destruct e; simpl; try tauto; intros H; intuition auto. Qed.

Lemma pushPaths_deploys hosts resultPath sudoPasswd :
  emits (deploys W cfg hosts resultPath sudoPasswd) (pushPaths W hosts resultPath).
Proof. unfold pushPaths. unfold_prints. run_down; simpl; done. Qed.

Lemma uploadSecrets_deploys hosts resultPath sudoPasswd :
  emits (deploys W cfg hosts resultPath sudoPasswd) (uploadSecrets W cfg hosts sudoPasswd).
Proof.
  unfold uploadSecrets. unfold_prints. run_down; simpl; try done.
  split; [done|]. split; [done|]. right. split; [|done].
  by eapply arranged_secret.
Qed.

Lemma activateConfiguration_deploys hosts resultPath sudoPasswd :
  emits (deploys W cfg hosts resultPath sudoPasswd)
        (activateConfiguration W cfg hosts resultPath sudoPasswd).
Proof. unfold activateConfiguration. unfold_prints. run_down; simpl; done. Qed.

Lemma healthGate_deploys host resultPath sudoPasswd :
  emits (deploys W cfg [host] resultPath sudoPasswd) (healthGate W cfg host).
Proof.
  unfold healthGate. unfold_prints. run_down; simpl; try done.
  split; [by left | done].
Qed.

Lemma printVaultWarning_deploys hosts resultPath sudoPasswd err :
  emits (deploys W cfg hosts resultPath sudoPasswd) (printVaultWarning err).
Proof. by_quiet (printVaultWarning_quiet err). Qed.

Lemma vaultStep_deploys host resultPath sudoPasswd vc :
  emits (deploys W cfg [host] resultPath sudoPasswd) (vaultStep W cfg host sudoPasswd vc).
Proof.
  unfold vaultStep. destruct (Enable (Vault host)) eqn:Henable;
    [|apply respects_ret; apply _].
  unfold rekeyStep, vaultInit, vaultReKey. unfold_prints.
  destruct (_ && _); run_down; simpl; try done;
    try apply printVaultWarning_deploys;
    try (split; [by left | done]).
  all: split; [by left|]; split; [done|]; left; done.
Qed.

Lemma deployHost_deploys hosts resultPath sudoPasswd host vc :
  host ∈ hosts ->
  emits (deploys W cfg hosts resultPath sudoPasswd)
        (deployHost W cfg resultPath sudoPasswd host vc).
Proof.
  intros Hin.
  assert (Hsub : forall e, deploys W cfg [host] resultPath sudoPasswd e ->
                           deploys W cfg hosts resultPath sudoPasswd e).
  { intros e. apply deploys_mono. by intros h ->%list_elem_of_singleton. }
  unfold deployHost. unfold_prints. run_down; try (simpl; done).
  - eapply emits_weaken; [|apply pushPaths_deploys]. apply Hsub.
  - eapply emits_weaken; [|apply vaultStep_deploys]. apply Hsub.
  - eapply emits_weaken; [|apply uploadSecrets_deploys]. apply Hsub.
  - eapply emits_weaken; [|apply activateConfiguration_deploys]. apply Hsub.
  - eapply emits_weaken; [|apply healthGate_deploys]. apply Hsub.
Qed.

Lemma deployHosts_deploys hosts resultPath sudoPasswd vc :
  emits (deploys W cfg hosts resultPath sudoPasswd)
        (deployHosts W cfg hosts resultPath sudoPasswd vc).
Proof.
  unfold deployHosts. apply respects_for_range; [apply _|].
  intros host vc' Hin. by apply deployHost_deploys.
Qed.

(** X4.  Whatever the loop of [doDeploy] does, it does to the hosts it was
    given, with the arguments it was given: the paths to push and the system
    path are asked for the given build result, every upload and activation
    carries the given password, static secrets are those the host declares,
    read from the directory of the deployment file, the activation is the
    requested action, the health check has the timeout of [deploy], and no
    file other than the temporary credential file is opened or written. *)
Theorem loop_passes_its_arguments_on (hosts : list Host) (resultPath sudoPasswd : string)
    (vc : option Client) (s : State) :
  Forall (deploys W cfg hosts resultPath sudoPasswd)
    (emitted (deployHosts W cfg hosts resultPath sudoPasswd vc) s).
Proof. eapply grows_emitted, deployHosts_deploys. Qed.

End Deployment.

(** * From the build to the hosts *)

Lemma state_log_all (s s' : State) d :
  plan s' = plan s -> files s' = files s -> trace s' = trace s ++ d -> s' = log_all d s.
Proof.
  destruct s, s'. unfold plan, log_all. simpl. intros [= -> -> -> ->] -> ->. done.
Qed.

Lemma quiet_run {A} (P : Event -> Prop) (m : M A) s :
  quiet P m -> exists d, snd (m s) = log_all d s /\ Forall P d.
Proof.
  intros H. destruct (H s) as (Hp & Hf & _ & d & Ht & Hd).
  exists d. split; [by apply state_log_all | done].
Qed.

Lemma log_log_all e d s : log e (log_all d s) = log_all (d ++ [e]) s.
Proof. unfold log, log_all. simpl. by rewrite <- app_assoc. Qed.

Section Shape.

Variable W : World.
Variable cfg : Config.

Lemma getHosts_returns deployment s :
  exists r, fst (getHosts W cfg deployment s) = Normal r.
Proof.
  unfold getHosts.
  destruct (filepath_Abs W deployment); [|by eexists].
  unfold nix_GetMachines, bind at 1, call at 1.
  destruct (ask_nix_GetMachines W _ _ _); [|by eexists].
  destruct (filter_MatchHosts W _ _); [|by eexists].
  unfold Print at 1, Println, bind at 1, emit at 1. unfold bind at 1.
  erewrite for_each_emit with
    (g := fun p : Z * Host =>
            EvStdout (tab +:+ fmt_3d p.1 +:+ ": " +:+ nix_GetHostname W p.2 +:+
                      " (secrets: " +:+ fmt_d (len (Secrets p.2)) +:+
                      ", health checks: " +:+
                      fmt_d (len (Cmd (HealthChecks p.2)) + len (Http (HealthChecks p.2)))
                      +:+ ")" +:+ nl));
    [| by intros []].
  by eexists.
Qed.

Lemma build_run s :
  (exists err d,
     build W cfg s = (Panic err, log_all d s) /\
     Forall (fun e => build_event e /\ build_succeeded e = false) d) \/
  (exists hosts resultPath d0 evalMachinesPath deploymentPath,
     build W cfg s =
       (Normal (hosts, resultPath),
        log_all (d0 ++ [EvBuildMachines evalMachinesPath deploymentPath hosts (Ok resultPath);
                        EvStdout (("nix result path: " +:+ resultPath) +:+ nl)]) s) /\
     Forall getHosts_event d0).
Proof.
  destruct (build W cfg s) as [c s'] eqn:Hrun. unfold build in Hrun.
  destruct (filepath_Abs W (deployDeployment cfg)) as [path | err].
  2:{ left. exists err, []. by rewrite log_all_nil. }
  unfold bind at 1 in Hrun.
  destruct (getHosts_returns (deployDeployment cfg) s) as [r Hr].
  destruct (quiet_run _ _ s (getHosts_quiet W cfg (deployDeployment cfg))) as (d0 & Hs & Hd0).
  destruct (getHosts W cfg (deployDeployment cfg) s) as [c1 s1]. simpl in *. subst c1 s1.
  assert (Hd0' : Forall (fun e => build_event e /\ build_succeeded e = false) d0).
  { eapply Forall_impl; [done|]. by intros []. }
  destruct r as [hosts | err].
  2:{ left. exists err, d0. by rewrite <- Hrun. }
  unfold nix_BuildMachines, bind at 1, call at 1 in Hrun.
  destruct (ask_nix_BuildMachines W _ _ _ _) as [resultPath | err] eqn:Hb.
  - right. exists hosts, resultPath, d0. eexists _, _. split; [|done].
    rewrite <- Hrun. unfold Println, bind, emit, ret. f_equal.
    unfold log, log_all. simpl. by rewrite <- !app_assoc.
  - left. exists err. eexists (d0 ++ [_]). split.
    + rewrite <- Hrun. unfold panic. f_equal. apply log_log_all.
    + apply Forall_app. split; [done|]. repeat constructor.
Qed.

Lemma emitted_after (s0 s : State) (s' : State) d :
  trace s0 = trace s -> trace s' = trace s0 ++ d ->
  drop (length (trace s)) (trace s') = d.
Proof. intros <- ->. by rewrite drop_app_length. Qed.

Lemma loop_then_ret hosts resultPath sudoPasswd s c s' :
  (deployHosts W cfg hosts resultPath sudoPasswd None ;; ret tt) s = (c, s') ->
  exists d2, trace s' = trace s ++ d2 /\
             Forall (deploys W cfg hosts resultPath sudoPasswd) d2.
Proof.
  unfold bind.
  destruct (deployHosts_deploys W cfg hosts resultPath sudoPasswd None s)
    as (d2 & Ht & Hd2).
  destruct (deployHosts W cfg hosts resultPath sudoPasswd None s) as [[vc|e|code] s4];
    simpl in *; intros [= <- <-]; eauto.
Qed.

Lemma doDeploy_shape s :
  (exists err,
     fst (doDeploy W cfg s) = Panic err /\
     Forall (fun e => build_event e /\ build_succeeded e = false)
       (emitted (doDeploy W cfg) s)) \/
  (exists d0 evalMachinesPath deploymentPath hosts resultPath pre sudoPasswd d2,
     emitted (doDeploy W cfg) s =
       d0 ++ EvBuildMachines evalMachinesPath deploymentPath hosts (Ok resultPath)
             :: pre ++ d2 /\
     Forall getHosts_event d0 /\
     Forall (deploys W cfg hosts resultPath sudoPasswd) d2 /\
     ((sudoPasswd = "" /\ Forall (fun e => is_stdout e = true) pre) \/
      (exists pre1 pre2,
         pre = pre1 ++ EvReadPassword (Ok sudoPasswd) :: pre2 /\
         Forall (fun e => is_stdout e = true) pre1 /\
         Forall (fun e => is_stdout e = true) pre2) \/
      (exists err pre1,
         pre = pre1 ++ [EvReadPassword (Err err)] /\
         Forall (fun e => is_stdout e = true) pre1 /\
         d2 = [] /\ fst (doDeploy W cfg s) = Panic err))).
Proof.
  unfold emitted.
  destruct (doDeploy W cfg s) as [c s'] eqn:Hrun. cbn [fst snd]. unfold doDeploy in Hrun.
  unfold bind at 1 in Hrun.
  pose proof (resolvePlan_returns cfg s) as Hr0.
  pose proof (proj1 (resolvePlan_trace cfg s)) as Ht0.
  destruct (resolvePlan cfg s) as [c0 s0]. simpl in Hr0, Ht0. subst c0.
  unfold bind at 1 in Hrun.
  destruct (build_run s0)
    as [(err & d & Hb & Hd) | (hosts & resultPath & d0 & p & dp & Hb & Hd0)];
    rewrite Hb in Hrun.
  { left. exists err. injection Hrun as <- <-. split; [done|].
    erewrite emitted_after; [done | done | done]. }
  right. exists d0, p, dp, hosts, resultPath.
  unfold Println at 1, bind at 1, emit at 1 in Hrun.
  unfold bind at 1, get at 1 in Hrun.
  destruct (doAskPass _).
  - unfold askForSudoPassword, Print, Println, terminal_ReadPassword in Hrun.
    unfold bind at 1 in Hrun. unfold bind at 1 in Hrun. unfold bind at 1 in Hrun.
    unfold emit at 1, call at 1 in Hrun. unfold bind at 1 in Hrun.
    destruct (ask_terminal_ReadPassword W _) as [sudoPasswd | err].
    + unfold ret at 1, bind at 1, emit at 1, bind at 1, emit at 1, ret at 1 in Hrun.
      apply loop_then_ret in Hrun as (d2 & Ht & Hd2).
      eexists [_; _; _; _; _; _], sudoPasswd, d2. split; [|split; [done|split; [done|]]].
      * eapply emitted_after; [done|]. rewrite Ht. simpl.
        rewrite <- !app_assoc. simpl. reflexivity.
      * right. left. eexists [_; _; _], [_; _]. split; [reflexivity|].
        split; repeat constructor.
    + unfold panic in Hrun. injection Hrun as <- <-.
      eexists [_; _; _; _], "", []. split; [|split; [done|split; [done|]]].
      * eapply emitted_after; [done|]. simpl.
        rewrite <- !app_assoc. simpl. reflexivity.
      * right. right. eexists err, [_; _; _]. split; [reflexivity|].
        split; [repeat constructor | done].
  - unfold ret at 1 in Hrun.
    apply loop_then_ret in Hrun as (d2 & Ht & Hd2).
    eexists [_; _], "", d2. split; [|split; [done|split; [done|]]].
    + eapply emitted_after; [done|]. rewrite Ht. simpl.
      rewrite <- !app_assoc. simpl. reflexivity.
    + left. split; [done | repeat constructor].
Qed.

Lemma getHosts_event_unbuilt e : getHosts_event e -> build_succeeded e = false.
Proof. by destruct e. Qed.

Lemma deploys_unbuilt hosts resultPath sudoPasswd e :
  deploys W cfg hosts resultPath sudoPasswd e -> build_succeeded e = false.
Proof. by destruct e. Qed.

Lemma deploys_unread hosts resultPath sudoPasswd e :
  deploys W cfg hosts resultPath sudoPasswd e -> reads_password e = false.
Proof. by destruct e. Qed.

Lemma stdout_deploys hosts resultPath sudoPasswd e :
  is_stdout e = true -> deploys W cfg hosts resultPath sudoPasswd e.
Proof. by destruct e. Qed.

Lemma stdout_build_event e : is_stdout e = true -> build_event e.
Proof. by destruct e. Qed.

(** X5.  [doDeploy] builds once, before it touches a host, and deploys what
    it built: before the successful call of [nix.BuildMachines] only the
    hosts are selected; after it the build is not repeated, and every call is
    that of the password prompt or one on a host that was built, with the
    result path that the build returned. *)
Theorem what_was_built_is_deployed (s : State) (d1 d2 : History)
    (evalMachinesPath deploymentPath : string) (hosts : list Host) (resultPath : string) :
  emitted (doDeploy W cfg) s =
    d1 ++ EvBuildMachines evalMachinesPath deploymentPath hosts (Ok resultPath) :: d2 ->
  Forall getHosts_event d1 /\
  exists sudoPasswd,
    Forall (fun e => askForSudoPassword_event e \/
                     deploys W cfg hosts resultPath sudoPasswd e) d2.
Proof.
  intros Heq.
  destruct (doDeploy_shape s)
    as [(err & _ & Hd) | (d0 & p & dp & hosts0 & rp & pre & pw & d3 & Hs & Hd0 & Hd3 & Hpre)].
  { rewrite Heq in Hd. apply Forall_app in Hd as [_ Hd].
    apply Forall_cons in Hd as [[_ Hd] _]. discriminate Hd. }
  assert (Hrest : Forall (fun e => askForSudoPassword_event e \/
                                   deploys W cfg hosts0 rp pw e) (pre ++ d3)).
  { apply Forall_app. split; [|eapply Forall_impl; [done | by right]].
    destruct Hpre as [[_ Hp] | [(pre1 & pre2 & -> & Hp1 & Hp2)
                               | (err & pre1 & -> & Hp1 & _)]].
    - eapply Forall_impl; [done|]. intros []; simpl; try done. by left.
    - apply Forall_app. split; [|constructor; [by left|]];
        (eapply Forall_impl; [done|]; intros []; simpl; try done; by left).
    - apply Forall_app. split; [|by repeat constructor; left].
      eapply Forall_impl; [done|]. intros []; simpl; try done. by left. }
  rewrite Hs in Heq.
  destruct (marked_once build_succeeded d0 (pre ++ d3) d1 d2
              (EvBuildMachines p dp hosts0 (Ok rp))
              (EvBuildMachines evalMachinesPath deploymentPath hosts (Ok resultPath)))
    as (-> & Hev & ->); [| |done|done|done|].
  - eapply Forall_impl; [done|]. apply getHosts_event_unbuilt.
  - eapply Forall_impl; [done|]. intros e [He|He]; [by destruct e|].
    by eapply deploys_unbuilt.
  - injection Hev as -> -> -> ->. split; [done|]. by exists pw.
Qed.

(** X6.  When no build succeeds, because the deployment file cannot be
    resolved, the hosts cannot be selected or [nix.BuildMachines] fails,
    [doDeploy] panics, and nothing but the selection and the build has
    happened: no host is touched and no password is asked for. *)
Theorem failed_build_touches_no_host (s : State) :
  Forall (fun e => build_succeeded e = false) (emitted (doDeploy W cfg) s) ->
  (exists err, fst (doDeploy W cfg s) = Panic err) /\
  Forall build_event (emitted (doDeploy W cfg) s).
Proof.
  intros Hno.
  destruct (doDeploy_shape s)
    as [(err & Hp & Hd) | (d0 & p & dp & hosts0 & rp & pre & pw & d3 & Hs & _)].
  - split; [by exists err|]. eapply Forall_impl; [done|]. by intros e [He _].
  - rewrite Hs in Hno. apply Forall_app in Hno as [_ Hno].
    apply Forall_cons in Hno as [Hno _]. discriminate Hno.
Qed.

(** X7.  [doDeploy] reads the sudo password at most once, after the build
    and before it touches a host.  If reading fails, [doDeploy] panics with
    that error at once; otherwise every upload and every activation that
    follows carries the password that was read. *)
Theorem the_password_read_is_the_password_used (s : State) (d1 d2 : History)
    (r : result string) :
  emitted (doDeploy W cfg) s = d1 ++ EvReadPassword r :: d2 ->
  Forall build_event d1 /\
  match r with
  | Ok sudoPasswd =>
      exists hosts resultPath, Forall (deploys W cfg hosts resultPath sudoPasswd) d2
  | Err err => d2 = [] /\ fst (doDeploy W cfg s) = Panic err
  end.
Proof.
  intros Heq.
  destruct (doDeploy_shape s)
    as [(err & _ & Hd) | (d0 & p & dp & hosts & rp & pre & pw & d3 & Hs & Hd0 & Hd3 & Hpre)].
  { rewrite Heq in Hd. apply Forall_app in Hd as [_ Hd].
    apply Forall_cons in Hd as [[Hd _] _]. destruct Hd. }
  assert (H0 : Forall (fun e => reads_password e = false) d0).
  { eapply Forall_impl; [done|]. by intros []. }
  assert (H3 : Forall (fun e => reads_password e = false) d3).
  { eapply Forall_impl; [done|]. apply deploys_unread. }
  assert (Hout : forall d, Forall (fun e => is_stdout e = true) d ->
                           Forall (fun e => reads_password e = false) d).
  { intros d Hd. eapply Forall_impl; [done|]. by intros []. }
  assert (Hb0 : Forall build_event d0).
  { eapply Forall_impl; [exact Hd0|]. by intros []. }
  rewrite Hs in Heq.
  destruct Hpre as [[_ Hp] | [(pre1 & pre2 & -> & Hp1 & Hp2)
                             | (err & pre1 & -> & Hp1 & -> & Hpanic)]].
  - exfalso.
    assert (Hall : Forall (fun e => reads_password e = false)
                     (d1 ++ EvReadPassword r :: d2)).
    { rewrite <- Heq. apply Forall_app. split; [done|]. constructor; [done|].
      apply Forall_app. split; [by apply Hout | done]. }
    apply Forall_app in Hall as [_ Hall]. apply Forall_cons in Hall as [Hall _].
    discriminate Hall.
  - replace (d0 ++ EvBuildMachines p dp hosts (Ok rp)
                :: (pre1 ++ EvReadPassword (Ok pw) :: pre2) ++ d3)
      with ((d0 ++ EvBuildMachines p dp hosts (Ok rp) :: pre1)
            ++ EvReadPassword (Ok pw) :: (pre2 ++ d3)) in Heq
      by (by rewrite <- !app_assoc).
    destruct (marked_once reads_password
                (d0 ++ EvBuildMachines p dp hosts (Ok rp) :: pre1) (pre2 ++ d3) d1 d2
                (EvReadPassword (Ok pw)) (EvReadPassword r))
      as (-> & Hev & ->); [| |done|done|done|injection Hev as ->].
    + apply Forall_app. split; [done|]. constructor; [done | by apply Hout].
    + apply Forall_app. split; [by apply Hout | done].
    + split.
      * apply Forall_app. split; [done|]. constructor; [done|].
        eapply Forall_impl; [done|]. apply stdout_build_event.
      * exists hosts, rp. apply Forall_app. split; [|done].
        eapply Forall_impl; [done|]. apply stdout_deploys.
  - replace (d0 ++ EvBuildMachines p dp hosts (Ok rp)
                :: (pre1 ++ [EvReadPassword (Err err)]) ++ [])
      with ((d0 ++ EvBuildMachines p dp hosts (Ok rp) :: pre1)
            ++ EvReadPassword (Err err) :: []) in Heq
      by (by rewrite <- !app_assoc).
    destruct (marked_once reads_password
                (d0 ++ EvBuildMachines p dp hosts (Ok rp) :: pre1) [] d1 d2
                (EvReadPassword (Err err)) (EvReadPassword r))
      as (-> & Hev & ->); [| |done|done|done|injection Hev as ->].
    + apply Forall_app. split; [done|]. constructor; [done | by apply Hout].
    + constructor.
    + split; [|done].
      apply Forall_app. split; [done|]. constructor; [done|].
      eapply Forall_impl; [done|]. apply stdout_build_event.
Qed.

(** X8.  When [doDeploy] does not read a password, every upload and every
    activation carries the empty password. *)
Theorem without_prompt_the_password_is_empty (s : State) :
  Forall (fun e => reads_password e = false) (emitted (doDeploy W cfg) s) ->
  exists hosts resultPath,
    Forall (fun e => build_event e \/ deploys W cfg hosts resultPath "" e)
      (emitted (doDeploy W cfg) s).
Proof.
  intros Hno.
  destruct (doDeploy_shape s)
    as [(err & _ & Hd) | (d0 & p & dp & hosts & rp & pre & pw & d3 & Hs & Hd0 & Hd3 & Hpre)].
  { exists [], "". eapply Forall_impl; [done|]. intros e [He _]. by left. }
  exists hosts, rp. rewrite Hs in Hno |- *.
  apply Forall_app in Hno as [_ Hno]. apply Forall_cons in Hno as [_ Hno].
  apply Forall_app in Hno as [Hno _].
  destruct Hpre as [[-> Hp] | [(pre1 & pre2 & -> & _) | (err & pre1 & -> & _)]].
  - apply Forall_app. split; [eapply Forall_impl; [done|]; intros []; simpl; tauto|].
    constructor; [by left|]. apply Forall_app. split.
    + eapply Forall_impl; [done|]. intros e He. left. by apply stdout_build_event.
    + eapply Forall_impl; [done|]. by right.
  - apply Forall_app in Hno as [_ Hno]. apply Forall_cons in Hno as [Hno _].
    discriminate Hno.
  - apply Forall_app in Hno as [_ Hno]. apply Forall_cons in Hno as [Hno _].
    discriminate Hno.
Qed.

End Shape.

(** * The plan gates every phase *)

Section Gating.

Variable W : World.
Variable cfg : Config.

Lemma hoare_allowed {A} (P : Event -> Prop) p t0 (m : M A) :
  emits P m -> keeps_plan m -> (forall e, P e -> allowed_by p e) ->
  hoare (allowed_since p t0) m (fun _ s => allowed_since p t0 s).
Proof.
  intros Hm Hp HP s [Hplan (d0 & Ht0 & Hd0)].
  destruct (Hm s) as (d & Ht & Hd). split.
  - rewrite <- Hplan. apply Hp.
  - exists (d0 ++ d). split; [by rewrite Ht, Ht0, app_assoc|].
    apply Forall_app. split; [done|]. eapply Forall_impl; eauto.
Qed.

Lemma Println_allowed p t0 text :
  hoare (allowed_since p t0) (Println text) (fun _ s => allowed_since p t0 s).
Proof.
  eapply (hoare_allowed (fun e => is_stdout e = true));
    [by apply emits_emit | apply keeps_plan_emit |].
  intros []; try done. by destruct p as [[[? ?] ?] ?].
Qed.

(** Reading a flag gives what the plan says. *)
Lemma get_allowed p t0 (flag : State -> bool) (v : bool) :
  (forall s, plan s = p -> flag s = v) ->
  hoare (allowed_since p t0) (get flag)
        (fun r s => allowed_since p t0 s /\ r = Normal v).
Proof. intros Hflag s Hs. split; [done|]. simpl. f_equal. apply Hflag, Hs. Qed.

Ltac allowed_flag flag v :=
  eapply hoare_bind;
    [ apply (get_allowed _ _ flag v); unfold plan; intros ? ?; congruence
    | apply hoare_known; simpl
    | by intros ? ? [? ?]
    | by intros ? ? [? ?] ].

Lemma deployHost_allowed push ask upload activate t0 resultPath sudoPasswd host vc :
  hoare (allowed_since (push, ask, upload, activate) t0)
        (deployHost W cfg resultPath sudoPasswd host vc)
        (fun _ s => allowed_since (push, ask, upload, activate) t0 s).
Proof.
  unfold deployHost.
  allowed_flag doPush push.
  inv_seq.
  { destruct push; [|by apply hoare_ret].
    eapply hoare_allowed;
      [apply quiet_emits, pushPaths_quiet | by_quiet (pushPaths_quiet W [host] resultPath)|].
    by intros []. }
  inv_seq; [apply Println_allowed|].
  inv_seq.
  { eapply hoare_allowed; [apply vaultStep_emits | apply vaultStep_keeps_plan|].
    intros []; simpl; try done. intros [_ ->]. by right. }
  allowed_flag doUploadSecrets upload.
  inv_seq.
  { destruct upload; [|by apply hoare_ret].
    eapply hoare_allowed;
      [apply quiet_emits, uploadSecrets_quiet
      | by_quiet (uploadSecrets_quiet W cfg [host] sudoPasswd)|].
    intros []; simpl; try done. by left. }
  allowed_flag doActivate activate.
  inv_seq.
  { destruct activate; [|by apply hoare_ret].
    eapply hoare_allowed;
      [apply quiet_emits, activateConfiguration_quiet
      | by_quiet (activateConfiguration_quiet W cfg [host] resultPath sudoPasswd)|].
    by intros []. }
  inv_seq.
  { eapply hoare_allowed; [apply healthGate_emits | apply healthGate_keeps_plan|].
    by intros []. }
  inv_seq; [apply Println_allowed|].
  by apply hoare_ret.
Qed.

Lemma deployHosts_allowed p t0 hosts resultPath sudoPasswd vc :
  hoare (allowed_since p t0) (deployHosts W cfg hosts resultPath sudoPasswd vc)
        (fun _ s => allowed_since p t0 s).
Proof.
  destruct p as [[[push ask] upload] activate].
  unfold deployHosts. revert vc. induction hosts as [|host hosts IH]; intros vc.
  - by apply hoare_ret.
  - simpl. inv_seq; [apply deployHost_allowed | apply IH].
Qed.

(** X9.  Every phase of [doDeploy] is gated by its flag of the plan, as
    [doDeploy] resolved it: paths are asked for and pushed only with
    [doPush], the password is read only with [doAskPass], static secrets are
    sized and uploaded only with [doUploadSecrets], the system path is asked
    for and the configuration activated only with [doActivate].  The one call
    on a host that needs no flag is the upload of its dynamic credential. *)
Theorem every_phase_is_gated_by_its_flag (s : State) :
  Forall (allowed_by (plan (snd (resolvePlan cfg s)))) (emitted (doDeploy W cfg) s).
Proof.
  set (p := plan (snd (resolvePlan cfg s))).
  assert (H : hoare (fun s0 => s0 = s) (doDeploy W cfg)
                (fun _ s' => allowed_since p (trace s) s')).
  { unfold doDeploy.
    eapply (hoare_bind _ _ _ (fun _ s' => allowed_since p (trace s) s'));
      [| intros _ | done | done].
    { intros s0 ->. split; [done|]. exists [].
      by rewrite (proj1 (resolvePlan_trace cfg s)), app_nil_r. }
    destruct p as [[[push ask] upload] activate].
    inv_seq_as built.
    { eapply hoare_allowed;
        [apply quiet_emits, build_quiet | by_quiet (build_quiet W cfg) | by intros []]. }
    destruct built as [hosts resultPath].
    inv_seq; [apply Println_allowed|].
    allowed_flag doAskPass ask.
    inv_seq.
    { destruct ask; [|by apply hoare_ret].
      inv_seq.
      { eapply hoare_allowed;
          [apply quiet_emits, askForSudoPassword_quiet
          | by_quiet (askForSudoPassword_quiet W) | by intros []]. }
      inv_seq; [apply Println_allowed|].
      inv_seq; [apply Println_allowed|].
      by apply hoare_ret. }
    inv_seq; [apply deployHosts_allowed|].
    by apply hoare_ret. }
  destruct (H s eq_refl) as [_ (d & Ht & Hd)].
  unfold emitted. by rewrite Ht, drop_app_length.
Qed.

End Gating.

(** * The order of the phases and of the hosts *)

Lemma phased_nil Ps : phased Ps [].
Proof.
  induction Ps as [|P Ps IH]; simpl; [done|].
  exists [], []. split; [done|]. split; [constructor | done].
Qed.

Lemma phased_snoc Ps P d d' :
  phased Ps d -> Forall P d' -> phased (Ps ++ [P]) (d ++ d').
Proof.
  revert d. induction Ps as [|Q Ps IH]; simpl; intros d.
  - intros ->. exists d', []. by rewrite app_nil_r.
  - intros (d1 & d2 & -> & H1 & H2) Hd'.
    exists d1, (d2 ++ d'). rewrite app_assoc. split; [done|]. split; [done|].
    by apply IH.
Qed.

Lemma phased_last Ps P d d' :
  phased (Ps ++ [P]) d -> Forall P d' -> phased (Ps ++ [P]) (d ++ d').
Proof.
  revert d. induction Ps as [|Q Ps IH]; simpl; intros d.
  - intros (d1 & d2 & -> & H1 & ->) Hd'. rewrite app_nil_r.
    exists (d1 ++ d'), []. rewrite app_nil_r. split; [done|]. split; [|done].
    by apply Forall_app.
  - intros (d1 & d2 & -> & H1 & H2) Hd'.
    exists d1, (d2 ++ d'). rewrite app_assoc. split; [done|]. split; [done|].
    by apply IH.
Qed.

Lemma phased_more Ps Qs d : phased Ps d -> phased (Ps ++ Qs) d.
Proof.
  revert d. induction Ps as [|Q Ps IH]; simpl; intros d.
  - intros ->. apply phased_nil.
  - intros (d1 & d2 & -> & H1 & H2). exists d1, d2. split; [done|]. split; [done|].
    by apply IH.
Qed.

Lemma phased_since_take Ps k t0 s :
  phased_since (take k Ps) t0 s -> phased_since Ps t0 s.
Proof.
  intros (d & Ht & Hd). exists d. split; [done|].
  rewrite <- (take_drop k Ps). by apply phased_more.
Qed.

(** A statement of phase [k], run in that phase or in any earlier one. *)
Lemma hoare_phase {A} Ps k j P t0 (m : M A) :
  Ps !! k = Some P -> (j <= S k)%nat -> emits P m ->
  hoare (phased_since (take j Ps) t0) m (fun _ s => phased_since (take (S k) Ps) t0 s).
Proof.
  intros HP Hj Hm s (d & Ht & Hd). destruct (Hm s) as (d' & Ht' & Hd').
  exists (d ++ d'). split; [by rewrite Ht', Ht, app_assoc|].
  rewrite (take_S_r _ _ _ HP).
  destruct (decide (j = S k)) as [-> | Hne].
  - rewrite (take_S_r _ _ _ HP) in Hd. by apply phased_last.
  - apply phased_snoc; [|done].
    replace (take k Ps) with (take j (take k Ps) ++ drop j (take k Ps))
      by apply take_drop.
    rewrite take_take. replace (j `min` k)%nat with j by lia. by apply phased_more.
Qed.

Section Order.

Variable W : World.
Variable cfg : Config.

Ltac phase_seq Ps t0 k :=
  eapply (hoare_bind _ _ _ (fun _ s => phased_since (take k Ps) t0 s));
    [ | intros ?
      | intros ? ?; apply (phased_since_take Ps k)
      | intros ? ?; apply (phased_since_take Ps k) ].

Lemma deployHost_phased t0 resultPath sudoPasswd host vc :
  hoare (fun s => trace s = t0) (deployHost W cfg resultPath sudoPasswd host vc)
        (fun _ s => phased_since (hostPhases cfg host) t0 s).
Proof.
  set (Ps := hostPhases cfg host).
  assert (H : hoare (phased_since (take 0 Ps) t0)
                (deployHost W cfg resultPath sudoPasswd host vc)
                (fun _ s => phased_since Ps t0 s)).
  2:{ intros s Hs. apply H. exists []. by rewrite app_nil_r. }
  unfold deployHost.
  phase_seq Ps t0 0%nat; [apply hoare_get|].
  phase_seq Ps t0 1%nat.
  { apply (hoare_phase Ps 0 0 (pushPaths_event [host])); [done | lia |].
    apply respects_when; [apply _|]. apply quiet_emits, pushPaths_quiet. }
  phase_seq Ps t0 1%nat.
  { apply (hoare_phase Ps 0 1 (pushPaths_event [host])); [done | lia |].
    by apply emits_emit. }
  phase_seq Ps t0 2%nat.
  { apply (hoare_phase Ps 1 1 (vaultStep_event cfg host)); [done | lia |].
    apply vaultStep_emits. }
  phase_seq Ps t0 2%nat; [apply hoare_get|].
  phase_seq Ps t0 3%nat.
  { apply (hoare_phase Ps 2 2 (uploadSecrets_event [host])); [done | lia |].
    apply respects_when; [apply _|]. apply quiet_emits, uploadSecrets_quiet. }
  phase_seq Ps t0 3%nat; [apply hoare_get|].
  phase_seq Ps t0 4%nat.
  { apply (hoare_phase Ps 3 3 (activateConfiguration_event [host])); [done | lia |].
    apply respects_when; [apply _|]. apply quiet_emits, activateConfiguration_quiet. }
  phase_seq Ps t0 5%nat.
  { apply (hoare_phase Ps 4 4 (healthGate_event host)); [done | lia |].
    apply healthGate_emits. }
  phase_seq Ps t0 5%nat.
  { apply (hoare_phase Ps 4 5 (healthGate_event host)); [done | lia |].
    by apply emits_emit. }
  by apply hoare_ret.
Qed.

(** X10.  One host is dealt with in a fixed order: the history of one
    iteration of the loop of [doDeploy] is a segment of the push, then one of
    the Vault step, then one of the static secrets, then one of the
    activation, then one of the health check; no call of an earlier phase
    follows a call of a later one. *)
Theorem a_host_goes_through_its_phases_in_order (resultPath sudoPasswd : string)
    (host : Host) (vc : option Client) (s : State) :
  exists pushed vaulted uploaded activated checked,
    emitted (deployHost W cfg resultPath sudoPasswd host vc) s =
      pushed ++ vaulted ++ uploaded ++ activated ++ checked /\
    Forall (pushPaths_event [host]) pushed /\
    Forall (vaultStep_event cfg host) vaulted /\
    Forall (uploadSecrets_event [host]) uploaded /\
    Forall (activateConfiguration_event [host]) activated /\
    Forall (healthGate_event host) checked.
Proof.
  destruct (deployHost_phased (trace s) resultPath sudoPasswd host vc s eq_refl)
    as (d & Ht & Hd).
  unfold emitted. rewrite Ht, drop_app_length.
  destruct Hd as (d1 & r1 & -> & H1 & d2 & r2 & -> & H2 & d3 & r3 & -> & H3 &
                  d4 & r4 & -> & H4 & d5 & r5 & -> & H5 & Hnil).
  simpl in Hnil. subst r5. exists d1, d2, d3, d4, d5. by rewrite app_nil_r.
Qed.

(** X11.  The hosts are dealt with one after the other, in the order of the
    list.  The list splits into the hosts that were reached and the rest.
    The history of the loop of [doDeploy] is a sequence of segments, one for
    each host reached, in order, each holding only events of its host: a host
    whose turn is over is not returned to, and the rest has no segment.  When
    the loop returns, every host was reached.  When it panics or exits, it
    does so in the turn of the last host reached, after the turns of the hosts
    before it have returned. *)
Theorem hosts_are_deployed_in_order (hosts : list Host) (resultPath sudoPasswd : string)
    (vc : option Client) (s : State) :
  exists reached rest,
    hosts = reached ++ rest /\
    phased (map (deployHost_event cfg) reached)
      (emitted (deployHosts W cfg hosts resultPath sudoPasswd vc) s) /\
    match fst (deployHosts W cfg hosts resultPath sudoPasswd vc s) with
    | Normal _ => rest = []
    | _ =>
        exists before host vc1 s1,
          reached = before ++ [host] /\
          deployHosts W cfg before resultPath sudoPasswd vc s = (Normal vc1, s1) /\
          fst (deployHost W cfg resultPath sudoPasswd host vc1 s1) =
            fst (deployHosts W cfg hosts resultPath sudoPasswd vc s)
    end.
Proof.
  revert vc s. induction hosts as [|host hosts IH]; intros vc s.
  - exists [], []. split; [done|]. split; [|done].
    simpl. unfold emitted. simpl. by rewrite drop_ge by lia.
  - rewrite emitted_deployHosts_cons, deployHosts_cons.
    pose proof (proj2 (grows_emitted _ _ s
                         (deployHost_emits W cfg resultPath sudoPasswd host vc))) as Hd.
    destruct (deployHost W cfg resultPath sudoPasswd host vc s) as [[vc'|e|code] s1] eqn:Hrun.
    + destruct (IH vc' s1) as (reached & rest & -> & Hph & Hend).
      exists (host :: reached), rest. split; [done|]. split.
      * simpl. eexists _, _. split; [done|]. split; [exact Hd | exact Hph].
      * destruct (fst (deployHosts W cfg (reached ++ rest) resultPath sudoPasswd vc' s1));
          [done| |];
          destruct Hend as (before & host' & vc1 & s1' & -> & Hbefore & Hlast);
          exists (host :: before), host', vc1, s1';
          (split; [done|]); (split; [|done]);
          by rewrite deployHosts_cons, Hrun.
    + exists [host], hosts. split; [done|]. split.
      * simpl. eexists _, []. split; [done|]. split; [exact Hd | done].
      * exists [], host, vc, s. split; [done|]. split; [done|]. by rewrite Hrun.
    + exists [host], hosts. split; [done|]. split.
      * simpl. eexists _, []. split; [done|]. split; [exact Hd | done].
      * exists [], host, vc, s. split; [done|]. split; [done|]. by rewrite Hrun.
Qed.

End Order.

(** * How [doDeploy] can end the process *)

Section Exits.

Variable W : World.
Variable cfg : Config.

Lemma healthGate_skipped host :
  deploySkipHealthChecks cfg = true ->
  quiet (fun e => health_check e = false) (healthGate W cfg host).
Proof. intros Hskip. unfold healthGate. rewrite Hskip. apply respects_ret. apply _. Qed.

Lemma deployHost_skipping resultPath sudoPasswd host vc :
  deploySkipHealthChecks cfg = true ->
  respects no_exit (deployHost W cfg resultPath sudoPasswd host vc) /\
  emits (fun e => health_check e = false) (deployHost W cfg resultPath sudoPasswd host vc).
Proof.
  intros Hskip. split.
  - unfold deployHost. unfold_prints. run_down.
    + by_quiet (pushPaths_quiet W [host] resultPath).
    + apply vaultStep_no_exit.
    + by_quiet (uploadSecrets_quiet W cfg [host] sudoPasswd).
    + by_quiet (activateConfiguration_quiet W cfg [host] resultPath sudoPasswd).
    + by_quiet (healthGate_skipped host Hskip).
  - unfold deployHost. unfold_prints. run_down; try done.
    + apply quiet_emits. eapply quiet_weaken; [|apply pushPaths_quiet]. by intros [].
    + eapply emits_weaken; [|apply vaultStep_emits]. by intros [].
    + apply quiet_emits. eapply quiet_weaken; [|apply uploadSecrets_quiet]. by intros [].
    + apply quiet_emits. eapply quiet_weaken; [|apply activateConfiguration_quiet].
      by intros [].
    + apply quiet_emits. by apply healthGate_skipped.
Qed.

Lemma doDeploy_skipping :
  deploySkipHealthChecks cfg = true ->
  respects no_exit (doDeploy W cfg) /\
  emits (fun e => health_check e = false) (doDeploy W cfg).
Proof.
  intros Hskip. split.
  - unfold doDeploy. unfold_prints. run_down.
    + intros s code. by rewrite resolvePlan_returns.
    + by_quiet (build_quiet W cfg).
    + by_quiet (askForSudoPassword_quiet W).
    + unfold deployHosts. apply respects_for_range; [apply _|].
      intros host vc _. by apply deployHost_skipping.
  - unfold doDeploy. unfold_prints. run_down; try done.
    + apply resolvePlan_emits.
    + apply quiet_emits. eapply quiet_weaken; [|apply build_quiet]. by intros [].
    + apply quiet_emits. eapply quiet_weaken; [|apply askForSudoPassword_quiet].
      by intros [].
    + unfold deployHosts. apply respects_for_range; [apply _|].
      intros host vc _. by apply deployHost_skipping.
Qed.

(** X12.  [doDeploy] calls [os.Exit] in one way only: with status 1, with
    the health checks on, right after the notice that follows the first
    health check that failed.  (A panic ends the process as well; this is
    about the exits.) *)
Theorem doDeploy_exits_only_after_a_failed_check (s : State) (code : Z) :
  fst (doDeploy W cfg s) = Exit code ->
  code = 1 /\ deploySkipHealthChecks cfg = false /\
  exists d host err,
    emitted (doDeploy W cfg) s =
      d ++ EvHealthChecksPerform host (deployHealthCheckTimeout cfg) (Some err)
        :: halt_notice /\
    Forall (fun e => failed_health_check e = false) d.
Proof.
  intros Hexit.
  destruct (deploySkipHealthChecks cfg) eqn:Hskip.
  { destruct (doDeploy_skipping Hskip) as [Hne _].
    specialize (Hne s code). rewrite Hexit in Hne. by destruct Hne. }
  pose proof (doDeploy_gate W cfg Hskip (trace s) s) as Hpost.
  unfold emitted. rewrite Hexit in Hpost.
  destruct Hpost as (-> & host & err & d & Ht & Hd).
  { exists []. by rewrite app_nil_r. }
  split; [done|]. split; [done|]. exists d, host, err.
  by rewrite Ht, drop_app_length.
Qed.

(** X13.  With [--skip-health-checks], [doDeploy] performs no health check
    and never calls [os.Exit]: it returns or panics. *)
Theorem skipped_health_checks_never_exit (s : State) :
  deploySkipHealthChecks cfg = true ->
  (forall code, fst (doDeploy W cfg s) <> Exit code) /\
  Forall (fun e => health_check e = false) (emitted (doDeploy W cfg) s).
Proof.
  intros Hskip. destruct (doDeploy_skipping Hskip) as [Hne Hem]. split.
  - intros code Hexit. specialize (Hne s code). rewrite Hexit in Hne. by destruct Hne.
  - by eapply grows_emitted.
Qed.

End Exits.

(** * Runs that do without Vault *)

Section Without_vault.

Variable W : World.
Variable cfg : Config.

Lemma uploadSecrets_vaultless hosts sudoPasswd :
  quiet (vaultless W cfg) (uploadSecrets W cfg hosts sudoPasswd).
Proof.
  unfold uploadSecrets. unfold_prints. run_down; simpl; try done.
  split; [|done]. by eapply arranged_secret.
Qed.

Lemma hoare_vaultless {A} (P : Event -> Prop) t0 (m : M A) :
  emits P m -> (forall e, P e -> vaultless W cfg e) ->
  hoare (vaultless_since W cfg t0) m (fun _ s => vaultless_since W cfg t0 s).
Proof.
  intros Hm HP s (d0 & Ht0 & Hd0). destruct (Hm s) as (d & Ht & Hd).
  exists (d0 ++ d). split; [by rewrite Ht, Ht0, app_assoc|].
  apply Forall_app. split; [done|]. eapply Forall_impl; eauto.
Qed.

(** The statements of one iteration other than the Vault step. *)
Lemma pushPaths_step t0 push host resultPath :
  hoare (vaultless_since W cfg t0) (when push (pushPaths W [host] resultPath))
        (fun _ s => vaultless_since W cfg t0 s).
Proof.
  apply hoare_when. eapply hoare_vaultless; [apply quiet_emits, pushPaths_quiet|].
  by intros [].
Qed.

Lemma uploadSecrets_step t0 upload host sudoPasswd :
  hoare (vaultless_since W cfg t0) (when upload (uploadSecrets W cfg [host] sudoPasswd))
        (fun _ s => vaultless_since W cfg t0 s).
Proof.
  apply hoare_when. eapply hoare_vaultless; [apply quiet_emits, uploadSecrets_vaultless|].
  done.
Qed.

Lemma activateConfiguration_step t0 activate host resultPath sudoPasswd :
  hoare (vaultless_since W cfg t0)
        (when activate (activateConfiguration W cfg [host] resultPath sudoPasswd))
        (fun _ s => vaultless_since W cfg t0 s).
Proof.
  apply hoare_when.
  eapply hoare_vaultless; [apply quiet_emits, activateConfiguration_quiet|].
  by intros [].
Qed.

Lemma Println_vaultless t0 text :
  hoare (vaultless_since W cfg t0) (Println text) (fun _ s => vaultless_since W cfg t0 s).
Proof.
  eapply (hoare_vaultless (fun e => is_stdout e = true)); [by apply emits_emit|].
  by intros [].
Qed.

(** One iteration whose Vault step adds only [vaultless] events and returns
    the client it was given. *)
Lemma deployHost_vaultless t0 resultPath sudoPasswd host vc :
  hoare (vaultless_since W cfg t0) (vaultStep W cfg host sudoPasswd vc)
        (fun r s => vaultless_since W cfg t0 s /\ r = Normal vc) ->
  hoare (vaultless_since W cfg t0) (deployHost W cfg resultPath sudoPasswd host vc)
        (fun r s => vaultless_since W cfg t0 s /\
                    forall vc', r = Normal vc' -> vc' = vc).
Proof.
  intros Hstep. unfold deployHost.
  eapply (hoare_bind _ _ _ (fun _ s => vaultless_since W cfg t0 s));
    [apply hoare_get | intros push | done | done].
  eapply (hoare_bind _ _ _ (fun _ s => vaultless_since W cfg t0 s));
    [apply pushPaths_step | intros _ | done | done].
  eapply (hoare_bind _ _ _ (fun _ s => vaultless_since W cfg t0 s));
    [apply Println_vaultless | intros _ | done | done].
  eapply hoare_bind; [apply Hstep | | by intros ? ? [? ?] | by intros ? ? [? ?] ].
  apply hoare_known.
  eapply (hoare_bind _ _ _ (fun _ s => vaultless_since W cfg t0 s));
    [apply hoare_get | intros upload | done | done].
  eapply (hoare_bind _ _ _ (fun _ s => vaultless_since W cfg t0 s));
    [apply uploadSecrets_step | intros _ | done | done].
  eapply (hoare_bind _ _ _ (fun _ s => vaultless_since W cfg t0 s));
    [apply hoare_get | intros activate | done | done].
  eapply (hoare_bind _ _ _ (fun _ s => vaultless_since W cfg t0 s));
    [apply activateConfiguration_step | intros _ | done | done].
  eapply (hoare_bind _ _ _ (fun _ s => vaultless_since W cfg t0 s));
    [ | intros _ | done | done].
  { eapply hoare_vaultless; [apply healthGate_emits|]. by intros []. }
  eapply (hoare_bind _ _ _ (fun _ s => vaultless_since W cfg t0 s));
    [apply Println_vaultless | intros _ | done | done].
  apply hoare_ret. intros s Hs. split; [done|]. by intros vc' [= <-].
Qed.

Lemma vaultStep_disabled t0 host sudoPasswd vc :
  Enable (Vault host) = false ->
  hoare (vaultless_since W cfg t0) (vaultStep W cfg host sudoPasswd vc)
        (fun r s => vaultless_since W cfg t0 s /\ r = Normal vc).
Proof. intros Hoff s Hs. unfold vaultStep. rewrite Hoff. by split. Qed.

Lemma vaultStep_unset host sudoPasswd s :
  vault_credentials_set W = false -> Enable (Vault host) = true ->
  vaultStep W cfg host sudoPasswd None s =
    (Normal None,
     log_all [EvStderr ("Vault: Please set VAULT_ADDR and VAULT_TOKEN in environment." +:+ nl);
              EvStderr ("" +:+ nl)] s).
Proof.
  intros Hunset Hon. unfold vaultStep. rewrite Hon.
  unfold bind at 1. by rewrite (vaultInit_without_credentials W s Hunset).
Qed.

Lemma vaultStep_without_credentials t0 host sudoPasswd :
  vault_credentials_set W = false ->
  hoare (vaultless_since W cfg t0) (vaultStep W cfg host sudoPasswd None)
        (fun r s => vaultless_since W cfg t0 s /\ r = Normal None).
Proof.
  intros Hunset. destruct (Enable (Vault host)) eqn:Hon; [|by apply vaultStep_disabled].
  intros s (d & Ht & Hd). rewrite (vaultStep_unset _ _ _ Hunset Hon).
  split; [|done]. eexists. simpl. rewrite Ht, <- !app_assoc. split; [done|].
  apply Forall_app. split; [done|]. by repeat constructor.
Qed.

Lemma deployHosts_vaultless t0 hosts resultPath sudoPasswd vc :
  (forall host, host ∈ hosts ->
     hoare (vaultless_since W cfg t0) (vaultStep W cfg host sudoPasswd vc)
           (fun r s => vaultless_since W cfg t0 s /\ r = Normal vc)) ->
  hoare (vaultless_since W cfg t0) (deployHosts W cfg hosts resultPath sudoPasswd vc)
        (fun r s => vaultless_since W cfg t0 s /\
                    forall vc', r = Normal vc' -> vc' = vc).
Proof.
  intros Hstep. unfold deployHosts. induction hosts as [|host hosts IH]; simpl.
  - apply hoare_ret. intros s Hs. split; [done|]. by intros vc' [= <-].
  - eapply hoare_bind.
    + apply deployHost_vaultless, Hstep. by left.
    + intros vc' s [Hs Hvc]. rewrite (Hvc vc' eq_refl).
      apply IH; [|done]. intros h Hh. apply Hstep. by right.
    + intros e s [Hs _]. split; [done|]. by intros vc' [=].
    + intros code s [Hs _]. split; [done|]. by intros vc' [=].
Qed.

(** X14.  Hosts that do not enable Vault cause no interaction with Vault at
    all: the loop of [doDeploy] over such hosts calls nothing of Vault, opens,
    writes and removes no file, uploads only the static secrets that the hosts
    declare, and returns the Vault client it was given. *)
Theorem hosts_without_vault_cause_no_vault_call (hosts : list Host)
    (resultPath sudoPasswd : string) (vc : option Client) (s : State) :
  Forall (fun host => Enable (Vault host) = false) hosts ->
  Forall (vaultless W cfg) (emitted (deployHosts W cfg hosts resultPath sudoPasswd vc) s) /\
  (forall vc', fst (deployHosts W cfg hosts resultPath sudoPasswd vc s) = Normal vc' ->
               vc' = vc).
Proof.
  intros Hoff. rewrite Forall_forall in Hoff.
  destruct (deployHosts_vaultless (trace s) hosts resultPath sudoPasswd vc) with (s := s)
    as [(d & Ht & Hd) Hvc].
  - intros host Hin. by apply vaultStep_disabled, Hoff.
  - exists []. by rewrite app_nil_r.
  - split; [|done]. unfold emitted. by rewrite Ht, drop_app_length.
Qed.

(** X15.  Unless [VAULT_ADDR] and [VAULT_TOKEN] are both set to more than one
    character, [doDeploy] never calls Vault, opens, writes and removes no
    file and uploads nothing but static secrets, also when hosts enable
    Vault: all that such a host gets is the request on standard error to set
    the two variables. *)
Theorem without_credentials_vault_is_never_called (s : State) :
  vault_credentials_set W = false ->
  Forall (vaultless W cfg) (emitted (doDeploy W cfg) s).
Proof.
  intros Hunset.
  assert (H : hoare (vaultless_since W cfg (trace s)) (doDeploy W cfg)
                (fun _ s' => vaultless_since W cfg (trace s) s')).
  { unfold doDeploy.
    inv_seq.
    { eapply hoare_vaultless; [apply (resolvePlan_emits (fun _ => False))|]. done. }
    inv_seq_as built.
    { eapply hoare_vaultless; [apply quiet_emits, build_quiet|]. by intros []. }
    destruct built as [hosts resultPath].
    inv_seq; [apply Println_vaultless|].
    inv_seq_as askPass; [apply hoare_get|].
    inv_seq_as sudoPasswd.
    { destruct askPass; [|by apply hoare_ret].
      inv_seq.
      { eapply hoare_vaultless; [apply quiet_emits, askForSudoPassword_quiet|].
        by intros []. }
      inv_seq; [apply Println_vaultless|].
      inv_seq; [apply Println_vaultless|].
      by apply hoare_ret. }
    eapply hoare_bind.
    - apply deployHosts_vaultless. intros host _.
      by apply vaultStep_without_credentials.
    - intros vc'. apply hoare_ret. by intros s0 [Hs0 _].
    - by intros e s0 [Hs0 _].
    - by intros code s0 [Hs0 _]. }
  destruct (H s) as (d & Ht & Hd); [exists []; by rewrite app_nil_r|].
  unfold emitted. by rewrite Ht, drop_app_length.
Qed.

End Without_vault.

(** * The Vault step and the files *)

Section Vault_step.

Variable W : World.
Variable cfg : Config.

Lemma rekeyStep_returns host sudoPasswd c s :
  fst (rekeyStep W cfg host sudoPasswd c s) = Normal tt.
Proof.
  destruct (rekeyStep_cases W cfg host sudoPasswd c s)
    as [(creds & r & removed & H & _) | (H & _)]; exact H.
Qed.

(** X16.  A failure of Vault never halts the deployment: whatever Vault, the
    file system and the upload answer, the Vault step of a host returns; it
    neither panics nor exits.  A client that is already in hand is returned
    as it is. *)
Theorem vault_failures_do_not_halt (host : Host) (sudoPasswd : string)
    (vc : option Client) (s : State) :
  exists vc',
    fst (vaultStep W cfg host sudoPasswd vc s) = Normal vc' /\
    (forall c, vc = Some c -> vc' = Some c).
Proof.
  unfold vaultStep. destruct (Enable (Vault host)); [|by exists vc].
  destruct vc as [c|].
  - exists (Some c). split; [|done]. unfold bind at 1. cbn. unfold bind.
    pose proof (rekeyStep_returns host sudoPasswd c s) as Hr.
    destruct (rekeyStep W cfg host sudoPasswd c s) as [r s1]. simpl in Hr. by subst r.
  - unfold bind at 1.
    destruct (vaultInit_cases W s) as [(c & Hrun) | (Hnone & _)].
    + rewrite Hrun. exists (Some c). split; [|done]. unfold bind.
      pose proof (rekeyStep_returns host sudoPasswd c
                    (log_all [EvVaultAuth (os_Getenv W "VAULT_ADDR")
                                (os_Getenv W "VAULT_TOKEN") (Ok c);
                              EvVaultConfigure c None] s)) as Hr.
      destruct (rekeyStep W cfg host sudoPasswd c _) as [r s1]. simpl in Hr. by subst r.
    + destruct (vaultInit W s) as [r s1]. simpl in Hnone. subst r.
      by exists None.
Qed.

Lemma hoare_frame {A} (f0 : gmap string string) (m : M A) :
  keeps_files m ->
  hoare (fun s => delete (tempFile cfg) (files s) = f0) m
        (fun _ s => delete (tempFile cfg) (files s) = f0).
Proof. intros Hm s Hs. by rewrite (Hm s). Qed.

Lemma vaultStep_frame f0 host sudoPasswd vc :
  hoare (fun s => delete (tempFile cfg) (files s) = f0)
        (vaultStep W cfg host sudoPasswd vc)
        (fun _ s => delete (tempFile cfg) (files s) = f0).
Proof.
  intros s Hs.
  destruct (vaultStep_cases W cfg host sudoPasswd vc s)
    as [(c & creds & d0 & r & removed & _ & _ & _ & Hf)|(vc' & _ & Hf & _)]; rewrite Hf.
  - destruct removed; simpl.
    + by rewrite delete_insert_eq.
    + by rewrite delete_delete_eq.
  - exact Hs.
Qed.

Lemma deployHost_frame f0 resultPath sudoPasswd host vc :
  hoare (fun s => delete (tempFile cfg) (files s) = f0)
        (deployHost W cfg resultPath sudoPasswd host vc)
        (fun _ s => delete (tempFile cfg) (files s) = f0).
Proof.
  unfold deployHost.
  inv_seq; [apply hoare_get|].
  inv_seq.
  { apply hoare_when, hoare_frame. by_quiet (pushPaths_quiet W [host] resultPath). }
  inv_seq; [apply hoare_frame, keeps_files_emit|].
  inv_seq; [apply vaultStep_frame|].
  inv_seq; [apply hoare_get|].
  inv_seq.
  { apply hoare_when, hoare_frame. by_quiet (uploadSecrets_quiet W cfg [host] sudoPasswd). }
  inv_seq; [apply hoare_get|].
  inv_seq.
  { apply hoare_when, hoare_frame.
    by_quiet (activateConfiguration_quiet W cfg [host] resultPath sudoPasswd). }
  inv_seq; [apply hoare_frame, healthGate_keeps_files|].
  inv_seq; [apply hoare_frame, keeps_files_emit|].
  by apply hoare_ret.
Qed.

(** X17.  The one file that [doDeploy] creates, writes or removes is the
    temporary credential file: however it ends, and whatever [os.Remove]
    answers, every other file is as it was before the run. *)
Theorem doDeploy_touches_one_file_only (s : State) :
  delete (tempFile cfg) (files (snd (doDeploy W cfg s))) = delete (tempFile cfg) (files s).
Proof.
  assert (H : hoare (fun s' => delete (tempFile cfg) (files s') =
                               delete (tempFile cfg) (files s))
                (doDeploy W cfg)
                (fun _ s' => delete (tempFile cfg) (files s') =
                             delete (tempFile cfg) (files s)));
    [|by apply H].
  unfold doDeploy.
  inv_seq.
  { intros s0 Hs0. by rewrite (proj2 (resolvePlan_trace cfg s0)). }
  inv_seq_as built; [apply hoare_frame; by_quiet (build_quiet W cfg)|].
  destruct built as [hosts resultPath].
  inv_seq; [apply hoare_frame, keeps_files_emit|].
  inv_seq_as askPass; [apply hoare_get|].
  inv_seq_as sudoPasswd.
  { destruct askPass; [|by apply hoare_ret].
    apply hoare_frame. unfold_prints. run_down.
    by_quiet (askForSudoPassword_quiet W). }
  inv_seq; [|by apply hoare_ret].
  unfold deployHosts. generalize (@None Client) as vc.
  induction hosts as [|host hosts IH]; intros vc.
  - by apply hoare_ret.
  - simpl. inv_seq; [apply deployHost_frame | apply IH].
Qed.

End Vault_step.

(** * Failing fast *)

(** A call that returns a value or an error, the error being fatal. *)
Lemma call_fatal {R} t0 (ask : History -> result R) ev :
  (forall x, fatal (ev (Ok x)) = false) ->
  (forall err, fatal_error (ev (Err err)) = Some err) ->
  (forall err, last_words (ev (Err err)) = []) ->
  hoare (fun s => unmarked_since fatal t0 (trace s)) (call ask ev)
        (fun r s => match r with
                    | Normal (Ok _) => unmarked_since fatal t0 (trace s)
                    | Normal (Err err) =>
                        exists e, fatal_error e = Some err /\
                                  stopped_since fatal t0 e (last_words e) (trace s)
                    | _ => False
                    end).
Proof.
  intros Hok Herr Hlast s (d & Ht & Hd). unfold call. simpl.
  destruct (ask (trace s)) as [x|err].
  - exists (d ++ [ev (Ok x)]). split; [by rewrite Ht, app_assoc|].
    apply Forall_app. split; [done|]. by constructor.
  - exists (ev (Err err)). split; [done|]. exists d.
    by rewrite Hlast, Ht, <- app_assoc.
Qed.

Lemma call_fatal_error t0 (ask : History -> option error) ev :
  fatal (ev None) = false ->
  (forall err, fatal_error (ev (Some err)) = Some err) ->
  (forall err, last_words (ev (Some err)) = []) ->
  hoare (fun s => unmarked_since fatal t0 (trace s)) (call ask ev)
        (fun r s => match r with
                    | Normal None => unmarked_since fatal t0 (trace s)
                    | Normal (Some err) =>
                        exists e, fatal_error e = Some err /\
                                  stopped_since fatal t0 e (last_words e) (trace s)
                    | _ => False
                    end).
Proof.
  intros Hok Herr Hlast s (d & Ht & Hd). unfold call. simpl.
  destruct (ask (trace s)) as [err|].
  - exists (ev (Some err)). split; [done|]. exists d.
    by rewrite Hlast, Ht, <- app_assoc.
  - exists (d ++ [ev None]). split; [by rewrite Ht, app_assoc|].
    apply Forall_app. split; [done|]. by constructor.
Qed.

(** The upload of a static secret: its failure is the first marked event. *)
Lemma upload_fatal t0 (ask : History -> option error) host sudoPasswd secret dir :
  String.eqb dir "./" = false ->
  hoare (fun s => unmarked_since fatal t0 (trace s))
        (call ask (EvUploadSecret host sudoPasswd secret dir))
        (fun r s => match r with
                    | Normal None => unmarked_since fatal t0 (trace s)
                    | Normal (Some err) =>
                        exists d, trace s =
                                    t0 ++ d ++ [EvUploadSecret host sudoPasswd secret dir
                                                  (Some err)] /\
                                  Forall (fun e => fatal e = false) d
                    | _ => False
                    end).
Proof.
  intros Hdir s (d & Ht & Hd). unfold call. simpl.
  destruct (ask (trace s)) as [err|].
  - exists d. by rewrite Ht, <- app_assoc.
  - exists (d ++ [EvUploadSecret host sudoPasswd secret dir None]).
    split; [by rewrite Ht, app_assoc|].
    apply Forall_app. split; [done|]. by constructor.
Qed.

(** A statement that cannot fail in such a way, then the rest. *)
Ltac safe_then_as x :=
  eapply (hoare_bind _ _ _ (fun _ s => unmarked_since fatal _ (trace s)));
    [ | intros x | by left | done ].

Ltac safe_then := let x := fresh "x" in safe_then_as x.

(** A call that can, and what is done with its answer. *)
Ltac fatal_call :=
  eapply hoare_bind;
    [first [apply call_fatal | apply call_fatal_error]; done | | done | done].

Section Fail_fast.

Variable W : World.
Variable cfg : Config.

Lemma unmarked_quiet {A} (P : Event -> Prop) t0 (m : M A) :
  emits P m -> (forall e, P e -> fatal e = false) ->
  hoare (fun s => unmarked_since fatal t0 (trace s)) m
        (fun _ s => unmarked_since fatal t0 (trace s)).
Proof. apply hoare_unmarked. Qed.

Lemma getHosts_failfast t0 deployment :
  hoare (fun s => unmarked_since fatal t0 (trace s)) (getHosts W cfg deployment)
        (returned_post t0).
Proof.
  unfold getHosts. destruct (filepath_Abs W deployment) as [path|err].
  2:{ apply hoare_ret. intros s Hs. by left. }
  unfold nix_GetMachines. fatal_call.
  intros [allHosts|err]; [|apply hoare_ret; intros s Hs; by right].
  destruct (filter_MatchHosts W allHosts (selectGlob cfg)) as [matchingHosts|err].
  2:{ apply hoare_ret. intros s Hs. by left. }
  eapply (hoare_bind _ _ _ (fun _ s => unmarked_since fatal t0 (trace s)));
    [by apply emit_unmarked | intros _ | done | done].
  eapply (hoare_bind _ _ _ (fun _ s => unmarked_since fatal t0 (trace s)));
    [ | intros _ | done | done].
  { eapply (unmarked_quiet (fun e => is_stdout e = true)); [|by intros []].
    apply respects_for_each; [apply _|]. intros [index host] _. by apply emits_emit. }
  eapply (hoare_bind _ _ _ (fun _ s => unmarked_since fatal t0 (trace s)));
    [by apply emit_unmarked | intros _ | done | done].
  by apply hoare_ret.
Qed.

Lemma build_failfast t0 :
  hoare (fun s => unmarked_since fatal t0 (trace s)) (build W cfg) (failfast_post t0).
Proof.
  unfold build. destruct (filepath_Abs W (deployDeployment cfg)) as [path|err].
  2:{ intros s Hs. by left. }
  eapply hoare_bind; [apply getHosts_failfast | | by left | done].
  intros [hosts|err]; [|by intros s Hs].
  unfold nix_BuildMachines. fatal_call.
  intros [resultPath|err]; [|intros s Hs; by right].
  safe_then; [by apply emit_unmarked|].
  by apply hoare_ret.
Qed.

Lemma askForSudoPassword_failfast t0 :
  hoare (fun s => unmarked_since fatal t0 (trace s)) (askForSudoPassword W)
        (failfast_post t0).
Proof.
  unfold askForSudoPassword.
  safe_then; [by apply emit_unmarked|].
  unfold terminal_ReadPassword. fatal_call.
  intros [bytePassword|err]; [by apply hoare_ret | intros s Hs; by right].
Qed.

Lemma pushPaths_failfast t0 hosts resultPath :
  hoare (fun s => unmarked_since fatal t0 (trace s)) (pushPaths W hosts resultPath)
        (failfast_post t0).
Proof.
  unfold pushPaths. apply hoare_for_each; [intros host | done | done].
  unfold nix_GetPathsToPush. fatal_call.
  intros [paths|err]; [|intros s Hs; by right].
  safe_then; [by apply emit_unmarked|].
  safe_then.
  { eapply (unmarked_quiet (fun e => is_stdout e = true)); [|by intros []].
    apply respects_for_each; [apply _|]. intros path _. by apply emits_emit. }
  safe_then; [by apply call_unmarked|].
  by apply hoare_ret.
Qed.

Lemma uploadSecrets_failfast t0 hosts sudoPasswd :
  hoare (fun s => unmarked_since fatal t0 (trace s)) (uploadSecrets W cfg hosts sudoPasswd)
        (failfast_post t0).
Proof.
  unfold uploadSecrets. apply hoare_for_each; [intros host | done | done].
  safe_then; [by apply emit_unmarked|].
  unfold range_Secrets. safe_then_as entries; [apply hoare_get|].
  apply hoare_for_each; [intros [secretName secret] | done | done].
  unfold secrets_GetSecretSize. fatal_call.
  intros [secretSize|err]; [|intros s Hs; by right].
  safe_then; [by apply emit_unmarked|].
  destruct (String.eqb (filepath_Dir W (deployDeployment cfg)) "./") eqn:Hdir.
  - safe_then_as r.
    { apply call_unmarked. intros [err|]; unfold fatal; simpl; by rewrite ?Hdir. }
    destruct r as [err|].
    + safe_then; [by apply emit_unmarked|]. intros s Hs. by left.
    + by apply emit_unmarked.
  - eapply hoare_bind; [apply (upload_fatal t0); exact Hdir | | done | done].
    intros [err|]; [|by apply emit_unmarked].
    intros s (d & Ht & Hd). right.
    exists (EvUploadSecret host sudoPasswd secret (filepath_Dir W (deployDeployment cfg))
              (Some err)).
    split; [simpl; by rewrite Hdir|]. exists d. split; [|exact Hd].
    simpl. by rewrite Ht, <- !app_assoc.
Qed.

Lemma activateConfiguration_failfast t0 hosts resultPath sudoPasswd :
  hoare (fun s => unmarked_since fatal t0 (trace s))
        (activateConfiguration W cfg hosts resultPath sudoPasswd)
        (failfast_post t0).
Proof.
  unfold activateConfiguration.
  safe_then; [by apply emit_unmarked|].
  safe_then; [by apply emit_unmarked|].
  apply hoare_for_each; [intros host | done | done].
  safe_then; [by apply emit_unmarked|].
  unfold nix_GetNixSystemPath. fatal_call.
  intros [configuration|err]; [|intros s Hs; by right].
  unfold ssh_ActivateConfiguration. fatal_call.
  intros [err|]; [intros s Hs; by right | by apply emit_unmarked].
Qed.

Lemma when_failfast t0 b (m : M unit) :
  hoare (fun s => unmarked_since fatal t0 (trace s)) m (failfast_post t0) ->
  hoare (fun s => unmarked_since fatal t0 (trace s)) (when b m) (failfast_post t0).
Proof. intros Hm. destruct b; [done | by apply hoare_ret]. Qed.

Ltac failfast_then_as L x :=
  eapply (hoare_bind _ _ _ (failfast_post _)); [apply L | intros x | done | done].

Ltac failfast_then L := let x := fresh "x" in failfast_then_as L x.

Lemma deployHost_failfast t0 resultPath sudoPasswd host vc :
  hoare (fun s => unmarked_since fatal t0 (trace s))
        (deployHost W cfg resultPath sudoPasswd host vc)
        (failfast_post t0).
Proof.
  unfold deployHost.
  safe_then; [apply hoare_get|].
  failfast_then (when_failfast t0); [apply pushPaths_failfast|].
  safe_then; [by apply emit_unmarked|].
  safe_then.
  { eapply unmarked_quiet; [apply vaultStep_emits|].
    intros [] He; simpl in He; try done. destruct He as [_ ->].
    unfold fatal. simpl. by destruct r. }
  safe_then; [apply hoare_get|].
  failfast_then (when_failfast t0); [apply uploadSecrets_failfast|].
  safe_then; [apply hoare_get|].
  failfast_then (when_failfast t0); [apply activateConfiguration_failfast|].
  safe_then.
  { eapply unmarked_quiet; [apply healthGate_emits|]. by intros []. }
  safe_then; [by apply emit_unmarked|].
  by apply hoare_ret.
Qed.

Lemma doDeploy_failfast t0 :
  hoare (fun s => unmarked_since fatal t0 (trace s)) (doDeploy W cfg) (failfast_post t0).
Proof.
  unfold doDeploy.
  safe_then.
  { eapply unmarked_quiet; [apply (resolvePlan_emits (fun _ => False))|]. done. }
  failfast_then_as build_failfast built. destruct built as [hosts resultPath].
  safe_then; [by apply emit_unmarked|].
  safe_then_as askPass; [apply hoare_get|].
  eapply (hoare_bind _ _ _ (failfast_post t0)); [ | intros sudoPasswd | done | done].
  { destruct askPass; [|by apply hoare_ret].
    failfast_then askForSudoPassword_failfast.
    safe_then; [by apply emit_unmarked|].
    safe_then; [by apply emit_unmarked|].
    by apply hoare_ret. }
  eapply (hoare_bind _ _ _ (failfast_post t0)); [ | intros vc' | done | done].
  { unfold deployHosts. generalize (@None Client) as vc.
    induction hosts as [|host hosts IH]; intros vc.
    - by apply hoare_ret.
    - simpl. failfast_then deployHost_failfast. apply IH. }
  by apply hoare_ret.
Qed.

(** X18.  [doDeploy] fails fast.  When the inventory cannot be read, the
    build fails, the password cannot be read, the paths to push, the size of
    a secret or the system path of a host cannot be found, the upload of a
    static secret or an activation fails, [doDeploy] panics with the error of
    that call, and that call is the last thing that happened, but for the
    word [Failed] after an upload: no host is touched after it. *)
Theorem doDeploy_fails_fast (s : State) (d d' : History) (e : Event) (err : error) :
  emitted (doDeploy W cfg) s = d ++ e :: d' ->
  fatal_error e = Some err ->
  fst (doDeploy W cfg s) = Panic err /\ d' = last_words e.
Proof.
  intros Heq He.
  assert (Hf : fatal e = true) by (unfold fatal; by rewrite He).
  pose proof (doDeploy_failfast (trace s) s) as Hpost.
  unfold emitted in Heq.
  assert (Hnot : forall s1, unmarked_since fatal (trace s) (trace s1) ->
                            drop (length (trace s)) (trace s1) = d ++ e :: d' -> False).
  { intros s1 (d0 & Ht & Hd0) H1. rewrite Ht, drop_app_length in H1. rewrite H1 in Hd0.
    apply Forall_app in Hd0 as [_ Hd0]. apply Forall_cons in Hd0 as [Hd0 _]. congruence. }
  destruct (doDeploy W cfg s) as [[[]|e0|code] s1]; simpl in *.
  - destruct (Hnot s1); [apply Hpost; exists []; by rewrite app_nil_r | done].
  - destruct Hpost as [Hu|(e1 & He1 & d0 & Ht & Hd0)]; [exists []; by rewrite app_nil_r| |].
    + by destruct (Hnot s1).
    + rewrite Ht, drop_app_length in Heq.
      destruct (marked_once fatal d0 (last_words e1) d d' e1 e) as (_ & -> & ->);
        [done | by destruct e1; repeat constructor
        | unfold fatal; by rewrite He1 | done | done |].
      split; [|done]. congruence.
  - destruct (Hnot s1); [apply Hpost; exists []; by rewrite app_nil_r | done].
Qed.

End Fail_fast.

(** * What a phase has done when it returns *)

(** The history of a loop that returns is one segment for each element. *)
Lemma for_each_segments {A} (P : Event -> Prop) (R : A -> History -> Prop)
    (body : A -> M unit) (xs : list A) s :
  (forall x, emits P (body x)) ->
  (forall x s, x ∈ xs -> fst (body x s) = Normal tt -> R x (emitted (body x) s)) ->
  fst (for_each xs body s) = Normal tt ->
  exists ds, emitted (for_each xs body) s = concat ds /\ Forall2 R xs ds.
Proof.
  intros Hem Hbody. unfold for_each. revert s.
  induction xs as [|x xs IH]; intros s Hret.
  - exists []. split; [|constructor]. unfold emitted. simpl. by rewrite drop_ge by lia.
  - simpl in *.
    rewrite (emitted_bind P); [|apply Hem|].
    2:{ intros []. apply respects_for_range; [apply _|]. intros y ? _. apply Hem. }
    pose proof (Hbody x s (list_elem_of_here _ _)) as Hx.
    unfold bind in Hret.
    destruct (body x s) as [[[]|e|code] s1]; simpl in *; try done.
    destruct (IH (fun y s0 Hy => Hbody y s0 (list_elem_of_further _ _ _ Hy)) s1 Hret)
      as (ds & Hds & HR).
    exists (emitted (body x) s :: ds). simpl. rewrite Hds. split; [done|].
    constructor; [by apply Hx | done].
Qed.

Lemma omap_concat {A B C} (f : A -> option B) (g : C -> list B) xs (ds : list (list A)) :
  Forall2 (fun x d => omap f d = g x) xs ds ->
  omap f (concat ds) = xs ≫= g.
Proof.
  induction 1 as [|x d xs ds Hd _ IH]; [done|].
  simpl. by rewrite omap_app, Hd, IH.
Qed.

Lemma omap_none {A B C} (f : A -> option B) (g : C -> A) (xs : list C) :
  (forall x, f (g x) = None) -> omap f (map g xs) = [].
Proof. intros H. induction xs as [|x xs IH]; simpl; [done|]. by rewrite H. Qed.

Lemma bind_singleton {A B} (f : A -> B) (xs : list A) :
  xs ≫= (fun x => [f x]) = f <$> xs.
Proof. induction xs as [|x xs IH]; [done|]. simpl. by f_equal. Qed.

Lemma segments_agree {A B} (f g : Event -> option (A * B)) xs (ds : list History) :
  Forall2 (fun x d => exists y, omap f d = [(x, y)] /\ omap g d = [(x, y)]) xs ds ->
  (omap f (concat ds)).*1 = xs /\ omap f (concat ds) = omap g (concat ds).
Proof.
  induction 1 as [|x d xs ds (y & Hf & Hg) _ [IH1 IH2]]; [done|].
  simpl. rewrite !omap_app, Hf, Hg. simpl. split; [by f_equal | by f_equal].
Qed.

Lemma emitted_emit_then {A} (P : Event -> Prop) e (k : M A) s :
  emits P k -> emitted (Println e ;; k) s = EvStdout (e +:+ nl) :: emitted k (log (EvStdout (e +:+ nl)) s).
Proof.
  intros Hk. destruct (Hk (log (EvStdout (e +:+ nl)) s)) as (d & Ht & _).
  unfold emitted, Println, bind, emit. simpl in *. rewrite Ht.
  rewrite (drop_app_length (trace s ++ [EvStdout (e +:+ nl)]) d).
  by rewrite <- app_assoc, drop_app_length.
Qed.

Section Returns.

Variable W : World.
Variable cfg : Config.

Lemma upload_of_one_secret host sudoPasswd (named : string * Secret) s :
  let body := fun '(secretName, secret) =>
    r <- secrets_GetSecretSize W secret (filepath_Dir W (deployDeployment cfg)) ;;
    match r with
    | Err err => panic err
    | Ok secretSize =>
        Print (tab +:+ "* " +:+ secretName +:+ " (" +:+ fmt_d secretSize +:+
               " bytes).. ") ;;
        err <- secrets_UploadSecret W host sudoPasswd secret
                 (filepath_Dir W (deployDeployment cfg)) ;;
        match err with
        | Some err => Println "Failed" ;; panic err
        | None => Println "OK"
        end
    end in
  fst (body named s) = Normal tt ->
  omap uploaded (emitted (body named) s) = [(host, named.2)].
Proof.
  destruct named as [secretName secret]. intros body. unfold emitted.
  destruct (body (secretName, secret) s) as [c s'] eqn:Hrun. cbn [fst snd]. intros ->.
  unfold body, secrets_GetSecretSize, secrets_UploadSecret, Print, Println, panic in Hrun.
  unfold bind at 1, call at 1 in Hrun.
  destruct (ask_secrets_GetSecretSize W _ _ _) as [secretSize|err]; [|done].
  unfold bind at 1, emit at 1 in Hrun. unfold bind at 1, call at 1 in Hrun.
  destruct (ask_secrets_UploadSecret W _ _ _ _ _) as [err|] eqn:Hup; [done|].
  unfold emit in Hrun. injection Hrun as <-. simpl.
  rewrite <- !app_assoc, drop_app_length. simpl. done.
Qed.

Lemma range_run {A} entries (k : list (string * Secret) -> M A) s :
  (arranged <- range_Secrets W entries ;; k arranged) s =
    k (ask_range_Secrets W (trace s) entries) s.
Proof. reflexivity. Qed.

Lemma emitted_range {A} entries (k : list (string * Secret) -> M A) s :
  emitted (arranged <- range_Secrets W entries ;; k arranged) s =
    emitted (k (ask_range_Secrets W (trace s) entries)) s.
Proof. reflexivity. Qed.

Lemma arranged_segments (hosts : list Host) (ds : list History) :
  Forall2 (fun host d =>
             exists entries, entries ≡ₚ Secrets host /\
               omap uploaded d = (fun named => (host, named.2)) <$> entries) hosts ds ->
  exists arranged,
    Forall2 (fun host entries => entries ≡ₚ Secrets host) hosts arranged /\
    omap uploaded (concat ds) =
      mjoin (zip_with (fun host entries => (fun named => (host, named.2)) <$> entries)
               hosts arranged).
Proof.
  induction 1 as [|host d hosts ds (entries & Hp & Hd) _ (arranged & Hall & IH)].
  - by exists [].
  - exists (entries :: arranged). split; [by constructor|].
    simpl. by rewrite omap_app, Hd, IH.
Qed.

(** X19.  When [uploadSecrets] returns, every secret that a host declares
    has been uploaded to it with success, exactly once, and nothing else has
    been uploaded.  The hosts come in the order of the list; the secrets of
    one host come in the order in which the [range] over the map yielded
    them, which is some arrangement of its entries. *)
Theorem every_secret_is_uploaded (hosts : list Host) (sudoPasswd : string) (s : State) :
  fst (uploadSecrets W cfg hosts sudoPasswd s) = Normal tt ->
  exists arranged,
    Forall2 (fun host entries => entries ≡ₚ Secrets host) hosts arranged /\
    omap uploaded (emitted (uploadSecrets W cfg hosts sudoPasswd) s) =
      mjoin (zip_with (fun host entries => (fun named => (host, named.2)) <$> entries)
               hosts arranged).
Proof.
  intros Hret. unfold uploadSecrets in *.
  eapply (for_each_segments (fun _ => True)
            (fun host d =>
               exists entries, entries ≡ₚ Secrets host /\
                 omap uploaded d = (fun named => (host, named.2)) <$> entries))
    in Hret as (ds & -> & HR); [by apply arranged_segments | |].
  - intros host. unfold_prints. run_down; done.
  - intros host s0 _ Hret0.
    rewrite (emitted_bind (fun _ => True)).
    2:{ by apply emits_emit. }
    2:{ intros []. unfold_prints. run_down; done. }
    unfold bind at 1 in Hret0. unfold Print at 1, emit at 1 in Hret0.
    unfold Print at 1 2, emit at 1 2.
    cbn [fst snd] in Hret0 |- *.
    rewrite omap_app.
    replace (omap uploaded (emitted _ s0)) with (@nil (Host * Secret)).
    2:{ unfold emitted. simpl. by rewrite drop_app_length. }
    rewrite range_run in Hret0. rewrite emitted_range.
    eexists. split; [apply range_Secrets_perm|].
    eapply (for_each_segments (fun _ => True)
              (fun (named : string * Secret) d => omap uploaded d = [(host, named.2)]))
      in Hret0 as (ds0 & -> & HR0).
    + simpl. rewrite (omap_concat _ _ _ _ HR0). apply bind_singleton.
    + intros [secretName secret]. unfold_prints. run_down; done.
    + intros named s1 _. apply upload_of_one_secret.
Qed.

Lemma activation_of_one_host resultPath sudoPasswd host s :
  let body :=
    Println ("** " +:+ TargetHost host) ;;
    r <- nix_GetNixSystemPath W host resultPath ;;
    match r with
    | Err err => panic err
    | Ok configuration =>
        err <- ssh_ActivateConfiguration W host configuration (switchAction cfg)
                 sudoPasswd ;;
        match err with
        | Some err => panic err
        | None => Println ""
        end
    end in
  fst (body s) = Normal tt ->
  exists configuration,
    omap activated (emitted body s) = [(host, configuration)] /\
    omap system_path_found (emitted body s) = [(host, configuration)].
Proof.
  intros body. unfold emitted.
  destruct (body s) as [c s'] eqn:Hrun. cbn [fst snd]. intros ->.
  unfold body, nix_GetNixSystemPath, ssh_ActivateConfiguration, Println, panic in Hrun.
  unfold bind at 1, emit at 1 in Hrun. unfold bind at 1, call at 1 in Hrun.
  destruct (ask_nix_GetNixSystemPath W _ _ _) as [configuration|err]; [|done].
  unfold bind at 1, call at 1 in Hrun.
  destruct (ask_ssh_ActivateConfiguration W _ _ _ _ _) as [err|]; [done|].
  unfold emit in Hrun. injection Hrun as <-. exists configuration. simpl.
  rewrite <- !app_assoc, drop_app_length. simpl. done.
Qed.

(** X20.  When [activateConfiguration] returns, every host of the list has
    been activated with success, once, in the order of the list, and each
    with the system path that [nix.GetNixSystemPath] returned for it. *)
Theorem every_host_is_activated (hosts : list Host) (resultPath sudoPasswd : string)
    (s : State) :
  fst (activateConfiguration W cfg hosts resultPath sudoPasswd s) = Normal tt ->
  (omap activated (emitted (activateConfiguration W cfg hosts resultPath sudoPasswd) s)).*1
    = hosts /\
  omap activated (emitted (activateConfiguration W cfg hosts resultPath sudoPasswd) s) =
    omap system_path_found
      (emitted (activateConfiguration W cfg hosts resultPath sudoPasswd) s).
Proof.
  intros Hret. unfold activateConfiguration in *.
  rewrite !(emitted_emit_then (fun _ => True)); try (unfold_prints; run_down; done).
  change (fst (for_each hosts
                 (fun host =>
                    Println ("** " +:+ TargetHost host) ;;
                    r <- nix_GetNixSystemPath W host resultPath ;;
                    match r with
                    | Err err => panic err
                    | Ok configuration =>
                        err <- ssh_ActivateConfiguration W host configuration
                                 (switchAction cfg) sudoPasswd ;;
                        match err with
                        | Some err => panic err
                        | None => Println ""
                        end
                    end)
                 (log (EvStdout ("" +:+ nl))
                    (log (EvStdout (("Executing '" +:+ switchAction cfg +:+
                                     "' on matched hosts:") +:+ nl)) s)))
          = Normal tt) in Hret.
  simpl omap.
  eapply (for_each_segments (fun _ => True)
            (fun host d => exists configuration,
               omap activated d = [(host, configuration)] /\
               omap system_path_found d = [(host, configuration)]))
    in Hret as (ds & -> & HR).
  - by apply segments_agree.
  - intros host. unfold_prints. run_down; done.
  - intros host s0 _. apply activation_of_one_host.
Qed.

Lemma push_to_one_host resultPath host s :
  let body :=
    r <- nix_GetPathsToPush W host resultPath ;;
    match r with
    | Err err => panic err
    | Ok paths =>
        Print ("Pushing paths to " +:+ TargetHost host +:+ ":" +:+ nl) ;;
        for_each paths (fun path => Print (tab +:+ "* " +:+ path +:+ nl)) ;;
        _ <- nix_Push W host paths ;;
        ret tt
    end in
  fst (body s) = Normal tt ->
  exists paths,
    omap pushed (emitted body s) = [(host, paths)] /\
    omap paths_found (emitted body s) = [(host, paths)].
Proof.
  intros body. unfold emitted.
  destruct (body s) as [c s'] eqn:Hrun. cbn [fst snd]. intros ->.
  unfold body, nix_GetPathsToPush, nix_Push, Print, panic in Hrun.
  unfold bind at 1, call at 1 in Hrun.
  destruct (ask_nix_GetPathsToPush W _ _ _) as [paths|err]; [|done].
  unfold bind at 1, emit at 1 in Hrun. unfold bind at 1 in Hrun.
  rewrite (for_each_emit _ (fun path => EvStdout (tab +:+ "* " +:+ path +:+ nl)))
    in Hrun by done.
  unfold bind, call, ret in Hrun. injection Hrun as <-. exists paths. simpl.
  rewrite <- !app_assoc, drop_app_length. simpl.
  rewrite !omap_app, !omap_none by done. done.
Qed.

(** X21.  When [pushPaths] returns, every host of the list has been pushed
    to, once, in the order of the list, and each has been sent the paths that
    [nix.GetPathsToPush] returned for it. *)
Theorem every_host_is_pushed_to (hosts : list Host) (resultPath : string) (s : State) :
  fst (pushPaths W hosts resultPath s) = Normal tt ->
  (omap pushed (emitted (pushPaths W hosts resultPath) s)).*1 = hosts /\
  omap pushed (emitted (pushPaths W hosts resultPath) s) =
    omap paths_found (emitted (pushPaths W hosts resultPath) s).
Proof.
  intros Hret. unfold pushPaths in *.
  eapply (for_each_segments (fun _ => True)
            (fun host d => exists paths,
               omap pushed d = [(host, paths)] /\
               omap paths_found d = [(host, paths)]))
    in Hret as (ds & -> & HR).
  - by apply segments_agree.
  - intros host. unfold_prints. run_down; done.
  - intros host s0 _. apply push_to_one_host.
Qed.

End Returns.

(** The order within a host is that of the [range]: in a world that yields
    the entries of the map last to first, the secret declared last is
    uploaded first. *)
Example secrets_are_uploaded_as_the_range_yields_them :
  let host := Scenario.twoSecrets "A" in
  let W := with_range (Sample.world [host] Sample.noEnv true true [] [] [] [])
             reverse reverse_Permutation in
  let run := uploadSecrets W (Sample.config false "switch") [host] "" in
  fst (run initial) = Normal tt /\
  Source <$> (omap uploaded (emitted run initial)).*2 = ["tls.key"; "db.key"].
Proof. vm_compute. done. Qed.

(** * The command [check-health] *)

Section Check_health.

Variable W : World.
Variable cfg : Config.

(** X22.  [check-health] only checks.  Whatever happens, [doHealthCheck]
    reads the inventory and performs health checks and does nothing else: it
    builds, pushes, uploads and activates nothing, calls nothing of Vault,
    leaves the plan and the files alone and never ends the process.  It
    panics only when the hosts cannot be selected, with the error of the
    selection, and then no health check has been performed. *)
Theorem check_health_only_checks (s : State) :
  Forall doHealthCheck_event (emitted (doHealthCheck W cfg) s) /\
  plan (snd (doHealthCheck W cfg s)) = plan s /\
  files (snd (doHealthCheck W cfg s)) = files s /\
  (forall code, fst (doHealthCheck W cfg s) <> Exit code) /\
  (forall err,
     fst (doHealthCheck W cfg s) = Panic err ->
     fst (getHosts W cfg (healthCheckDeployment cfg) s) = Normal (Err err) /\
     Forall (fun e => health_check e = false) (emitted (doHealthCheck W cfg) s)).
Proof.
  destruct (doHealthCheck_quiet W cfg s) as (Hp & Hf & Hne & Hg).
  split; [by eapply grows_emitted, quiet_emits, doHealthCheck_quiet|].
  split; [done|]. split; [done|]. split.
  { intros code Hexit. apply (Hne code). by rewrite Hexit. }
  intros err. unfold emitted.
  destruct (doHealthCheck W cfg s) as [c' s'] eqn:Hrun. cbn [fst snd] in *.
  unfold doHealthCheck, bind at 1 in Hrun.
  destruct (getHosts_returns W cfg (healthCheckDeployment cfg) s) as [r Hr].
  destruct (grows_emitted getHosts_event (getHosts W cfg (healthCheckDeployment cfg)) s)
    as [Ht Hd]; [apply quiet_emits, getHosts_quiet|].
  destruct (getHosts W cfg (healthCheckDeployment cfg) s) as [c s1].
  simpl in Hr, Ht. subst c. destruct r as [hosts|err0].
  - rewrite (health_loop W (healthCheckTimeout cfg) hosts s1) in Hrun. by injection Hrun as <- <-.
  - injection Hrun as <- <-. intros [= ->]. split; [done|]. rewrite Ht, drop_app_length.
    eapply Forall_impl; [exact Hd|]. by intros [].
Qed.

End Check_health.

(** * Failures of Vault are reported *)

Lemma printVaultWarning_run err s :
  printVaultWarning err s = (Normal tt, log_all (vaultWarning err) s).
Proof.
  unfold printVaultWarning, Eprintln, Eprint, emit, bind, log, log_all, vaultWarning.
  simpl. by rewrite <- !app_assoc.
Qed.

Section Reported.

Variable W : World.
Variable cfg : Config.

(** The warning after the failure [e], and the value that is returned. *)
Lemma warning_then_return {A} t0 e err (a : A) :
  vault_failure e = Some err ->
  hoare (fun s => stopped_since vault_failed t0 e [] (trace s))
        (printVaultWarning err ;; ret a)
        (fun r s => r = Normal a /\
                    exists e err, vault_failure e = Some err /\
                      stopped_since vault_failed t0 e (vaultWarning err) (trace s)).
Proof.
  intros He s (d & Ht & Hd). unfold bind. rewrite printVaultWarning_run. simpl.
  split; [done|]. exists e, err. split; [done|]. exists d. split; [|done].
  by rewrite Ht, <- !app_assoc.
Qed.

Lemma Vault_call t0 {R} (ask : History -> result R) ev :
  (forall x, vault_failed (ev (Ok x)) = false) ->
  hoare (fun s => unmarked_since vault_failed t0 (trace s)) (call ask ev)
        (fun r s => match r with
                    | Normal (Ok _) => unmarked_since vault_failed t0 (trace s)
                    | Normal (Err err) =>
                        stopped_since vault_failed t0 (ev (Err err)) [] (trace s)
                    | _ => False
                    end).
Proof.
  intros Hok s (d & Ht & Hd). unfold call. simpl.
  destruct (ask (trace s)) as [x|err].
  - exists (d ++ [ev (Ok x)]). split; [by rewrite Ht, app_assoc|].
    apply Forall_app. split; [done|]. by constructor.
  - exists d. by rewrite Ht, <- app_assoc.
Qed.

Lemma Vault_call_error t0 (ask : History -> option error) ev :
  vault_failed (ev None) = false ->
  hoare (fun s => unmarked_since vault_failed t0 (trace s)) (call ask ev)
        (fun r s => match r with
                    | Normal None => unmarked_since vault_failed t0 (trace s)
                    | Normal (Some err) =>
                        stopped_since vault_failed t0 (ev (Some err)) [] (trace s)
                    | _ => False
                    end).
Proof.
  intros Hok s (d & Ht & Hd). unfold call. simpl.
  destruct (ask (trace s)) as [err|].
  - exists d. by rewrite Ht, <- app_assoc.
  - exists (d ++ [ev None]). split; [by rewrite Ht, app_assoc|].
    apply Forall_app. split; [done|]. by constructor.
Qed.

Lemma os_OpenFile_reported t0 name :
  hoare (fun s => unmarked_since vault_failed t0 (trace s)) (os_OpenFile W name)
        (fun r s => match r with
                    | Normal None => unmarked_since vault_failed t0 (trace s)
                    | Normal (Some err) =>
                        stopped_since vault_failed t0 (EvOpenFile name (Some err)) []
                          (trace s)
                    | _ => False
                    end).
Proof.
  intros s (d & Ht & Hd). unfold os_OpenFile. simpl.
  destruct (ask_os_OpenFile W (trace s) name) as [err|]; simpl.
  - exists d. by rewrite Ht, <- app_assoc.
  - exists (d ++ [EvOpenFile name None]). split; [by rewrite Ht, app_assoc|].
    apply Forall_app. split; [done|]. by constructor.
Qed.

(** A statement that returns and has nothing to do with Vault. *)
Lemma step_unmarked {A} (P : Event -> Prop) t0 (m : M A) :
  emits P m -> (forall e, P e -> vault_failed e = false) ->
  (forall s, exists a, fst (m s) = Normal a) ->
  hoare (fun s => unmarked_since vault_failed t0 (trace s)) m
        (fun r s => match r with
                    | Normal _ => unmarked_since vault_failed t0 (trace s)
                    | _ => False
                    end).
Proof.
  intros Hm HP Hret s Hs. destruct (Hret s) as [a ->].
  by apply (hoare_unmarked P vault_failed t0 m Hm HP s).
Qed.

Ltac plain_step :=
  eapply hoare_bind;
    [ eapply (step_unmarked (fun e => vault_failed e = false));
      [ first [ by apply emits_write_file | by apply emits_os_Remove
              | by apply emits_emit | by apply emits_call ]
      | done
      | intros ?; by eexists ]
    | intros ?
    | done
    | done ].

(** What [vaultInit] returns: a client only if nothing failed. *)
Lemma vaultInit_reported t0 :
  hoare (fun s => unmarked_since vault_failed t0 (trace s)) (vaultInit W)
        (fun r s => match r with
                    | Normal (Some _) => unmarked_since vault_failed t0 (trace s)
                    | Normal None => reported_post t0 r s
                    | _ => False
                    end).
Proof.
  unfold vaultInit. destruct (_ && _).
  - unfold vault_Auth, vault_Configure.
    eapply hoare_bind; [by apply Vault_call | | done | done].
    intros [c|err].
    + eapply hoare_bind; [by apply Vault_call_error | | done | done].
      intros [err|]; [|by apply hoare_ret].
      intros s Hs.
      destruct (warning_then_return t0 (EvVaultConfigure c (Some err)) err (@None Client) eq_refl s Hs) as [-> Hrep].
      by right.
    + intros s Hs.
      destruct (warning_then_return t0 (EvVaultAuth (os_Getenv W "VAULT_ADDR") (os_Getenv W "VAULT_TOKEN") (Err err)) err (@None Client) eq_refl s Hs) as [-> Hrep].
      by right.
  - intros s Hs. left. revert s Hs.
    eapply (hoare_unmarked (fun e => written_to_stderr e = true));
      [unfold_prints; run_down; done | by intros []].
Qed.

Lemma rekeyStep_reported t0 host sudoPasswd c :
  hoare (fun s => unmarked_since vault_failed t0 (trace s))
        (rekeyStep W cfg host sudoPasswd c) (reported_post t0).
Proof.
  unfold rekeyStep, vaultReKey, vault_CreateOrReKeyHostToken.
  eapply (hoare_bind _ _ _ (fun r s =>
            match r with
            | Normal (Some _) => unmarked_since vault_failed t0 (trace s)
            | Normal None => reported_post t0 r s
            | _ => False
            end)); [ | | done | done].
  - eapply hoare_bind; [by apply Vault_call | | done | done].
    intros [creds|err].
    + eapply hoare_bind; [apply os_OpenFile_reported | | done | done].
      intros [err|].
      * intros s Hs.
        destruct (warning_then_return t0 (EvOpenFile (tempFile cfg) (Some err)) err (@None Secret) eq_refl s Hs) as [-> Hrep].
        by right.
      * unfold Print, Println. plain_step. plain_step. plain_step.
        by apply hoare_ret.
    + intros s Hs.
      destruct (warning_then_return t0 (EvCreateOrReKeyHostToken c host (Err err)) err (@None Secret) eq_refl s Hs) as [-> Hrep].
      by right.
  - intros [secret|]; [|by apply hoare_ret].
    unfold secrets_UploadSecret. plain_step.
    intros s Hs. left. revert s Hs.
    eapply (hoare_unmarked (fun e => vault_failed e = false));
      [by apply emits_os_Remove | done].
Qed.

Lemma vaultStep_reported t0 host sudoPasswd vc :
  hoare (fun s => unmarked_since vault_failed t0 (trace s))
        (vaultStep W cfg host sudoPasswd vc) (reported_post t0).
Proof.
  unfold vaultStep. destruct (Enable (Vault host)); [|intros s Hs; by left].
  eapply (hoare_bind _ _ _ (fun r s =>
            match r with
            | Normal (Some _) => unmarked_since vault_failed t0 (trace s)
            | Normal None => reported_post t0 r s
            | _ => False
            end)); [ | | done | done].
  - destruct vc as [c|]; [by apply hoare_ret | apply vaultInit_reported].
  - intros [c|].
    + eapply hoare_bind; [apply rekeyStep_reported | | done | done].
      intros []. by apply hoare_ret.
    + by apply hoare_ret.
Qed.

(** X23.  A failure of Vault is reported and ends the Vault step of the
    host: when the authentication, the configuration, the rekeying of the
    token or the opening of the credential file fails, the warning of
    [printVaultWarning] with the error of that call is written to standard
    error, and that is the last thing the step does; nothing of Vault had
    failed before. *)
Theorem vault_failure_is_reported (host : Host) (sudoPasswd : string) (vc : option Client)
    (s : State) (d d' : History) (e : Event) (err : error) :
  emitted (vaultStep W cfg host sudoPasswd vc) s = d ++ e :: d' ->
  vault_failure e = Some err ->
  d' = vaultWarning err /\ Forall (fun e => vault_failed e = false) d.
Proof.
  intros Heq He.
  assert (Hf : vault_failed e = true) by (unfold vault_failed; by rewrite He).
  pose proof (vaultStep_reported (trace s) host sudoPasswd vc s) as Hpost.
  unfold emitted in Heq.
  destruct (vaultStep W cfg host sudoPasswd vc s) as [[vc'|e0|code] s1]; simpl in *;
    try (destruct Hpost; exists []; by rewrite app_nil_r).
  destruct Hpost as [(d0 & Ht & Hd0)|(e1 & err1 & He1 & d0 & Ht & Hd0)];
    [exists []; by rewrite app_nil_r| |].
  - rewrite Ht, drop_app_length in Heq. rewrite Heq in Hd0.
    apply Forall_app in Hd0 as [_ Hd0]. apply Forall_cons in Hd0 as [Hd0 _]. congruence.
  - rewrite Ht, drop_app_length in Heq.
    destruct (marked_once vault_failed d0 (vaultWarning err1) d d' e1 e)
      as (-> & -> & ->);
      [done | by repeat constructor | unfold vault_failed; by rewrite He1 | done | done |].
    split; [|done]. congruence.
Qed.

End Reported.

(** * How often the session is attempted *)

Lemma authentications_app d1 d2 :
  authentications (d1 ++ d2) = (authentications d1 + authentications d2)%nat.
Proof. unfold authentications. by rewrite List.filter_app, length_app. Qed.

Lemma authentications_none (P : Event -> Prop) d :
  (forall e, P e -> is_auth e = false) -> Forall P d -> authentications d = 0%nat.
Proof.
  intros HP Hd. unfold authentications. induction Hd as [|e d He Hd IH]; simpl; [done|].
  by rewrite (HP e He).
Qed.

Lemma no_vault_since_refl t : no_vault_since t t.
Proof. exists []. by rewrite app_nil_r. Qed.

Lemma no_vault_since_more t0 t d :
  no_vault_since t0 t -> Forall no_vault d -> no_vault_since t0 (t ++ d).
Proof.
  intros (d0 & -> & Hd0) Hd. exists (d0 ++ d). rewrite app_assoc. split; [done|].
  by apply Forall_app.
Qed.

Lemma no_vault_unauthenticated e : no_vault e -> is_auth e = false.
Proof. by destruct e. Qed.

Lemma stepped_since_more W host vc vc1 t0 t d :
  stepped_since W host vc vc1 t0 t -> Forall no_vault d ->
  stepped_since W host vc vc1 t0 (t ++ d).
Proof.
  intros (d0 & -> & H) Hd. exists (d0 ++ d). rewrite app_assoc. split; [done|].
  rewrite authentications_app, (authentications_none no_vault d);
    [|apply no_vault_unauthenticated|done].
  rewrite Nat.add_0_r.
  destruct vc as [c|]; [done|]. destruct H as [Hn Hc]. split; [done|].
  destruct vc1 as [c'|]; [|done]. apply elem_of_app. by left.
Qed.

Section Attempts.

Variable W : World.
Variable cfg : Config.

Lemma emitted_call {R} (ask : History -> R) ev s :
  emitted (call ask ev) s = [ev (ask (trace s))].
Proof. unfold emitted, call. simpl. by rewrite drop_app_length. Qed.

(** [vaultInit] returns; it calls [vault.Auth] once when the credentials are
    set and not at all when they are not; a client comes out only of a
    configuration that succeeds. *)
Lemma vaultInit_attempts s :
  exists vc,
    fst (vaultInit W s) = Normal vc /\
    authentications (emitted (vaultInit W) s) =
      (if vault_credentials_set W then 1 else 0)%nat /\
    match vc with
    | Some c => EvVaultConfigure c None ∈ emitted (vaultInit W) s
    | None => True
    end.
Proof.
  assert (Hcount : authentications (emitted (vaultInit W) s) =
                     (if vault_credentials_set W then 1 else 0)%nat).
  { unfold vaultInit, vault_credentials_set.
    destruct ((1 <? slen (os_Getenv W "VAULT_ADDR"))%Z &&
              (1 <? slen (os_Getenv W "VAULT_TOKEN"))%Z).
    - rewrite (emitted_bind (fun _ => True)).
      2:{ unfold_prints. run_down; done. }
      2:{ intros r. unfold printVaultWarning. unfold_prints. run_down; done. }
      unfold vault_Auth at 1 2. rewrite emitted_call. unfold call at 1.
      rewrite authentications_app.
      rewrite (authentications_none (fun e => is_auth e = false) (emitted _ _)); [done|done|].
      eapply grows_emitted.
      unfold printVaultWarning. unfold_prints. run_down; done.
    - apply (authentications_none (fun e => is_auth e = false)); [done|].
      eapply grows_emitted. unfold_prints. run_down; done. }
  destruct (vaultInit_cases W s) as [(c & Hinit)|(Hr & _)].
  - exists (Some c). split; [by rewrite Hinit|]. split; [done|].
    unfold emitted. rewrite Hinit. simpl. rewrite drop_app_length.
    apply list_elem_of_further, list_elem_of_here.
  - by exists None.
Qed.

Lemma uses_client_no_setup c e : uses_client c e -> is_auth e = false.
Proof. intros [H _]. by destruct e. Qed.

(** The Vault step of a host, after a history without any call of Vault. *)
Lemma vaultStep_attempts t0 host sudoPasswd vc :
  hoare (fun s => no_vault_since t0 (trace s))
        (vaultStep W cfg host sudoPasswd vc)
        (fun r s => match r with
                    | Normal vc1 => stepped_since W host vc vc1 t0 (trace s)
                    | _ => False
                    end).
Proof.
  intros s (d0 & Ht0 & Hd0).
  assert (H0 : authentications d0 = 0%nat)
    by (apply (authentications_none no_vault); [apply no_vault_unauthenticated | done]).
  destruct (vaultStep W cfg host sudoPasswd vc s) as [r s'] eqn:Hrun. cbn [fst snd].
  unfold vaultStep in Hrun.
  destruct (Enable (Vault host)) eqn:Hen.
  2:{ injection Hrun as <- <-. exists d0. split; [done|]. unfold attempts_of. rewrite Hen.
      by destruct vc. }
  destruct vc as [c|].
  - unfold bind at 1, ret at 1 in Hrun. unfold bind in Hrun.
    pose proof (rekeyStep_returns W cfg host sudoPasswd c s) as Hr.
    destruct (rekeyStep_uses_client W cfg host sudoPasswd c s) as (d & Ht & Hd).
    destruct (rekeyStep W cfg host sudoPasswd c s) as [r1 s1]. simpl in Hr, Ht. subst r1.
    injection Hrun as <- <-.
    exists (d0 ++ d). rewrite Ht, Ht0, app_assoc. split; [done|]. split; [done|].
    rewrite authentications_app, H0.
    apply (authentications_none (uses_client c)); [apply uses_client_no_setup | done].
  - unfold bind at 1 in Hrun.
    destruct (vaultInit_attempts s) as (vc1 & Hr1 & Hn & Hc).
    destruct (grows_emitted _ _ s (quiet_emits _ _ (vaultInit_quiet W))) as [Ht1 _].
    set (d1 := emitted (vaultInit W) s) in *.
    destruct (vaultInit W s) as [r1 s1]. simpl in Hr1, Ht1. subst r1.
    destruct vc1 as [c|].
    + unfold bind in Hrun.
      pose proof (rekeyStep_returns W cfg host sudoPasswd c s1) as Hr.
      destruct (rekeyStep_uses_client W cfg host sudoPasswd c s1) as (d & Ht & Hd).
      destruct (rekeyStep W cfg host sudoPasswd c s1) as [r2 s2].
      simpl in Hr, Ht. subst r2. injection Hrun as <- <-.
      exists (d0 ++ d1 ++ d). rewrite Ht, Ht1, Ht0, <- !app_assoc. split; [done|].
      rewrite !authentications_app, H0, Hn.
      rewrite (authentications_none (uses_client c) d);
        [|apply uses_client_no_setup | done].
      unfold attempts_of. rewrite Hen. simpl. split; [by rewrite Nat.add_0_r|].
      rewrite !elem_of_app. right. by left.
    + unfold bind, ret in Hrun. injection Hrun as <- <-.
      exists (d0 ++ d1). rewrite Ht1, Ht0, app_assoc.
      split; [done|]. rewrite authentications_app, H0, Hn. unfold attempts_of.
      by rewrite Hen.
Qed.

Lemma hoare_no_vault_since {A} (P : Event -> Prop) t0 (m : M A) :
  emits P m -> (forall e, P e -> no_vault e) ->
  hoare (fun s => no_vault_since t0 (trace s)) m (fun _ s => no_vault_since t0 (trace s)).
Proof.
  intros Hm HP. eapply hoare_emits.
  - eapply emits_weaken; [exact HP | exact Hm].
  - intros t d. apply no_vault_since_more.
Qed.

Lemma hoare_stepped {A} (P : Event -> Prop) host vc vc1 t0 (m : M A) :
  emits P m -> (forall e, P e -> no_vault e) ->
  hoare (fun s => stepped_since W host vc vc1 t0 (trace s)) m
        (fun _ s => stepped_since W host vc vc1 t0 (trace s)).
Proof.
  intros Hm HP. eapply hoare_emits.
  - eapply emits_weaken; [exact HP | exact Hm].
  - intros t d. apply stepped_since_more.
Qed.

Lemma stepped_turn host vc vc1 t0 s :
  stepped_since W host vc vc1 t0 (trace s) ->
  exists d, trace s = t0 ++ d /\
    (authentications d <= match vc with
                          | Some _ => 0
                          | None => attempts_of W host
                          end)%nat.
Proof.
  intros (d & Ht & H). exists d. split; [done|].
  destruct vc as [c|]; [destruct H as [_ ->] | destruct H as [-> _]]; lia.
Qed.

Ltac before_step t0 :=
  eapply (hoare_bind _ _ _ (fun _ s => no_vault_since t0 (trace s)));
    [ | intros ?
      | intros ? ? (d & Ht & Hd); exists d; split; [done|];
        rewrite (authentications_none no_vault d);
          [lia | apply no_vault_unauthenticated | done]
      | intros ? ? (d & Ht & Hd); exists d; split; [done|];
        rewrite (authentications_none no_vault d);
          [lia | apply no_vault_unauthenticated | done] ].

Ltac after_step W host vc vc1 t0 :=
  eapply (hoare_bind _ _ _ (fun _ s => stepped_since W host vc vc1 t0 (trace s)));
    [ | intros ?
      | intros ? ?; apply stepped_turn
      | intros ? ?; apply stepped_turn ].

Lemma deployHost_attempts t0 resultPath sudoPasswd host vc :
  hoare (fun s => no_vault_since t0 (trace s))
        (deployHost W cfg resultPath sudoPasswd host vc)
        (turn_post W host vc t0).
Proof.
  unfold deployHost.
  before_step t0; [apply hoare_get|].
  before_step t0.
  { apply hoare_when. eapply hoare_no_vault_since; [apply quiet_emits, pushPaths_quiet|].
    by intros []. }
  before_step t0.
  { eapply hoare_no_vault_since; [apply (emits_emit no_vault)|]; done. }
  eapply (hoare_bind _ _ _ (fun r s => match r with
                                       | Normal vc1 => stepped_since W host vc vc1 t0 (trace s)
                                       | _ => False
                                       end));
    [apply vaultStep_attempts | intros vc1 | done | done].
  after_step W host vc vc1 t0; [apply hoare_get|].
  after_step W host vc vc1 t0.
  { apply hoare_when. eapply hoare_stepped; [apply quiet_emits, uploadSecrets_quiet|].
    by intros []. }
  after_step W host vc vc1 t0; [apply hoare_get|].
  after_step W host vc vc1 t0.
  { apply hoare_when.
    eapply hoare_stepped; [apply quiet_emits, activateConfiguration_quiet|].
    by intros []. }
  after_step W host vc vc1 t0.
  { eapply hoare_stepped; [apply healthGate_emits|]. by intros []. }
  after_step W host vc vc1 t0.
  { eapply hoare_stepped; [apply (emits_emit no_vault)|]; done. }
  by apply hoare_ret.
Qed.

Lemma vault_hosts_cons host hosts :
  length (vault_hosts (host :: hosts)) =
    ((if Enable (Vault host) then 1 else 0) + length (vault_hosts hosts))%nat.
Proof. unfold vault_hosts. simpl. by destruct (Enable (Vault host)). Qed.

Lemma attempts_of_le host : (attempts_of W host <= if Enable (Vault host) then 1 else 0)%nat.
Proof. unfold attempts_of. destruct (Enable (Vault host)), (vault_credentials_set W); simpl; lia. Qed.

(** The loop: with a session in hand [vault.Auth] is not called; without
    one it is called at most once for each host that takes a credential, and
    once for each when the credentials are set, the loop returns and no
    configuration has succeeded. *)
Lemma deployHosts_attempts hosts resultPath sudoPasswd vc s :
  (authentications (emitted (deployHosts W cfg hosts resultPath sudoPasswd vc) s) <=
     match vc with
     | Some _ => 0
     | None => length (vault_hosts hosts)
     end)%nat /\
  (vc = None -> vault_credentials_set W = true ->
   (exists vc', fst (deployHosts W cfg hosts resultPath sudoPasswd vc s) = Normal vc') ->
   Forall (fun e => established e = false)
     (emitted (deployHosts W cfg hosts resultPath sudoPasswd vc) s) ->
   authentications (emitted (deployHosts W cfg hosts resultPath sudoPasswd vc) s) =
     length (vault_hosts hosts)).
Proof.
  revert vc s. induction hosts as [|host hosts IH]; intros vc s.
  - unfold emitted. simpl. rewrite drop_ge by lia.
    split; [destruct vc; cbn; lia | intros; reflexivity].
  - rewrite emitted_deployHosts_cons, deployHosts_cons, vault_hosts_cons.
    pose proof (deployHost_attempts (trace s) resultPath sudoPasswd host vc s
                  (no_vault_since_refl _)) as Hturn.
    pose proof (attempts_of_le host) as Hle.
    assert (Hhost : forall d, trace (snd (deployHost W cfg resultPath sudoPasswd host vc s)) =
                                trace s ++ d ->
                              emitted (deployHost W cfg resultPath sudoPasswd host vc) s = d).
    { intros d Hd. unfold emitted. by rewrite Hd, drop_app_length. }
    destruct (deployHost W cfg resultPath sudoPasswd host vc s) as [[vc1|e|code] s1];
      simpl in Hturn, Hhost |- *.
    + destruct Hturn as (d & Ht & Hd). rewrite (Hhost d Ht).
      destruct (IH vc1 s1) as [Hbound Hexact].
      rewrite !authentications_app. split.
      * destruct vc as [c|].
        { destruct Hd as [-> ->]. simpl in Hbound. lia. }
        destruct Hd as [-> _]. destruct vc1; simpl in Hbound; lia.
      * intros -> Hset Hret Hall. apply Forall_app in Hall as [Hall1 Hall2].
        destruct Hd as [-> Hc]. destruct vc1 as [c'|].
        { rewrite Forall_forall in Hall1. by apply Hall1 in Hc. }
        rewrite (Hexact eq_refl Hset Hret Hall2).
        unfold attempts_of. rewrite Hset. by destruct (Enable (Vault host)).
    + destruct Hturn as (d & Ht & Hd). rewrite (Hhost d Ht), app_nil_r. split.
      * destruct vc; lia.
      * by intros _ _ [vc' Hvc'].
    + destruct Hturn as (d & Ht & Hd). rewrite (Hhost d Ht), app_nil_r. split.
      * destruct vc; lia.
      * by intros _ _ [vc' Hvc'].
Qed.

End Attempts.

Section Counting.

Variable W : World.
Variable cfg : Config.

Lemma loop_then_ret_run hosts resultPath sudoPasswd s c s' :
  (deployHosts W cfg hosts resultPath sudoPasswd None ;; ret tt) s = (c, s') ->
  trace s' = trace s ++ emitted (deployHosts W cfg hosts resultPath sudoPasswd None) s /\
  (c = Normal tt <->
   exists vc, fst (deployHosts W cfg hosts resultPath sudoPasswd None s) = Normal vc).
Proof.
  unfold bind.
  destruct (grows_emitted _ _ s (deployHosts_emits W cfg hosts resultPath sudoPasswd None))
    as [Ht _].
  set (d := emitted (deployHosts W cfg hosts resultPath sudoPasswd None) s) in *.
  destruct (deployHosts W cfg hosts resultPath sudoPasswd None s) as [[vc|e|code] s4];
    simpl in *; intros [= <- <-]; (split; [done|]); split; try done; eauto;
    by intros [vc' Hvc'].
Qed.

(** [doDeploy] either panics before the loop, after nothing but the build
    and the prompt, or runs the loop over the hosts that were built. *)
Lemma doDeploy_runs_the_loop s :
  (exists err,
     fst (doDeploy W cfg s) = Panic err /\
     Forall (fun e => build_event e \/ askForSudoPassword_event e)
       (emitted (doDeploy W cfg) s)) \/
  (exists d0 evalMachinesPath deploymentPath hosts resultPath pre sudoPasswd s3,
     emitted (doDeploy W cfg) s =
       d0 ++ EvBuildMachines evalMachinesPath deploymentPath hosts (Ok resultPath)
             :: pre ++ emitted (deployHosts W cfg hosts resultPath sudoPasswd None) s3 /\
     Forall getHosts_event d0 /\
     Forall askForSudoPassword_event pre /\
     (fst (doDeploy W cfg s) = Normal tt <->
      exists vc, fst (deployHosts W cfg hosts resultPath sudoPasswd None s3) = Normal vc)).
Proof.
  unfold emitted at 1 2.
  destruct (doDeploy W cfg s) as [c s'] eqn:Hrun. cbn [fst snd]. unfold doDeploy in Hrun.
  unfold bind at 1 in Hrun.
  pose proof (resolvePlan_returns cfg s) as Hr0.
  pose proof (proj1 (resolvePlan_trace cfg s)) as Ht0.
  destruct (resolvePlan cfg s) as [c0 s0]. simpl in Hr0, Ht0. subst c0.
  unfold bind at 1 in Hrun.
  destruct (build_run W cfg s0)
    as [(err & d & Hb & Hd) | (hosts & resultPath & d0 & p & dp & Hb & Hd0)];
    rewrite Hb in Hrun.
  { left. exists err. injection Hrun as <- <-. split; [done|].
    erewrite emitted_after; [|done|done].
    eapply Forall_impl; [exact Hd|]. intros e [He _]. by left. }
  unfold Println at 1, bind at 1, emit at 1 in Hrun.
  unfold bind at 1, get at 1 in Hrun.
  destruct (doAskPass _).
  - unfold askForSudoPassword, Print, Println, terminal_ReadPassword in Hrun.
    unfold bind at 1 in Hrun. unfold bind at 1 in Hrun. unfold bind at 1 in Hrun.
    unfold emit at 1, call at 1 in Hrun. unfold bind at 1 in Hrun.
    destruct (ask_terminal_ReadPassword W _) as [sudoPasswd | err].
    + unfold ret at 1, bind at 1, emit at 1, bind at 1, emit at 1, ret at 1 in Hrun.
      apply loop_then_ret_run in Hrun as (Ht & Hc).
      right. exists d0, p, dp, hosts, resultPath.
      eexists [_; _; _; _; _; _], sudoPasswd, _.
      split; [|split; [done|split; [|exact Hc]]].
      * eapply emitted_after; [done|]. rewrite Ht. simpl.
        rewrite <- !app_assoc. simpl. reflexivity.
      * repeat constructor.
    + unfold panic in Hrun. injection Hrun as <- <-.
      left. exists err. split; [done|].
      erewrite emitted_after; [|done|]; last first.
      { simpl. rewrite <- !app_assoc. simpl. reflexivity. }
      apply Forall_app. split.
      { eapply Forall_impl; [exact Hd0|]. intros e He. left. by destruct e. }
      repeat constructor; by right.
  - unfold ret at 1 in Hrun.
    apply loop_then_ret_run in Hrun as (Ht & Hc).
    right. exists d0, p, dp, hosts, resultPath.
    eexists [_; _], "", _.
    split; [|split; [done|split; [|exact Hc]]].
    + eapply emitted_after; [done|]. rewrite Ht. simpl.
      rewrite <- !app_assoc. simpl. reflexivity.
    + repeat constructor.
Qed.

End Counting.

Lemma deployHost_event_unbuilt cfg host e :
  deployHost_event cfg host e -> build_succeeded e = false.
Proof. intros [H|[H|[H|[H|H]]]]; by destruct e. Qed.

Lemma getHosts_event_unauthenticated e : getHosts_event e -> is_auth e = false.
Proof. by destruct e. Qed.

Lemma askForSudoPassword_event_unauthenticated e :
  askForSudoPassword_event e -> is_auth e = false.
Proof. by destruct e. Qed.

Lemma askForSudoPassword_event_unbuilt e :
  askForSudoPassword_event e -> build_succeeded e = false.
Proof. by destruct e. Qed.

Lemma before_the_loop_unauthenticated e :
  build_event e \/ askForSudoPassword_event e -> is_auth e = false.
Proof. intros [H|H]; by destruct e. Qed.

(** C4, as the code has it.  The session is established at most once, and
    attempted at most once for each host that takes a dynamic credential.

    Once [vault.Configure] has succeeded the session is kept: for the rest
    of the invocation neither [vault.Auth] nor [vault.Configure] is called
    again, and every rekey goes through the client of that session; before
    that moment no configuration had succeeded and no rekey was made.

    As long as there is no session, each host that takes a dynamic credential
    makes an attempt of its own.  So [vault.Auth] is called at most as often
    as there are such hosts among the hosts that were built; and when the
    credentials of Vault are set, [doDeploy] returns and no configuration has
    succeeded, it has been called exactly once for each of them. *)
Theorem session_is_established_once (W : World) (cfg : Config) (s : State) :
  (forall d1 c d2,
     emitted (doDeploy W cfg) s = d1 ++ EvVaultConfigure c None :: d2 ->
     Forall without_session d1 /\ Forall (uses_client c) d2) /\
  (forall d0 evalMachinesPath deploymentPath hosts resultPath d,
     emitted (doDeploy W cfg) s =
       d0 ++ EvBuildMachines evalMachinesPath deploymentPath hosts (Ok resultPath) :: d ->
     (authentications (emitted (doDeploy W cfg) s) <= length (vault_hosts hosts))%nat /\
     (vault_credentials_set W = true ->
      fst (doDeploy W cfg s) = Normal tt ->
      Forall (fun e => established e = false) (emitted (doDeploy W cfg) s) ->
      authentications (emitted (doDeploy W cfg) s) = length (vault_hosts hosts))).
Proof.
  split.
  { intros d1 c d2 Heq.
    destruct (doDeploy_session W cfg (trace s) s (session_since_refl _))
      as (st & d & Ht & Hd & _).
    unfold emitted in Heq. rewrite Ht, drop_app_length in Heq. subst d.
    apply disciplined_app in Hd as [Hd1 Hd2]. simpl in Hd2.
    destruct Hd2 as [Hconf Hd2].
    destruct (foldl session_after None d1) as [c0|] eqn:Hst.
    { by destruct Hconf as [Hconf _]. }
    split.
    - by apply without_session_disciplined.
    - by apply uses_client_disciplined. }
  intros d0 p dp hosts resultPath d Heq.
  destruct (doDeploy_runs_the_loop W cfg s)
    as [(err & Hpanic & Hall)
       | (d0' & p' & dp' & hosts' & rp' & pre & pw & s3 & Hrun & Hd0 & Hpre & Hret)].
  { rewrite (authentications_none _ _ before_the_loop_unauthenticated Hall).
    split; [lia|]. intros _ Hn. rewrite Hpanic in Hn. discriminate Hn. }
  pose proof (proj2 (grows_emitted _ _ s3
                       (deployHosts_emits W cfg hosts' rp' pw None))) as Hloop.
  set (loop := emitted (deployHosts W cfg hosts' rp' pw None) s3) in *.
  assert (Hsame : hosts = hosts').
  { rewrite Hrun in Heq.
    apply (marked_once build_succeeded) in Heq as (_ & Hev & _); [by injection Hev | | |done|done].
    - eapply Forall_impl; [exact Hd0|]. apply getHosts_event_unbuilt.
    - apply Forall_app. split.
      + eapply Forall_impl; [exact Hpre|]. apply askForSudoPassword_event_unbuilt.
      + eapply Forall_impl; [exact Hloop|].
        intros e (host & _ & He). by eapply deployHost_event_unbuilt. }
  subst hosts'. clear Heq.
  destruct (deployHosts_attempts W cfg hosts rp' pw None s3) as [Hbound Hexact].
  fold loop in Hbound, Hexact.
  assert (Hcount : authentications (emitted (doDeploy W cfg) s) = authentications loop).
  { rewrite Hrun.
    change (EvBuildMachines p' dp' hosts (Ok rp') :: pre ++ loop)
      with ([EvBuildMachines p' dp' hosts (Ok rp')] ++ pre ++ loop).
    rewrite !authentications_app.
    rewrite (authentications_none _ _ getHosts_event_unauthenticated Hd0).
    rewrite (authentications_none _ _ askForSudoPassword_event_unauthenticated Hpre).
    reflexivity. }
  rewrite Hcount. split; [exact Hbound|].
  intros Hset Hn Hnone. apply Hexact; [done | done | by apply Hret |].
  rewrite Hrun in Hnone. apply Forall_app in Hnone as [_ Hnone].
  apply Forall_cons in Hnone as [_ Hnone]. by apply Forall_app in Hnone as [_ Hnone].
Qed.

(** The original statement fails: with [N = 2] hosts that take a dynamic
    credential and a Vault that refuses the token, [vault.Auth] is called for
    each of them. *)
Lemma authentication_is_attempted_again :
  let hosts := [Sample.vaultHost "A"; Sample.vaultHost "B"] in
  let W := Sample.world hosts Sample.vaultEnv false true [] [] [] [] in
  ~ (authentications (emitted (doDeploy W (Sample.config false "switch")) initial) <= 1)%nat.
Proof. vm_compute. lia. Qed.

(** Two hosts that take a dynamic credential.  With a Vault that accepts the
    token the session is established in the turn of the first host and is
    used from then on; with a Vault that refuses it, each of the two hosts
    makes its attempt and the run goes on to the end. *)
Lemma session_is_established_once_witness :
  let hosts := [Sample.vaultHost "A"; Sample.vaultHost "B"] in
  let cfg := Sample.config false "switch" in
  let W := Sample.world hosts Sample.vaultEnv true true [] [] [] [] in
  let d := emitted (doDeploy W cfg) initial in
  let W' := Sample.world hosts Sample.vaultEnv false true [] [] [] [] in
  let d' := emitted (doDeploy W' cfg) initial in
  let built := EvBuildMachines "/tmp/assets/eval-machines.nix" "/work/net.nix" hosts
                 (Ok "/nix/store/result") in
  (d = take 14 d ++ EvVaultConfigure 7%nat None :: drop 15 d /\
   Forall without_session (take 14 d) /\ Forall (uses_client 7%nat) (drop 15 d)) /\
  (d' = take 5 d' ++ built :: drop 6 d' /\
   vault_credentials_set W' = true /\
   fst (doDeploy W' cfg initial) = Normal tt /\
   Forall (fun e => established e = false) d' /\
   (authentications d' <= length (vault_hosts hosts))%nat /\
   authentications d' = length (vault_hosts hosts)) /\
  authentications d = 1%nat /\ authentications d' = 2%nat.
Proof.
  intros hosts cfg W d W' d' built.
  assert (Heq : d = take 14 d ++ EvVaultConfigure 7%nat None :: drop 15 d)
    by (vm_compute; reflexivity).
  assert (Heq' : d' = take 5 d' ++ built :: drop 6 d') by (vm_compute; reflexivity).
  assert (Hset : vault_credentials_set W' = true) by reflexivity.
  assert (Hret : fst (doDeploy W' cfg initial) = Normal tt) by (vm_compute; reflexivity).
  assert (Hnone : Forall (fun e => established e = false) d')
    by (vm_compute; repeat constructor).
  split; [|split].
  - split; [exact Heq|].
    exact (proj1 (session_is_established_once W cfg initial) _ _ _ Heq).
  - split; [exact Heq'|]. split; [exact Hset|]. split; [exact Hret|].
    split; [exact Hnone|].
    destruct (proj2 (session_is_established_once W' cfg initial) _ _ _ _ _ _ Heq')
      as [Hbound Hexact].
    split; [exact Hbound | exact (Hexact Hset Hret Hnone)].
  - split; vm_compute; reflexivity.
Defined.

(** * After a failed upload of the credential *)

Lemma removal_follows_nil cfg : removal_follows cfg [].
Proof. intros d1 e d2 Heq. by destruct d1. Qed.

Lemma removal_follows_more cfg d d' :
  removal_follows cfg d -> Forall (fun e => failed_credential_upload e = false) d' ->
  removal_follows cfg (d ++ d').
Proof.
  intros Hd Hd' d1 e d2 Heq He.
  apply List.app_eq_app in Heq as [l [[-> Heq]|[-> Heq]]].
  - destruct l as [|e' l]; simpl in Heq.
    + rewrite <- Heq in Hd'. apply Forall_cons in Hd' as [He' _]. congruence.
    + injection Heq as <- ->.
      destruct (Hd d1 e l eq_refl He) as (removed & rest & ->).
      by exists removed, (rest ++ d').
  - rewrite Heq in Hd'. apply Forall_app in Hd' as [_ Hd'].
    apply Forall_cons in Hd' as [He' _]. congruence.
Qed.

Lemma removal_follows_removed cfg d u removed :
  removal_follows cfg d -> removal_follows cfg (d ++ [u; EvRemove (tempFile cfg) removed]).
Proof.
  intros Hd d1 e d2 Heq He.
  apply List.app_eq_app in Heq as [l [[-> Heq]|[-> Heq]]].
  - destruct l as [|e' l]; simpl in Heq.
    + injection Heq as _ ->. by exists removed, [].
    + injection Heq as <- ->.
      destruct (Hd d1 e l eq_refl He) as (removed' & rest & ->).
      by eexists removed', _.
  - destruct l as [|e' l]; simpl in Heq.
    + injection Heq as _ <-. by exists removed, [].
    + injection Heq as _ Heq. destruct l as [|e'' l]; simpl in Heq.
      * injection Heq as <- _. discriminate He.
      * injection Heq as _ Heq. by destruct l.
Qed.

Section Followed.

Variable W : World.
Variable cfg : Config.

Hypothesis Hdir : String.eqb (filepath_Dir W (deployDeployment cfg)) "./" = false.

Lemma hoare_followed {A} (P : Event -> Prop) t0 (m : M A) :
  emits P m -> (forall e, P e -> failed_credential_upload e = false) ->
  hoare (fun s => removal_follows_since cfg t0 (trace s)) m
        (fun _ s => removal_follows_since cfg t0 (trace s)).
Proof.
  intros Hm HP. eapply hoare_emits.
  - eapply emits_weaken; [exact HP | exact Hm].
  - intros t d (d0 & -> & Hd0) Hd. exists (d0 ++ d). rewrite app_assoc. split; [done|].
    by apply removal_follows_more.
Qed.

Lemma vaultless_no_failed_credential_upload e :
  vaultless W cfg e -> failed_credential_upload e = false.
Proof.
  destruct e; simpl; try done. intros [_ ->]. rewrite Hdir. by destruct r.
Qed.

Lemma vaultStep_followed t0 host sudoPasswd vc :
  hoare (fun s => removal_follows_since cfg t0 (trace s))
        (vaultStep W cfg host sudoPasswd vc)
        (fun _ s => removal_follows_since cfg t0 (trace s)).
Proof.
  intros s (d & Ht & Hd).
  destruct (grows_emitted _ _ s (vaultStep_emits W cfg host sudoPasswd vc)) as [Ht' _].
  rewrite Ht', Ht, <- app_assoc. eexists. split; [reflexivity|].
  destruct (vaultStep_cases W cfg host sudoPasswd vc s)
    as [(c & creds & d0 & r & removed & _ & -> & Hd0 & _)|(vc' & _ & _ & Hd' & _)].
  - rewrite !app_assoc. apply removal_follows_removed. rewrite <- app_assoc.
    apply removal_follows_more; [done|]. apply Forall_app. split.
    + eapply Forall_impl; [exact Hd0|]. intros e [_ He]. by destruct e.
    + by repeat constructor.
  - apply removal_follows_more; [done|].
    eapply Forall_impl; [exact Hd'|]. intros e He. by destruct e.
Qed.

Lemma Println_followed t0 text :
  hoare (fun s => removal_follows_since cfg t0 (trace s)) (Println text)
        (fun _ s => removal_follows_since cfg t0 (trace s)).
Proof.
  eapply (hoare_followed (fun e => is_stdout e = true)); [by apply emits_emit|].
  by intros [].
Qed.

Lemma deployHost_followed t0 resultPath sudoPasswd host vc :
  hoare (fun s => removal_follows_since cfg t0 (trace s))
        (deployHost W cfg resultPath sudoPasswd host vc)
        (fun _ s => removal_follows_since cfg t0 (trace s)).
Proof.
  unfold deployHost.
  inv_seq; [apply hoare_get|].
  inv_seq.
  { apply hoare_when. eapply hoare_followed; [apply quiet_emits, pushPaths_quiet|].
    by intros []. }
  inv_seq; [apply Println_followed|].
  inv_seq; [apply vaultStep_followed|].
  inv_seq; [apply hoare_get|].
  inv_seq.
  { apply hoare_when.
    eapply hoare_followed; [apply quiet_emits, uploadSecrets_vaultless|].
    apply vaultless_no_failed_credential_upload. }
  inv_seq; [apply hoare_get|].
  inv_seq.
  { apply hoare_when.
    eapply hoare_followed; [apply quiet_emits, activateConfiguration_quiet|].
    by intros []. }
  inv_seq.
  { eapply hoare_followed; [apply healthGate_emits|]. by intros []. }
  inv_seq; [apply Println_followed|].
  by apply hoare_ret.
Qed.

Lemma deployHosts_followed t0 hosts resultPath sudoPasswd vc :
  hoare (fun s => removal_follows_since cfg t0 (trace s))
        (deployHosts W cfg hosts resultPath sudoPasswd vc)
        (fun _ s => removal_follows_since cfg t0 (trace s)).
Proof.
  unfold deployHosts. revert vc. induction hosts as [|host hosts IH]; intros vc.
  - by apply hoare_ret.
  - simpl. inv_seq; [apply deployHost_followed | apply IH].
Qed.

Lemma doDeploy_followed t0 :
  hoare (fun s => removal_follows_since cfg t0 (trace s)) (doDeploy W cfg)
        (fun _ s => removal_follows_since cfg t0 (trace s)).
Proof.
  unfold doDeploy.
  inv_seq.
  { eapply hoare_followed;
      [apply (resolvePlan_emits (fun e => failed_credential_upload e = false))|].
    done. }
  inv_seq_as built.
  { eapply hoare_followed; [apply quiet_emits, build_quiet|]. by intros []. }
  destruct built as [hosts resultPath].
  inv_seq; [apply Println_followed|].
  inv_seq_as askPass; [apply hoare_get|].
  inv_seq_as sudoPasswd.
  { destruct askPass.
    - eapply (hoare_followed askForSudoPassword_event); [|by intros []].
      unfold_prints. run_down; try done.
      by_quiet (askForSudoPassword_quiet W).
    - by apply hoare_ret. }
  inv_seq; [apply deployHosts_followed|].
  by apply hoare_ret.
Qed.

Lemma main_followed t0 command :
  hoare (fun s => removal_follows_since cfg t0 (trace s)) (main W cfg command)
        (fun _ s => removal_follows_since cfg t0 (trace s)).
Proof.
  unfold main. inv_seq.
  - destruct (String.eqb command "deploy"); [apply doDeploy_followed|].
    destruct (String.eqb command "check-health"); [|by apply hoare_ret].
    eapply hoare_followed; [apply quiet_emits, doHealthCheck_quiet|]. by intros [].
  - unfold assets_Teardown.
    eapply (hoare_followed (fun e => is_teardown e = true)); [by apply emits_emit|].
    by intros [].
Qed.

End Followed.

(** C8.  A failure of the upload of a rekeyed credential is dropped.  The
    declared secrets are not uploaded with the directory of the credential.

    First, in every run of [main]: an upload of a credential that fails is
    followed at once by the call of [os.Remove] on the credential file; the
    run neither stops there nor writes a warning.

    Second, the run goes on as if the upload had succeeded.  In a steady
    world, [main] ends in the same way as in the world where every upload of
    a credential succeeds: it returns, panics or exits alike, so the failure
    is not fatal; the two runs make the same calls in the same order, with
    the same answers but those of the uploads of credentials, and print the
    same on standard output and on standard error, so the failure is not
    reported and every later step and every later host is dealt with as
    after a success; and they leave the same files and the same plan. *)
Theorem failed_credential_upload_is_dropped (W : World) (cfg : Config) (command : string)
    (s : State) :
  String.eqb (filepath_Dir W (deployDeployment cfg)) "./" = false ->
  (forall d1 host sudoPasswd secret err d2,
     emitted (main W cfg command) s =
       d1 ++ EvUploadSecret host sudoPasswd secret "./" (Some err) :: d2 ->
     exists removed rest, d2 = EvRemove (tempFile cfg) removed :: rest) /\
  (steady W ->
   fst (main W cfg command s) = fst (main (credential_uploads_succeed W) cfg command s) /\
   credential_upload_succeeds <$> emitted (main W cfg command) s =
     emitted (main (credential_uploads_succeed W) cfg command) s /\
   files (snd (main W cfg command s)) =
     files (snd (main (credential_uploads_succeed W) cfg command s)) /\
   plan (snd (main W cfg command s)) =
     plan (snd (main (credential_uploads_succeed W) cfg command s))).
Proof.
  intros Hdir. split.
  - intros d1 host sudoPasswd secret err d2 Heq.
    destruct (main_followed W cfg Hdir (trace s) command s) as (d & Ht & Hd).
    { exists []. rewrite app_nil_r. split; [done | apply removal_follows_nil]. }
    unfold emitted in Heq. rewrite Ht, drop_app_length in Heq.
    by apply (Hd d1 _ d2 Heq).
  - intros Hsteady.
    destruct (twins_main W cfg (trace s) Hsteady Hdir command s s (twin_refl s))
      as (Hr & Hp & Hf & d & Ht & Ht').
    split; [done|]. split; [|done].
    unfold emitted. by rewrite Ht, Ht', !drop_app_length.
Qed.

(** Two hosts that take a credential; the upload of the credential of the
    first fails.  The file is removed next, and the run returns as the run in
    which the upload succeeds. *)
Lemma failed_credential_upload_is_dropped_witness :
  let hosts := [Sample.vaultHost "A"; Sample.vaultHost "B"] in
  let W := Sample.world hosts Sample.vaultEnv true true [] ["A"] [] [] in
  let cfg := Sample.config false "switch" in
  let run := emitted (main W cfg "deploy") initial in
  (String.eqb (filepath_Dir W (deployDeployment cfg)) "./" = false /\
   run = take 20 run ++
         EvUploadSecret (Sample.vaultHost "A") ""
           (credentialSecret cfg (Sample.vaultHost "A")) "./" (Some "failed")
         :: drop 21 run /\
   steady W) /\
  (exists removed rest, drop 21 run = EvRemove (tempFile cfg) removed :: rest) /\
  (fst (main W cfg "deploy" initial) =
     fst (main (credential_uploads_succeed W) cfg "deploy" initial) /\
   credential_upload_succeeds <$> run =
     emitted (main (credential_uploads_succeed W) cfg "deploy") initial /\
   files (snd (main W cfg "deploy" initial)) =
     files (snd (main (credential_uploads_succeed W) cfg "deploy" initial)) /\
   plan (snd (main W cfg "deploy" initial)) =
     plan (snd (main (credential_uploads_succeed W) cfg "deploy" initial))) /\
  take 1 (drop 21 run) = [EvRemove (tempFile cfg) None] /\
  fst (main W cfg "deploy" initial) = Normal tt.
Proof.
  intros hosts W cfg run.
  assert (Hdir : String.eqb (filepath_Dir W (deployDeployment cfg)) "./" = false)
    by reflexivity.
  assert (Heq : run = take 20 run ++
                      EvUploadSecret (Sample.vaultHost "A") ""
                        (credentialSecret cfg (Sample.vaultHost "A")) "./" (Some "failed")
                      :: drop 21 run)
    by (vm_compute; reflexivity).
  assert (Hsteady : steady W) by (split; intros; reflexivity).
  split; [split; [exact Hdir | split; [exact Heq | exact Hsteady]]|].
  destruct (failed_credential_upload_is_dropped W cfg "deploy" initial Hdir)
    as [Hnext Hsame].
  split; [exact (Hnext _ _ _ _ _ _ Heq)|].
  split; [exact (Hsame Hsteady)|].
  split; vm_compute; reflexivity.
Defined.

(** A whole run in which the upload of the credential of the first host
    fails: nothing reaches standard error, the host is activated and checked,
    the second host is deployed as well, and [main] returns. *)
Example rollout_goes_on_after_failed_credential_upload :
  let hosts := [Sample.vaultHost "A"; Sample.vaultHost "B"] in
  let W := Sample.world hosts Sample.vaultEnv true true [] ["A"] [] [] in
  let run := main W (Sample.config false "switch") "deploy" initial in
  fst run = Normal tt /\
  List.filter written_to_stderr (trace (snd run)) = [] /\
  omap remote_call (trace (snd run)) =
    [Sample.vaultHost "A"; Sample.vaultHost "A"; Sample.vaultHost "A";
     Sample.vaultHost "B"; Sample.vaultHost "B"; Sample.vaultHost "B"] /\
  files (snd run) !! "/tmp/morph-1/vault.env" = None.
Proof. vm_compute. done. Qed.

(** * Concrete runs *)

Lemma what_was_built_is_deployed_witness :
  let hosts := [Sample.plainHost "A"; Sample.secretHost "B"] in
  let W := Sample.world hosts Sample.noEnv true true [] [] [] [] in
  let cfg := Sample.config false "switch" in
  let run := emitted (doDeploy W cfg) initial in
  run = take 5 run ++
        EvBuildMachines "/tmp/assets/eval-machines.nix" "/work/net.nix" hosts
          (Ok "/nix/store/result") :: drop 6 run /\
  Forall getHosts_event (take 5 run) /\
  exists sudoPasswd,
    Forall (fun e => askForSudoPassword_event e \/
                     deploys W cfg hosts "/nix/store/result" sudoPasswd e) (drop 6 run).
Proof.
  intros hosts W cfg run.
  assert (Heq : run = take 5 run ++
            EvBuildMachines "/tmp/assets/eval-machines.nix" "/work/net.nix" hosts
              (Ok "/nix/store/result") :: drop 6 run)
    by (vm_compute; reflexivity).
  split; [exact Heq|].
  exact (what_was_built_is_deployed W cfg initial (take 5 run) (drop 6 run)
           "/tmp/assets/eval-machines.nix" "/work/net.nix" hosts "/nix/store/result" Heq).
Defined.

Lemma failed_build_touches_no_host_witness :
  let W := Scenario.brokenBuild [Sample.plainHost "A"; Sample.secretHost "B"] in
  let cfg := Sample.config false "switch" in
  Forall (fun e => build_succeeded e = false) (emitted (doDeploy W cfg) initial) /\
  (exists err, fst (doDeploy W cfg initial) = Panic err) /\
  Forall build_event (emitted (doDeploy W cfg) initial).
Proof.
  intros W cfg.
  assert (Hno : Forall (fun e => build_succeeded e = false)
                  (emitted (doDeploy W cfg) initial))
    by (vm_compute; repeat constructor).
  split; [exact Hno|].
  exact (failed_build_touches_no_host W cfg initial Hno).
Defined.

Lemma the_password_read_is_the_password_used_witness :
  let hosts := [Sample.plainHost "A"; Sample.secretHost "B"] in
  let W := Sample.world hosts Sample.noEnv true true [] [] [] [] in
  let cfg := Scenario.config false "switch" true false in
  let run := emitted (doDeploy W cfg) initial in
  run = take 9 run ++ EvReadPassword (Ok "hunter2") :: drop 10 run /\
  Forall build_event (take 9 run) /\
  exists hosts' resultPath, Forall (deploys W cfg hosts' resultPath "hunter2") (drop 10 run).
Proof.
  intros hosts W cfg run.
  assert (Heq : run = take 9 run ++ EvReadPassword (Ok "hunter2") :: drop 10 run)
    by (vm_compute; reflexivity).
  split; [exact Heq|].
  exact (the_password_read_is_the_password_used W cfg initial (take 9 run) (drop 10 run)
           (Ok "hunter2") Heq).
Defined.

Lemma without_prompt_the_password_is_empty_witness :
  let hosts := [Sample.plainHost "A"; Sample.secretHost "B"] in
  let W := Sample.world hosts Sample.noEnv true true [] [] [] [] in
  let cfg := Sample.config false "switch" in
  Forall (fun e => reads_password e = false) (emitted (doDeploy W cfg) initial) /\
  exists hosts' resultPath,
    Forall (fun e => build_event e \/ deploys W cfg hosts' resultPath "" e)
      (emitted (doDeploy W cfg) initial).
Proof.
  intros hosts W cfg.
  assert (Hno : Forall (fun e => reads_password e = false)
                  (emitted (doDeploy W cfg) initial))
    by (vm_compute; repeat constructor).
  split; [exact Hno|].
  exact (without_prompt_the_password_is_empty W cfg initial Hno).
Defined.

Lemma doDeploy_exits_only_after_a_failed_check_witness :
  let hosts := [Sample.plainHost "A"; Sample.secretHost "B"] in
  let W := Sample.world hosts Sample.noEnv true true [] [] [] ["A"] in
  let cfg := Sample.config false "switch" in
  fst (doDeploy W cfg initial) = Exit 1 /\
  1 = 1 /\ deploySkipHealthChecks cfg = false /\
  exists d host err,
    emitted (doDeploy W cfg) initial =
      d ++ EvHealthChecksPerform host (deployHealthCheckTimeout cfg) (Some err)
        :: halt_notice /\
    Forall (fun e => failed_health_check e = false) d.
Proof.
  intros hosts W cfg.
  assert (Hexit : fst (doDeploy W cfg initial) = Exit 1) by (vm_compute; reflexivity).
  split; [exact Hexit|].
  exact (doDeploy_exits_only_after_a_failed_check W cfg initial 1 Hexit).
Defined.

Lemma skipped_health_checks_never_exit_witness :
  let hosts := [Sample.plainHost "A"; Sample.secretHost "B"] in
  let W := Sample.world hosts Sample.noEnv true true [] [] [] ["A"] in
  let cfg := Scenario.config false "switch" false true in
  deploySkipHealthChecks cfg = true /\
  (forall code, fst (doDeploy W cfg initial) <> Exit code) /\
  Forall (fun e => health_check e = false) (emitted (doDeploy W cfg) initial).
Proof.
  intros hosts W cfg.
  assert (Hskip : deploySkipHealthChecks cfg = true) by reflexivity.
  split; [exact Hskip|].
  exact (skipped_health_checks_never_exit W cfg initial Hskip).
Defined.

Lemma hosts_without_vault_cause_no_vault_call_witness :
  let hosts := [Sample.plainHost "A"; Sample.secretHost "B"] in
  let W := Sample.world hosts Sample.vaultEnv true true [] [] [] [] in
  let cfg := Sample.config false "switch" in
  let s := snd (resolvePlan cfg initial) in
  Forall (fun host => Enable (Vault host) = false) hosts /\
  Forall (vaultless W cfg)
    (emitted (deployHosts W cfg hosts "/nix/store/result" "" None) s) /\
  (forall vc', fst (deployHosts W cfg hosts "/nix/store/result" "" None s) = Normal vc' ->
               vc' = None).
Proof.
  intros hosts W cfg s.
  assert (Hoff : Forall (fun host => Enable (Vault host) = false) hosts)
    by (repeat constructor).
  split; [exact Hoff|].
  exact (hosts_without_vault_cause_no_vault_call W cfg hosts "/nix/store/result" "" None s
           Hoff).
Defined.

Lemma without_credentials_vault_is_never_called_witness :
  let hosts := [Sample.vaultHost "A"; Sample.secretHost "B"] in
  let W := Sample.world hosts Sample.noEnv true true [] [] [] [] in
  let cfg := Sample.config false "switch" in
  vault_credentials_set W = false /\
  Forall (vaultless W cfg) (emitted (doDeploy W cfg) initial).
Proof.
  intros hosts W cfg.
  assert (Hunset : vault_credentials_set W = false) by reflexivity.
  split; [exact Hunset|].
  exact (without_credentials_vault_is_never_called W cfg initial Hunset).
Defined.

Lemma doDeploy_fails_fast_witness :
  let hosts := [Sample.plainHost "A"; Sample.secretHost "B"] in
  let W := Sample.world hosts Sample.noEnv true true [] [] ["B"] [] in
  let cfg := Sample.config false "switch" in
  let run := emitted (doDeploy W cfg) initial in
  let e := EvActivateConfiguration (Sample.secretHost "B") "/nix/store/system-B" "switch" ""
             (Some "failed") in
  run = take 36 run ++ e :: drop 37 run /\
  fatal_error e = Some "failed" /\
  fst (doDeploy W cfg initial) = Panic "failed" /\ drop 37 run = last_words e.
Proof.
  intros hosts W cfg run e.
  assert (Heq : run = take 36 run ++ e :: drop 37 run) by (vm_compute; reflexivity).
  assert (He : fatal_error e = Some "failed") by reflexivity.
  split; [exact Heq|]. split; [exact He|].
  exact (doDeploy_fails_fast W cfg initial (take 36 run) (drop 37 run) e "failed" Heq He).
Defined.

Lemma every_secret_is_uploaded_witness :
  let hosts := [Sample.plainHost "A"; Sample.secretHost "B"] in
  let W := Sample.world hosts Sample.noEnv true true [] [] [] [] in
  let cfg := Sample.config false "switch" in
  fst (uploadSecrets W cfg hosts "" initial) = Normal tt /\
  (exists arranged,
     Forall2 (fun host entries => entries ≡ₚ Secrets host) hosts arranged /\
     omap uploaded (emitted (uploadSecrets W cfg hosts "") initial) =
       mjoin (zip_with (fun host entries => (fun named => (host, named.2)) <$> entries)
                hosts arranged)) /\
  omap uploaded (emitted (uploadSecrets W cfg hosts "") initial) =
    [(Sample.secretHost "B",
      {| Source := "db.key"; Destination := "/run/db.key";
         Owner := "root"; Permissions := "0400" |})].
Proof.
  intros hosts W cfg.
  assert (Hret : fst (uploadSecrets W cfg hosts "" initial) = Normal tt)
    by (vm_compute; reflexivity).
  split; [exact Hret|]. split.
  - exact (every_secret_is_uploaded W cfg hosts "" initial Hret).
  - vm_compute; reflexivity.
Defined.

Lemma every_host_is_activated_witness :
  let hosts := [Sample.plainHost "A"; Sample.secretHost "B"] in
  let W := Sample.world hosts Sample.noEnv true true [] [] [] [] in
  let cfg := Sample.config false "switch" in
  let run := activateConfiguration W cfg hosts "/nix/store/result" "" in
  fst (run initial) = Normal tt /\
  (omap activated (emitted run initial)).*1 = hosts /\
  omap activated (emitted run initial) = omap system_path_found (emitted run initial).
Proof.
  intros hosts W cfg run.
  assert (Hret : fst (run initial) = Normal tt) by (vm_compute; reflexivity).
  split; [exact Hret|].
  exact (every_host_is_activated W cfg hosts "/nix/store/result" "" initial Hret).
Defined.

Lemma every_host_is_pushed_to_witness :
  let hosts := [Sample.plainHost "A"; Sample.secretHost "B"] in
  let W := Sample.world hosts Sample.noEnv true true ["A"] [] [] [] in
  let run := pushPaths W hosts "/nix/store/result" in
  fst (run initial) = Normal tt /\
  (omap pushed (emitted run initial)).*1 = hosts /\
  omap pushed (emitted run initial) = omap paths_found (emitted run initial).
Proof.
  intros hosts W run.
  assert (Hret : fst (run initial) = Normal tt) by (vm_compute; reflexivity).
  split; [exact Hret|].
  exact (every_host_is_pushed_to W hosts "/nix/store/result" initial Hret).
Defined.

Lemma vault_failure_is_reported_witness :
  let host := Sample.vaultHost "A" in
  let W := Sample.world [host] Sample.vaultEnv false true [] [] [] [] in
  let cfg := Sample.config false "switch" in
  let run := emitted (vaultStep W cfg host "" None) initial in
  let e := EvVaultAuth "http://vault:8200" "s.root" (Err "denied") in
  run = take 0 run ++ e :: drop 1 run /\
  vault_failure e = Some "denied" /\
  drop 1 run = vaultWarning "denied" /\
  Forall (fun e => vault_failed e = false) (take 0 run).
Proof.
  intros host W cfg run e.
  assert (Heq : run = take 0 run ++ e :: drop 1 run) by (vm_compute; reflexivity).
  assert (He : vault_failure e = Some "denied") by reflexivity.
  split; [exact Heq|]. split; [exact He|].
  exact (vault_failure_is_reported W cfg host "" None initial (take 0 run) (drop 1 run) e
           "denied" Heq He).
Defined.
